(** * Udemy course recommendation engine: scoring, enrichment and query

    A shallow embedding of the scoring and recommendation core of
    [recommendation_system.py]:

    - [calculate_bayesian_average], [calculate_confidence_level] and
      [enhance_dataframe] (the enrichment of a course table),
    - [build_recommender] (the cosine-similarity index),
    - [get_recommendations] (the nearest-neighbour query),
    - the start of the application, which chains the three, and the
      page's query by selected title;

    and of the columns and the cleaning of [run_data_import.py], which
    writes the table the application loads: the ratio columns, the
    popularity and quality scores, the length and price categories, the
    cleaning of column names, [dropna] and [drop_duplicates].

    Conventions of the embedding.

    - A pandas [DataFrame] is a record of its row count and a finite map
      from column names to columns; a column ([Series]) is a list of
      dynamically typed cells.  Frames carry the default [RangeIndex], so
      a row label is its position.
    - A float is an exact rational or one of the three IEEE special
      values (rounding and signed zeros are not modelled): what is proved
      of a float is proved in exact arithmetic.
    - An integer cell is an [int64].  A column whose cells are all
      integers is an [int64] column, and the sum of such a column and an
      integer is an [int64] too: it wraps around ([wrap64]).
    - A Python exception is a value of [exn]; code that may raise
      returns a [result].
    - Frames live in a store and are passed by reference where the code
      copies or mutates them ([df.copy()], [df[c] = ...]). *)

From Stdlib Require Import ZArith QArith Qabs Reals Lra Psatz Lia List String
  Sorted Ascii.
From stdpp Require Import gmap strings list sorting.

Close Scope Q_scope.
Close Scope R_scope.
Open Scope string_scope.
Open Scope list_scope.
Open Scope nat_scope.

(** ** Floats *)

Inductive fl := Fin (q : Q) | PInf | NInf | NaN.

Definition fl_of_Z (z : Z) : fl := Fin (inject_Z z).

Definition inf_of_sign (positive : bool) : fl := if positive then PInf else NInf.

(** The sign of a float: [None] for zero and for NaN. *)
Definition fsign (x : fl) : option bool :=
  match x with
  | Fin q => if Qeq_bool q 0 then None else Some (Qle_bool 0 q)
  | PInf => Some true
  | NInf => Some false
  | NaN => None
  end.

Definition fadd (x y : fl) : fl :=
  match x, y with
  | NaN, _ | _, NaN => NaN
  | Fin a, Fin b => Fin (a + b)
  | PInf, NInf | NInf, PInf => NaN
  | PInf, _ | _, PInf => PInf
  | NInf, _ | _, NInf => NInf
  end.

Definition fmul (x y : fl) : fl :=
  match x, y with
  | NaN, _ | _, NaN => NaN
  | Fin a, Fin b => Fin (a * b)
  | _, _ =>
      match fsign x, fsign y with
      | Some s, Some t => inf_of_sign (eqb s t)
      | _, _ => NaN
      end
  end.

(** True division as numpy does it: a zero divisor gives an infinity or
    NaN, never an exception. *)
Definition fdiv (x y : fl) : fl :=
  match x, y with
  | NaN, _ | _, NaN => NaN
  | Fin a, Fin b =>
      if Qeq_bool b 0
      then match fsign x with Some s => inf_of_sign s | None => NaN end
      else Fin (a / b)
  | Fin _, _ => Fin 0
  | PInf, Fin b => inf_of_sign (Qle_bool 0 b)
  | NInf, Fin b => inf_of_sign (negb (Qle_bool 0 b))
  | _, _ => NaN
  end.

(** [x <= y]; every comparison with NaN is false. *)
Definition fle (x y : fl) : bool :=
  match x, y with
  | NaN, _ | _, NaN => false
  | Fin a, Fin b => Qle_bool a b
  | NInf, _ | _, PInf => true
  | _, _ => false
  end.

Definition flt (x y : fl) : bool := fle x y && negb (fle y x).
Definition feq (x y : fl) : bool := fle x y && fle y x.

Definition is_nan (x : fl) : bool := match x with NaN => true | _ => false end.

(** ** Cells, exceptions *)

Inductive cell :=
  | CInt (z : Z)
  | CFloat (x : fl)
  | CStr (s : string)
  | CBool (b : bool)
  | CNone.

Inductive exn :=
  | KeyError (key : string)
  | IndexError
  | TypeError
  | ValueError
  | ReferenceError.

Inductive result (A : Type) :=
  | Ok (a : A)
  | Raise (e : exn).
Arguments Ok {A} a.
Arguments Raise {A} e.

#[global] Instance result_ret : MRet result := @Ok.
#[global] Instance result_bind : MBind result :=
  λ A B f r, match r with Ok a => f a | Raise e => Raise e end.
#[global] Instance result_fmap : FMap result :=
  λ A B f r, match r with Ok a => Ok (f a) | Raise e => Raise e end.

(** [for x in l: f x], collecting the results; the first exception
    stops the traversal. *)
Fixpoint traverse {A B} (f : A → result B) (l : list A) : result (list B) :=
  match l with
  | [] => Ok []
  | a :: l' => b ← f a; bs ← traverse f l'; mret (b :: bs)
  end.

(** The numeric reading of a cell ([bool] is a number in Python;
    arithmetic on [str] or [None] raises [TypeError]). *)
Definition num_of (c : cell) : result fl :=
  match c with
  | CInt z => Ok (fl_of_Z z)
  | CFloat x => Ok x
  | CBool b => Ok (fl_of_Z (if b then 1 else 0))
  | CStr _ | CNone => Raise TypeError
  end.

(** Python truthiness ([not c], [if c]). NaN is truthy. *)
Definition truthy (c : cell) : bool :=
  match c with
  | CInt z => negb (z =? 0)%Z
  | CFloat x => negb (feq x (Fin 0))
  | CStr s => negb (String.eqb s "")
  | CBool b => b
  | CNone => false
  end.

(** [c == d]: numbers compare by value, strings by content, anything
    else is unequal. *)
Definition cell_eqb (c d : cell) : bool :=
  match c, d with
  | CStr s, CStr t => String.eqb s t
  | CStr _, _ | _, CStr _ | CNone, _ | _, CNone => false
  | _, _ =>
      match num_of c, num_of d with
      | Ok x, Ok y => feq x y
      | _, _ => false
      end
  end.

(** Ordered comparisons [c >= d], [c < d], [c > d] of numbers. *)
Definition cell_cmp (cmp : fl → fl → bool) (c d : cell) : result bool :=
  x ← num_of c; y ← num_of d; mret (cmp x y).

Definition cell_ge := cell_cmp (λ x y, fle y x).
Definition cell_lt := cell_cmp flt.
Definition cell_gt := cell_cmp (λ x y, flt y x).

(** ** Frames and series *)

Record frame := Frame { nrows : nat; cols : gmap string (list cell) }.

(** Every column of a frame has one cell per row. *)
Definition frame_wf (df : frame) : Prop :=
  map_Forall (λ _ s, length s = nrows df) (cols df).

#[global] Instance frame_wf_dec df : Decision (frame_wf df).
Proof. unfold frame_wf. apply _. Defined.

(** [df[c]] *)
Definition getitem (df : frame) (c : string) : result (list cell) :=
  match cols df !! c with
  | Some s => Ok s
  | None => Raise (KeyError c)
  end.

(** [df[c] = s], on a frame value. *)
Definition setcol (c : string) (s : list cell) (df : frame) : frame :=
  Frame (nrows df) (<[c := s]> (cols df)).

(** [df.iloc[i]]: the row as a mapping from column names to cells. *)
Definition iloc (df : frame) (i : nat) : result (gmap string cell) :=
  if decide (i < nrows df)
  then Ok (omap (λ s : list cell, s !! i) (cols df))
  else Raise IndexError.

(** [row[c]] *)
Definition row_getitem (row : gmap string cell) (c : string) : result cell :=
  match row !! c with
  | Some x => Ok x
  | None => Raise (KeyError c)
  end.

(** [row.get(c, d)] *)
Definition row_get (row : gmap string cell) (c : string) (d : cell) : cell :=
  default d (row !! c).

(** Elementwise arithmetic of a series with a scalar, and of two series
    of one frame. *)
Definition series_map (f : fl → fl) (s : list cell) : result (list cell) :=
  traverse (λ c, x ← num_of c; mret (CFloat (f x))) s.

Definition series_zip (f : fl → fl → fl) (s t : list cell) : result (list cell) :=
  traverse (λ cd : cell * cell, x ← num_of cd.1; y ← num_of cd.2; mret (CFloat (f x y)))
           (zip s t).

(** Elementwise comparison of a series with a scalar. *)
Definition series_cmp (cmp : cell → cell → result bool) (s : list cell) (d : cell)
  : result (list cell) :=
  traverse (λ c, b ← cmp c d; mret (CBool b)) s.

(** [s & t] on boolean series. *)
Definition series_and (s t : list cell) : list cell :=
  zip_with (λ c d, CBool (truthy c && truthy d)) s t.

(** [s.mean()]: NaN entries are skipped; the mean of no value is NaN. *)
Definition fsum (xs : list fl) : fl := foldl fadd (Fin 0) xs.

Definition series_mean (s : list cell) : result fl :=
  xs ← traverse num_of s;
  let ys := filter (λ x, is_nan x = false) xs in
  mret (match ys with
        | [] => NaN
        | _ => fdiv (fsum ys) (fl_of_Z (Z.of_nat (length ys)))
        end).

(** The [int64] of an integer: the sum of two [int64] wraps around. *)
Definition wrap64 (z : Z) : Z := ((z + 2 ^ 63) mod 2 ^ 64 - 2 ^ 63)%Z.

Definition is_int (c : cell) : bool :=
  match c with
  | CInt _ => true
  | _ => false
  end.

(** [s + m] for a Python integer [m]: on an [int64] column the sum is an
    [int64] column, computed with wrap-around; on another column of numbers
    it is a float column. *)
Definition series_add_int (s : list cell) (m : Z) : result (list cell) :=
  if forallb is_int s
  then Ok ((λ c, match c with
                 | CInt z => CInt (wrap64 (z + m))
                 | _ => c
                 end) <$> s)
  else series_map (λ x, fadd x (fl_of_Z m)) s.

(** ** Bayesian average and confidence level *)

Definition calculate_bayesian_average (df : frame) (score_col count_col : string)
    (min_reviews : Z) : result (list cell) :=
  C ← (s ← getitem df score_col; series_mean s);
  let m := fl_of_Z min_reviews in
  v ← getitem df count_col;
  R ← getitem df score_col;
  vm ← series_add_int v min_reviews;
  w ← series_zip fdiv v vm;
  wR ← series_zip fmul w R;
  mw ← series_map (λ x, fdiv m x) vm;
  mC ← series_map (λ x, fmul x C) mw;
  series_zip fadd wR mC.

Definition calculate_confidence_level (num_reviews : cell) : result cell :=
  b ← cell_ge num_reviews (CInt 100);
  if b : bool then mret (CStr "High") else
  b ← cell_ge num_reviews (CInt 20);
  if b : bool then mret (CStr "Medium") else
  b ← cell_ge num_reviews (CInt 5);
  if b : bool then mret (CStr "Low") else
  mret (CStr "Very Low").

(** ** The store of frames *)

(** A reference to a frame is its position in the store.  [ReferenceError]
    (a reference to no frame) cannot arise in the Python program; it makes
    [load] total. *)
Abbreviation loc := nat (only parsing).
Abbreviation store := (list frame) (only parsing).

(** Computations over the store that may raise; the store survives an
    exception. *)
Definition M (A : Type) : Type := store → result A * store.

#[global] Instance M_ret : MRet M := λ A a σ, (Ok a, σ).
#[global] Instance M_bind : MBind M :=
  λ A B f c σ,
    match c σ with
    | (Ok a, σ') => f a σ'
    | (Raise e, σ') => (Raise e, σ')
    end.

Definition lift {A} (r : result A) : M A := λ σ, (r, σ).

Definition load (df : loc) : M frame :=
  λ σ, match σ !! df with
       | Some f => (Ok f, σ)
       | None => (Raise ReferenceError, σ)
       end.

(** [df.copy()]: a new frame with the same rows and columns. *)
Definition copy (df : loc) : M loc :=
  λ σ, match σ !! df with
       | Some f => (Ok (length σ), (σ ++ [f])%list)
       | None => (Raise ReferenceError, σ)
       end.

(** [df[c] = s] *)
Definition setitem (df : loc) (c : string) (s : list cell) : M unit :=
  λ σ, match σ !! df with
       | Some f => (Ok (), <[df := setcol c s f]> σ)
       | None => (Raise ReferenceError, σ)
       end.

(** [df.apply(f, axis=1)] *)
Definition apply_rows (df : frame) (f : gmap string cell → result cell)
  : result (list cell) :=
  traverse (λ i, row ← iloc df i; f row) (seq 0 (nrows df)).

(** The column [c] of the frame at [l], if there is one. *)
Definition column_at (σ : store) (l : loc) (c : string) : option (list cell) :=
  g ← σ !! l; cols g !! c.

(** ** Enrichment *)

(** [lambda row: row['num_reviews'] / row['num_subscribers']
             if row['num_subscribers'] > 0 else 0] *)
Definition engagement (row : gmap string cell) : result cell :=
  subs ← row_getitem row "num_subscribers";
  b ← cell_gt subs (CInt 0);
  if b : bool then
    reviews ← row_getitem row "num_reviews";
    subs ← row_getitem row "num_subscribers";
    x ← num_of reviews; y ← num_of subs;
    mret (CFloat (fdiv x y))
  else mret (CInt 0).

(** [(df['review_rate'] >= 0.99) & (df['num_subscribers'] < 50)] *)
Definition suspicious_flags (df : frame) : result (list cell) :=
  rate ← getitem df "review_rate";
  high ← series_cmp cell_ge rate (CFloat (Fin (99 # 100)));
  subs ← getitem df "num_subscribers";
  few ← series_cmp cell_lt subs (CInt 50);
  mret (series_and high few).

(** [df[c] = e], where the right-hand side [e] reads the frame [df]
    refers to. *)
Definition assign (df : loc) (c : string) (e : frame → result (list cell)) : M unit :=
  f ← load df; s ← lift (e f); setitem df c s.

Definition enhance_dataframe (df : loc) : M loc :=
  df ← copy df;
  assign df "bayesian_popularity"
    (λ f, calculate_bayesian_average f "popularity_score" "num_reviews" 10);;
  f ← load df;
  (if decide (is_Some (cols f !! "quality_score"))
   then assign df "bayesian_quality"
          (λ f, calculate_bayesian_average f "quality_score" "num_reviews" 10)
   else mret ());;
  assign df "confidence_level"
    (λ f, r ← getitem f "num_reviews"; traverse calculate_confidence_level r);;
  assign df "engagement_per_subscriber" (λ f, apply_rows f engagement);;
  assign df "is_suspicious" suspicious_flags;;
  mret df.

(** ** The similarity index *)

(** The index is computed with square roots: the term weights and the
    similarities of this section are real numbers.  [TfidfVectorizer] and
    [cosine_similarity] are scikit-learn's.  The vectorizer is a parameter
    [fit_transform] of the builder: from the documents to one row of term
    weights per document, or an exception (an empty vocabulary).
    [cosine_similarity] is modelled as scikit-learn defines it: the rows
    are scaled to unit Euclidean norm, a row of norm zero is left as it
    is, and the result holds the dot products of the scaled rows. *)
Definition dot (x y : list R) : R := foldr Rplus 0%R (zip_with Rmult x y).

Definition norm (x : list R) : R := sqrt (dot x x).

Definition normalize_row (x : list R) : list R :=
  if Req_dec_T (norm x) 0 then x else (λ a, (a / norm x)%R) <$> x.

Definition cosine_similarity (X Y : list (list R)) : list (list R) :=
  (λ x, (λ y, dot (normalize_row x) (normalize_row y)) <$> Y) <$> X.

(** [s.fillna('')] on a cell. *)
Definition fillna_str (c : cell) : cell :=
  match c with
  | CNone | CFloat NaN => CStr ""
  | _ => c
  end.

(** [c + d] on strings. *)
Definition str_add (c d : cell) : result cell :=
  match c, d with
  | CStr a, CStr b => Ok (CStr (a +:+ b))
  | _, _ => Raise TypeError
  end.

(** [df['course_title'].fillna('') + ' ' + df['subject'].fillna('')] *)
Definition content_column (df : frame) : result (list cell) :=
  title ← getitem df "course_title";
  subject ← getitem df "subject";
  traverse (λ ts : cell * cell,
              t ← str_add (fillna_str ts.1) (CStr " ");
              str_add t (fillna_str ts.2))
           (zip title subject).

Definition as_str (c : cell) : result string :=
  match c with
  | CStr s => Ok s
  | _ => Raise TypeError
  end.

(** [@st.cache_resource] keeps the value a function returned and
    returns it on the later calls with the same key.  The key is made of
    the function and of its arguments, those whose name starts with an
    underscore left out: [build_recommender] has the one parameter [_df],
    so its cache holds one entry at most.  The first call that returns
    fills it; every later call of the process returns that entry (the
    value itself, not a copy) whatever table it is given, and runs
    nothing.  A call that raises stores nothing.  The cache is an
    argument of the model, and its new state a part of the result. *)
Abbreviation cache := (option (list (list R) * loc)) (only parsing).

Definition build_recommender
    (fit_transform : list string → result (list (list R))) (_df : loc)
    (cached : cache) : M (list (list R) * loc * cache) :=
  match cached with
  | Some hit => mret (hit, cached)
  | None =>
      df ← copy _df;
      assign df "content" content_column;;
      f ← load df;
      content ← lift (getitem f "content");
      docs ← lift (traverse as_str content);
      tfidf_matrix ← lift (fit_transform docs);
      let cosine_sim := cosine_similarity tfidf_matrix tfidf_matrix in
      mret (cosine_sim, df, Some (cosine_sim, df))
  end.

(** The cache is empty, or holds what a call of [build_recommender]
    that found it empty returned: the states of the cache a process can
    reach. *)
Definition cached_by (fit_transform : list string → result (list (list R)))
    (cached : cache) : Prop :=
  match cached with
  | None => True
  | Some hit =>
      ∃ (_df : loc) (σ σ' : store),
        build_recommender fit_transform _df None σ = (Ok (hit, Some hit), σ')
  end.


(** ** The recommendation query *)

(** The similarity matrix is a numpy array of finite floats, one row per
    course. *)
Abbreviation matrix := (list (list Q)) (only parsing).

(** [list(enumerate(row))] *)
Fixpoint enumerate_from (k : nat) (row : list Q) : list (nat * Q) :=
  match row with
  | [] => []
  | x :: row' => (k, x) :: enumerate_from (S k) row'
  end.

Definition enumerate (row : list Q) : list (nat * Q) := enumerate_from 0 row.

(** [sorted(l, key=lambda x: x[1], reverse=True)].  Python's sort is
    stable, also under [reverse=True]: entries with equal keys keep their
    original order.  That determines the result, computed here by stable
    insertion. *)
Fixpoint insert_desc (x : nat * Q) (l : list (nat * Q)) : list (nat * Q) :=
  match l with
  | [] => [x]
  | y :: l' => if Qle_bool y.2 x.2 then x :: l else y :: insert_desc x l'
  end.

Definition sorted_desc (l : list (nat * Q)) : list (nat * Q) :=
  foldr insert_desc [] l.

(** [df[df['course_id'] == course_id].index[0]] *)
Definition index_of (course_id : cell) (df : frame) : result nat :=
  ids ← getitem df "course_id";
  match list_find (λ c, Is_true (cell_eqb c course_id)) ids with
  | Some (i, _) => Ok i
  | None => Raise IndexError
  end.

(** The filter of the loop:
    [course['num_reviews'] >= min_reviews and
     not course.get('is_suspicious', False)] *)
Definition passes (course : gmap string cell) (min_reviews : Z) : result bool :=
  reviews ← row_getitem course "num_reviews";
  b ← cell_ge reviews (CInt min_reviews);
  mret (b && negb (truthy (row_get course "is_suspicious" (CBool false)))).

(** The dictionary appended for an admitted course. *)
Definition recommendation (course : gmap string cell) (similarity : Q)
  : result (gmap string cell) :=
  course_id ← row_getitem course "course_id";
  course_title ← row_getitem course "course_title";
  subject ← row_getitem course "subject";
  price ← row_getitem course "price";
  num_subscribers ← row_getitem course "num_subscribers";
  num_reviews ← row_getitem course "num_reviews";
  mret (list_to_map
    [("course_id", course_id);
     ("course_title", course_title);
     ("subject", subject);
     ("price", price);
     ("num_subscribers", num_subscribers);
     ("num_reviews", num_reviews);
     ("bayesian_popularity",
       row_get course "bayesian_popularity"
         (row_get course "popularity_score" (CInt 0)));
     ("confidence_level", row_get course "confidence_level" (CStr "Unknown"));
     ("similarity_score", CFloat (Fin similarity))]).

(** The loop over the sorted candidates; the length test follows the
    append, as in the source. *)
Fixpoint collect (df : frame) (n min_reviews : Z) (sim_scores : list (nat * Q))
    (recommendations : list (gmap string cell)) : result (list (gmap string cell)) :=
  match sim_scores with
  | [] => Ok recommendations
  | (score_idx, similarity) :: rest =>
      course ← iloc df score_idx;
      ok ← passes course min_reviews;
      recommendations ←
        (if ok : bool
         then r ← recommendation course similarity; mret (recommendations ++ [r])%list
         else mret recommendations);
      if decide (n ≤ Z.of_nat (length recommendations))%Z
      then Ok recommendations
      else collect df n min_reviews rest recommendations
  end.

(** [pd.DataFrame(records)]: one row per dictionary, one column per key;
    [pd.DataFrame()] is [pd_DataFrame []]. *)
Definition column_of (records : list (gmap string cell)) (k : string) : list cell :=
  (λ r, default (CFloat NaN) (r !! k)) <$> records.

Definition pd_DataFrame (records : list (gmap string cell)) : frame :=
  Frame (length records)
        (set_to_map (λ k, (k, column_of records k))
                    (⋃ (dom <$> records) : gset string)).

(** The body of the [try] block. *)
Definition try_recommendations (course_id : cell) (df : frame) (cosine_sim : matrix)
    (n min_reviews : Z) : result frame :=
  idx ← index_of course_id df;
  row ← match cosine_sim !! idx with
        | Some row => Ok row
        | None => Raise IndexError
        end;
  let sim_scores := enumerate row in
  let sim_scores := sorted_desc sim_scores in
  let sim_scores := tail sim_scores in
  recommendations ← collect df n min_reviews sim_scores [];
  mret (pd_DataFrame recommendations).

(** The value returned, and the exceptions reported through [st.error]. *)
Definition get_recommendations (course_id : cell) (df : frame) (cosine_sim : matrix)
    (n min_reviews : Z) : frame * list exn :=
  match try_recommendations course_id df cosine_sim n min_reviews with
  | Ok recommendations => (recommendations, [])
  | Raise e => (pd_DataFrame [], [e])
  end.

(** ** The shrinkage formula of the specification *)

(** The formula as the specification words it, over exact numbers:
    [shrink rawScore evidenceCount priorMean minEvidence], with
    [priorMean] the arithmetic mean of the raw scores. *)
Definition Qsum (xs : list Q) : Q := foldr Qplus 0%Q xs.

Definition arithmetic_mean (xs : list Q) : Q :=
  (Qsum xs / inject_Z (Z.of_nat (length xs)))%Q.

Definition shrink (rawScore evidenceCount priorMean minEvidence : Q) : Q :=
  ((evidenceCount / (evidenceCount + minEvidence)) * rawScore
   + (minEvidence / (evidenceCount + minEvidence)) * priorMean)%Q.

(** The same formula in float arithmetic, as one row of
    [calculate_bayesian_average] evaluates it. *)
Definition shrink_fl (R v C m : fl) : fl :=
  fadd (fmul (fdiv v (fadd v m)) R) (fmul (fdiv m (fadd v m)) C).

(** The sum [v + m] is an [int64]: the code computes it without
    wrap-around. *)
Definition int64 (z : Z) : Prop := (- 2 ^ 63 ≤ z < 2 ^ 63)%Z.

(** [adj] holds, for every row of [df] with a finite score and an integer
    review count [v] with [v + m <> 0] and [v + m] an [int64], the score
    of [score_col] shrunk towards the mean of that column over all rows
    of [df]. *)
Definition bayesian_column (df : frame) (score_col : string) (m : Z)
    (adj : list cell) : Prop :=
  ∀ scores counts raws,
    cols df !! score_col = Some scores →
    cols df !! "num_reviews" = Some counts →
    Forall2 (λ c r, num_of c = Ok (Fin r)) scores raws →
    length adj = length counts `min` length scores ∧
    ∀ i r v, raws !! i = Some r → counts !! i = Some (CInt v) → (v + m ≠ 0)%Z →
      int64 (v + m) →
      ∃ q, adj !! i = Some (CFloat (Fin q)) ∧
           (q == shrink r (inject_Z v) (arithmetic_mean raws) (inject_Z m))%Q.

(** The order of the specification on floats against a rational bound:
    NaN is neither above nor below anything. *)
Definition fl_ge (x : fl) (q : Q) : Prop :=
  match x with
  | Fin a => (q <= a)%Q
  | PInf => True
  | NInf | NaN => False
  end.

Definition fl_lt (x : fl) (q : Q) : Prop :=
  match x with
  | Fin a => (a < q)%Q
  | NInf => True
  | PInf | NaN => False
  end.

(** The order of the result: by similarity, larger first, and among
    equal similarities by row, earlier first. *)
Definition before (a b : nat * Q) : Prop :=
  (b.2 < a.2)%Q ∨ ((a.2 == b.2)%Q ∧ a.1 < b.1).

(** The record [r] was built for the candidate [p] = (row, similarity):
    the row exists, passes the filter, and [r] is its dictionary. *)
Definition admitted (df : frame) (min_reviews : Z) (p : nat * Q)
    (r : gmap string cell) : Prop :=
  ∃ course, iloc df p.1 = Ok course ∧ passes course min_reviews = Ok true ∧
            recommendation course p.2 = Ok r.

(** A numeric cell is one arithmetic accepts. *)
Definition numeric (c : cell) : Prop := ∃ x, num_of c = Ok x.

(** The optional step of [enhance_dataframe]: the quality score is
    shrunk when the table has one. *)
Definition quality_step (f1 g1 : frame) : Prop :=
  (cols f1 !! "quality_score" = None ∧ g1 = f1) ∨
  (is_Some (cols f1 !! "quality_score") ∧
   ∃ bq, calculate_bayesian_average f1 "quality_score" "num_reviews" 10 = Ok bq ∧
         g1 = setcol "bayesian_quality" bq f1).

(** The names of the columns [enhance_dataframe] assigns. *)
Definition derived_columns : list string :=
  ["bayesian_popularity"; "bayesian_quality"; "confidence_level";
   "engagement_per_subscriber"; "is_suspicious"].

(** A table [enhance_dataframe] can enrich: its columns have one cell
    per row, the four columns the enrichment reads are there and numeric,
    and so is [quality_score] when the table has one. *)
Definition enrichable (f : frame) : Prop :=
  frame_wf f ∧
  Forall (λ c, ∃ s, cols f !! c = Some s ∧ Forall numeric s)
         ["popularity_score"; "num_reviews"; "num_subscribers"; "review_rate"] ∧
  (∀ s, cols f !! "quality_score" = Some s → Forall numeric s).

(** The course [course_id] is in the table. *)
Definition present (course_id : cell) (df : frame) : Prop :=
  ∃ ids i c, cols df !! "course_id" = Some ids ∧ ids !! i = Some c ∧
             cell_eqb c course_id = true.

(** The columns the query reads of every admitted row. *)
Definition required_columns : list string :=
  ["course_id"; "course_title"; "subject"; "price"; "num_subscribers";
   "num_reviews"].

(** A table and a matrix the query can run on: the table has the
    columns it reads, with numeric review counts, and the matrix has one
    row and one column per row of the table. *)
Definition query_ready (df : frame) (cosine_sim : matrix) : Prop :=
  frame_wf df ∧
  Forall (λ c, is_Some (cols df !! c)) required_columns ∧
  (∀ s, cols df !! "num_reviews" = Some s → Forall numeric s) ∧
  length cosine_sim = nrows df ∧
  Forall (λ row : list Q, length row = nrows df) cosine_sim.

(** The columns [enhance_dataframe] reads or assigns. *)
Definition enrichment_columns : list string :=
  ["popularity_score"; "quality_score"; "num_reviews"; "num_subscribers";
   "review_rate"] ++ derived_columns.

(** The candidate [p] is a row of the table that passes the filter of
    the loop. *)
Definition admissible (df : frame) (m : Z) (p : nat * Q) : bool :=
  match iloc df p.1 with
  | Ok course => match passes course m with Ok true => true | _ => false end
  | Raise _ => false
  end.

(** A cell that is text once [fillna('')] has replaced a missing value. *)
Definition textual (c : cell) : Prop := ∃ s, fillna_str c = CStr s.

(** ** The start of the application *)

(** The tables of the application, from the table [df_raw] read from the
    database:
    [df = enhance_dataframe(df_raw)],
    [cosine_sim, df_rec = build_recommender(df)],
    [df_rec = enhance_dataframe(df_rec)].
    An exception of one of the three calls stops the application.
    Streamlit runs these lines again on every interaction: [cached] is
    the cache of [build_recommender] the run finds, empty on the first
    run of a process. *)
Definition startup (fit_transform : list string → result (list (list R)))
    (df_raw : loc) (cached : cache) : M (loc * list (list R) * loc * cache) :=
  df ← enhance_dataframe df_raw;
  '(cosine_sim, df_rec, cached) ← build_recommender fit_transform df cached;
  df_rec ← enhance_dataframe df_rec;
  mret (df, cosine_sim, df_rec, cached).

(** ** The import script

    [run_data_import.py] computes the columns [enhance_dataframe] and
    the query read ([review_rate], [popularity_score], [quality_score])
    and the table the application loads.  The table is written without
    its index ([to_sql(..., index=False)]), so its rows are modelled by
    position. *)

(** [s.replace([np.inf, -np.inf], 0)] *)
Definition replace_inf (x : fl) : fl :=
  match x with
  | PInf | NInf => Fin 0
  | _ => x
  end.

(** [s.fillna(0)] *)
Definition fillna_zero (x : fl) : fl :=
  match x with
  | NaN => Fin 0
  | _ => x
  end.

(** [(df[a] / df[b]).replace([np.inf, -np.inf], 0).fillna(0)] *)
Definition ratio_column (df : frame) (a b : string) : result (list cell) :=
  x ← getitem df a;
  y ← getitem df b;
  q ← series_zip fdiv x y;
  r ← series_map replace_inf q;
  series_map fillna_zero r.

Definition review_rate (df : frame) : result (list cell) :=
  ratio_column df "num_reviews" "num_subscribers".

Definition avg_lecture_duration (df : frame) : result (list cell) :=
  ratio_column df "content_duration" "num_lectures".

Definition price_per_hour (df : frame) : result (list cell) :=
  ratio_column df "price" "content_duration".

(** [s.max()]: NaN entries are skipped; the maximum of no value is NaN. *)
Definition fmax (x y : fl) : fl := if fle x y then y else x.

Definition series_max (s : list cell) : result fl :=
  xs ← traverse num_of s;
  let ys := filter (λ x, is_nan x = false) xs in
  mret (match ys with
        | [] => NaN
        | y :: ys' => foldl fmax y ys'
        end).

(** [w * (df[c] / df[c].max())] *)
Definition weighted_share (df : frame) (w : Q) (c : string) : result (list cell) :=
  s ← getitem df c;
  m ← series_max s;
  q ← series_map (λ x, fdiv x m) s;
  series_map (fmul (Fin w)) q.

(** [0.4 * (subscribers / max) + 0.3 * (reviews / max)
     + 0.3 * (review_rate / max)] *)
Definition popularity_score (df : frame) : result (list cell) :=
  a ← weighted_share df (2 # 5) "num_subscribers";
  b ← weighted_share df (3 # 10) "num_reviews";
  ab ← series_zip fadd a b;
  c ← weighted_share df (3 # 10) "review_rate";
  series_zip fadd ab c.

(** [0.5 * (reviews / max) + 0.5 * (review_rate / max)] *)
Definition quality_score (df : frame) : result (list cell) :=
  a ← weighted_share df (1 # 2) "num_reviews";
  b ← weighted_share df (1 # 2) "review_rate";
  series_zip fadd a b.

(** A column of finite numbers, none negative and one at least
    positive: its maximum is a positive number. *)
Definition positive_column (s : list cell) : Prop :=
  Forall (λ c, ∃ q, num_of c = Ok (Fin q) ∧ (0 <= q)%Q) s ∧
  Exists (λ c, ∃ q, num_of c = Ok (Fin q) ∧ (0 < q)%Q) s.

(** A column of zeros. *)
Definition zero_column (s : list cell) : Prop :=
  Forall (λ c, ∃ q, num_of c = Ok (Fin q) ∧ (q == 0)%Q) s.

Definition categorize_length (duration : cell) : result cell :=
  b ← cell_lt duration (CInt 2);
  if b : bool then mret (CStr "Short") else
  b ← cell_lt duration (CInt 10);
  if b : bool then mret (CStr "Medium") else
  mret (CStr "Long").

Definition categorize_price (price : cell) : result cell :=
  if cell_eqb price (CInt 0) then mret (CStr "Free") else
  b ← cell_lt price (CInt 50);
  if b : bool then mret (CStr "Budget") else
  b ← cell_lt price (CInt 100);
  if b : bool then mret (CStr "Mid-Range") else
  mret (CStr "Premium").

(** The characters [re.sub(r'[^A-Za-z0-9_]+', '', col)] keeps: the
    class is ASCII, and the bytes of a character outside ASCII are all
    above 127. *)
Definition word_char (a : ascii) : bool :=
  let n := nat_of_ascii a in
  ((65 <=? n) && (n <=? 90)) || ((97 <=? n) && (n <=? 122)) ||
  ((48 <=? n) && (n <=? 57)) || (n =? 95).

(** [re.sub(r'[^A-Za-z0-9_]+', '', col)]: every run of other
    characters is removed. *)
Fixpoint clean_column_name (col : string) : string :=
  match col with
  | EmptyString => EmptyString
  | String a col' =>
      if word_char a then String a (clean_column_name col')
      else clean_column_name col'
  end.

(** Every character of the name is kept by the cleaning. *)
Fixpoint word (col : string) : bool :=
  match col with
  | EmptyString => true
  | String a col' => word_char a && word col'
  end.

(** [df.drop_duplicates(subset=[c], keep='first')], which pandas
    computes as [df[~df.duplicated(subset, keep='first')]].  The equality
    of keys is pandas' ([same_key]: numbers by value, missing values equal
    to each other). *)
Section duplicates.
Variable same_key : cell → cell → bool.

(** [s.duplicated(keep='first')]: a row is a duplicate when a row
    before it has its key; [seen] holds the keys of the rows before. *)
Fixpoint duplicated_after (seen keys : list cell) : list bool :=
  match keys with
  | [] => []
  | k :: keys' =>
      existsb (same_key k) seen :: duplicated_after (seen ++ [k]) keys'
  end.

Definition duplicated (keys : list cell) : list bool := duplicated_after [] keys.

(** [s[mask]]: the rows the boolean mask keeps, in their order. *)
Fixpoint select {A} (mask : list bool) (s : list A) : list A :=
  match mask, s with
  | b :: mask', x :: s' => if b then x :: select mask' s' else select mask' s'
  | _, _ => []
  end.

Definition drop_duplicates (subset : string) (df : frame) : result frame :=
  keys ← getitem df subset;
  let mask := negb <$> duplicated keys in
  mret (Frame (length (select mask (seq 0 (nrows df))))
              (select mask <$> cols df)).
End duplicates.

(** [pd.isna(c)] *)
Definition isna (c : cell) : bool :=
  match c with
  | CNone | CFloat NaN => true
  | _ => false
  end.

(** No cell of the row [i] is missing in the columns. *)
Definition notna_row (columns : list (list cell)) (i : nat) : bool :=
  forallb (λ s : list cell,
             match s !! i with
             | Some c => negb (isna c)
             | None => true
             end) columns.

(** [df.dropna(subset=subset)]: the rows with no missing cell in the
    columns of [subset]. *)
Definition dropna (subset : list string) (df : frame) : result frame :=
  columns ← traverse (getitem df) subset;
  let mask := notna_row columns <$> seq 0 (nrows df) in
  mret (Frame (length (select mask (seq 0 (nrows df))))
              (select mask <$> cols df)).

(** ** The page's query *)

(** [df[df[c] == x][d].values[0]]: the cell of column [d] in the
    first row whose cell of column [c] equals [x]. *)
Definition first_where (df : frame) (c : string) (x : cell) (d : string)
  : result cell :=
  keys ← getitem df c;
  vals ← getitem df d;
  match select ((λ k, cell_eqb k x) <$> keys) vals with
  | v :: _ => Ok v
  | [] => Raise IndexError
  end.

(** ** Sample tables *)

Definition course_table (ids reviews : list Z) : frame :=
  Frame (length ids)
    (list_to_map
      [("course_id", CInt <$> ids);
       ("course_title", (λ _, CStr "Python") <$> ids);
       ("subject", (λ _, CStr "Web Development") <$> ids);
       ("price", (λ _, CInt 20) <$> ids);
       ("num_subscribers", (λ _, CInt 1000) <$> ids);
       ("num_reviews", CInt <$> reviews)]).

Definition ones (k : nat) : matrix := replicate k (replicate k 1%Q).

(** Courses with one title and one subject (so with similarity 1 to
    each other), 10 reviews each. *)
Definition twin_courses : frame := course_table [1; 2]%Z [10; 10]%Z.
Definition three_courses : frame := course_table [1; 2; 3]%Z [10; 10; 10]%Z.
Definition four_courses : frame := course_table [1; 2; 3; 4]%Z [10; 10; 10; 10]%Z.


(** Two courses without a subject, titled "Python" and "the"; and a
    vectorizer that behaves on their texts as [TfidfVectorizer] with the
    English stop words does: the vocabulary is the one term "python",
    with weight 1 in the first text and none in the second, which holds a
    stop word only. *)
Definition python_and_the : frame :=
  Frame 2 (list_to_map
    [("course_id", [CInt 1; CInt 2]);
     ("course_title", [CStr "Python"; CStr "the"]);
     ("subject", [CNone; CNone])]).

Definition one_term_vectorizer (docs : list string) : result (list (list R)) :=
  Ok ((λ d, if String.eqb d "the " then [0%R] else [1%R]) <$> docs).

(** One course with 10 reviews from 10 subscribers, stored with the
    review rate [rate]. *)
Definition small_course (rate : Q) : frame :=
  Frame 1 (list_to_map
    [("course_id", [CInt 7]);
     ("num_subscribers", [CInt 10]);
     ("num_reviews", [CInt 10]);
     ("review_rate", [CFloat (Fin rate)]);
     ("popularity_score", [CFloat (Fin (1 # 2))])]).


(** Two tables with different review counts and the same stored rate. *)
Definition few_reviews : frame :=
  setcol "num_reviews" [CInt 0] (small_course 1).

Definition empty_table : frame :=
  Frame 0 (list_to_map [("popularity_score", []); ("num_reviews", [])]).

(** One course with the largest [int64] as its review count. *)
Definition largest_count : frame :=
  Frame 1 (list_to_map
    [("popularity_score", [CFloat (Fin (1 # 2))]);
     ("num_reviews", [CInt (2 ^ 63 - 1)])]).


(** The three courses of the specification's example: A and B in one
    subject, C in another, with the mean popularity 1/2. *)
Definition courses_ABC : frame :=
  Frame 3 (list_to_map
    [("course_id", [CInt 1; CInt 2; CInt 3]);
     ("course_title", [CStr "Python basics"; CStr "Python basics"; CStr "Guitar"]);
     ("subject", [CStr "X"; CStr "X"; CStr "Y"]);
     ("price", [CInt 20; CInt 0; CInt 50]);
     ("num_subscribers", [CInt 1000; CInt 5; CInt 500]);
     ("num_reviews", [CInt 100; CInt 2; CInt 50]);
     ("review_rate",
       [CFloat (Fin (1 # 10)); CFloat (Fin (2 # 5)); CFloat (Fin (1 # 10))]);
     ("popularity_score",
       [CFloat (Fin (9 # 10)); CFloat (Fin (1 # 10)); CFloat (Fin (1 # 2))]);
     ("quality_score",
       [CFloat (Fin (3 # 4)); CFloat (Fin (1 # 4)); CFloat (Fin (1 # 2))])]).

(** Three courses, the first two with one raw popularity and different
    review counts. *)
Definition equal_scores : frame :=
  Frame 3 (list_to_map
    [("popularity_score",
       [CFloat (Fin (1 # 5)); CFloat (Fin (1 # 5)); CFloat (Fin (4 # 5))]);
     ("num_reviews", [CInt 2; CInt 50; CInt 10])]).

(** Three courses as the import script reads them: the second without
    a subscriber, the third reviewed by all of its subscribers. *)
Definition raw_counts : frame :=
  Frame 3 (list_to_map
    [("course_id", [CInt 1; CInt 2; CInt 3]);
     ("num_subscribers", [CInt 1000; CInt 0; CInt 20]);
     ("num_reviews", [CInt 100; CInt 0; CInt 20])]).

(** The same courses with the review rate of the import script. *)
Definition rated_counts : frame :=
  setcol "review_rate"
    [CFloat (Fin (100 # 1000)); CFloat (Fin 0); CFloat (Fin (20 # 20))]
    raw_counts.

(** Three courses without a review. *)
Definition unreviewed : frame :=
  Frame 3 (list_to_map
    [("num_subscribers", [CInt 10; CInt 0; CInt 20]);
     ("num_reviews", [CInt 0; CInt 0; CInt 0]);
     ("review_rate", [CFloat (Fin 0); CFloat (Fin 0); CFloat (Fin 0)])]).

(** Five rows, two of them with the identity of a row before. *)
Definition repeated_ids : frame :=
  Frame 5 (list_to_map
    [("course_id", [CInt 1; CInt 2; CInt 1; CInt 3; CInt 2]);
     ("course_title", [CStr "a"; CStr "b"; CStr "c"; CStr "d"; CStr "e"])]).

(** Four rows, one without a title and one without a subject. *)
Definition missing_texts : frame :=
  Frame 4 (list_to_map
    [("course_id", [CInt 1; CInt 2; CInt 3; CInt 4]);
     ("course_title", [CStr "a"; CFloat NaN; CStr "c"; CStr "d"]);
     ("subject", [CStr "X"; CStr "Y"; CFloat NaN; CStr "Z"])]).

Arguments series_map : simpl never.
Arguments series_zip : simpl never.
Arguments series_cmp : simpl never.
Arguments cosine_similarity : simpl never.
Arguments normalize_row : simpl never.

(** * Properties *)

(** ** The result monad *)

Lemma bind_Ok {A B} (r : result A) (f : A → result B) (b : B) :
  r ≫= f = Ok b ↔ ∃ a, r = Ok a ∧ f a = Ok b.
Proof.
  destruct r as [a|e]; simpl; split.
  - eauto.
  - intros (a' & [= <-] & H). exact H.
  - discriminate.
  - intros (a' & [=] & _).
Qed.

Ltac inv_bind H :=
  repeat match type of H with
    | _ ≫= _ = Ok _ =>
        let a := fresh "a" in
        let Ha := fresh "Ha" in
        apply bind_Ok in H; destruct H as (a & Ha & H)
    | mret _ = Ok _ => injection H as H
    | Ok _ = Ok _ => injection H as H
    end.

Lemma traverse_Ok {A B} (f : A → result B) (l : list A) (l' : list B) :
  traverse f l = Ok l' ↔ Forall2 (λ a b, f a = Ok b) l l'.
Proof.
  revert l'. induction l as [|a l IH]; intros l'; simpl.
  - split.
    + intros [= <-]. constructor.
    + intros H. inversion H. reflexivity.
  - split.
    + intros H. inv_bind H. subst l'.
      constructor; [assumption | by apply IH].
    + intros H. inversion H as [|? b ? bs Hab Hl]; subst.
      rewrite Hab. simpl. apply IH in Hl. rewrite Hl. reflexivity.
Qed.

Lemma traverse_length {A B} (f : A → result B) l l' :
  traverse f l = Ok l' → length l' = length l.
Proof. intros H%traverse_Ok. symmetry. by eapply Forall2_length. Qed.

Lemma traverse_lookup {A B} (f : A → result B) l l' i a :
  traverse f l = Ok l' → l !! i = Some a → ∃ b, l' !! i = Some b ∧ f a = Ok b.
Proof. intros H%traverse_Ok Hi. by eapply Forall2_lookup_l in H. Qed.

Lemma traverse_lookup_r {A B} (f : A → result B) l l' i b :
  traverse f l = Ok l' → l' !! i = Some b → ∃ a, l !! i = Some a ∧ f a = Ok b.
Proof. intros H%traverse_Ok Hi. by eapply Forall2_lookup_r in H. Qed.

Lemma traverse_total {A B} (f : A → result B) (g : A → B) l :
  Forall (λ a, f a = Ok (g a)) l → traverse f l = Ok (g <$> l).
Proof.
  intros H. apply traverse_Ok. induction H; constructor; auto.
Qed.

Lemma traverse_ext {A B} (f g : A → result B) l :
  Forall (λ a, f a = g a) l → traverse f l = traverse g l.
Proof.
  induction 1 as [|a l Ha _ IH]; simpl; [reflexivity|].
  rewrite Ha, IH. reflexivity.
Qed.

(** ** Comparisons of integers and rationals *)

Lemma Qle_bool_inject_Z (a b : Z) :
  Qle_bool (inject_Z a) (inject_Z b) = (a <=? b)%Z.
Proof. unfold Qle_bool. simpl. by rewrite !Z.mul_1_r. Qed.

Lemma cell_ge_int (a b : Z) : cell_ge (CInt a) (CInt b) = Ok (b <=? a)%Z.
Proof.
  unfold cell_ge, cell_cmp. simpl. unfold fl_of_Z.
  by rewrite Qle_bool_inject_Z.
Qed.

(** ** Confidence level *)

Lemma calculate_confidence_level_int (n : Z) :
  calculate_confidence_level (CInt n) =
  Ok (CStr (if (100 <=? n)%Z then "High"
            else if (20 <=? n)%Z then "Medium"
            else if (5 <=? n)%Z then "Low"
            else "Very Low")).
Proof.
  unfold calculate_confidence_level. rewrite !cell_ge_int. simpl.
  destruct (100 <=? n)%Z; [reflexivity|].
  destruct (20 <=? n)%Z; [reflexivity|].
  destruct (5 <=? n)%Z; reflexivity.
Qed.

(** C7. The confidence level of a review count follows the table: at
    least 100 is High, 20 to 99 Medium, 5 to 19 Low, 0 to 4 Very Low; the
    counts 4, 5, 19, 20, 99 and 100 fall on the stated sides; every
    integer count has a level, one of the four. *)
Theorem confidence_level_table (n : Z) :
  ((100 ≤ n)%Z → calculate_confidence_level (CInt n) = Ok (CStr "High")) ∧
  ((20 ≤ n ≤ 99)%Z → calculate_confidence_level (CInt n) = Ok (CStr "Medium")) ∧
  ((5 ≤ n ≤ 19)%Z → calculate_confidence_level (CInt n) = Ok (CStr "Low")) ∧
  ((0 ≤ n ≤ 4)%Z → calculate_confidence_level (CInt n) = Ok (CStr "Very Low")) ∧
  (∃ level, calculate_confidence_level (CInt n) = Ok (CStr level) ∧
            level ∈ ["High"; "Medium"; "Low"; "Very Low"]) ∧
  traverse calculate_confidence_level (CInt <$> [4; 5; 19; 20; 99; 100]%Z) =
    Ok (CStr <$> ["Very Low"; "Low"; "Low"; "Medium"; "Medium"; "High"]).
Proof.
  rewrite calculate_confidence_level_int.
  repeat split.
  - intros H. apply Z.leb_le in H. by rewrite H.
  - intros [H1 H2]. apply Z.leb_le in H1. rewrite H1.
    destruct (100 <=? n)%Z eqn:E; [apply Z.leb_le in E; lia | reflexivity].
  - intros [H1 H2]. apply Z.leb_le in H1. rewrite H1.
    destruct (100 <=? n)%Z eqn:E1; [apply Z.leb_le in E1; lia |].
    destruct (20 <=? n)%Z eqn:E2; [apply Z.leb_le in E2; lia | reflexivity].
  - intros [H1 H2].
    destruct (100 <=? n)%Z eqn:E1; [apply Z.leb_le in E1; lia |].
    destruct (20 <=? n)%Z eqn:E2; [apply Z.leb_le in E2; lia |].
    destruct (5 <=? n)%Z eqn:E3; [apply Z.leb_le in E3; lia | reflexivity].
  - eexists. split; [reflexivity|].
    destruct (100 <=? n)%Z; [set_solver|].
    destruct (20 <=? n)%Z; [set_solver|].
    destruct (5 <=? n)%Z; set_solver.
Qed.

(** ** Series arithmetic *)

Lemma series_map_lookup f s u i c x :
  series_map f s = Ok u → s !! i = Some c → num_of c = Ok x →
  u !! i = Some (CFloat (f x)).
Proof.
  intros Hu Hi Hx. destruct (traverse_lookup _ _ _ _ _ Hu Hi) as (b & Hb & Hf).
  rewrite Hx in Hf. simpl in Hf. by injection Hf as <-.
Qed.

Lemma series_zip_lookup f s t u i c d x y :
  series_zip f s t = Ok u → s !! i = Some c → t !! i = Some d →
  num_of c = Ok x → num_of d = Ok y →
  u !! i = Some (CFloat (f x y)).
Proof.
  intros Hu Hc Hd Hx Hy.
  assert (Hz : zip s t !! i = Some (c, d)).
  { rewrite lookup_zip_with, Hc. simpl. by rewrite Hd. }
  destruct (traverse_lookup _ _ _ _ _ Hu Hz) as (b & Hb & Hf).
  simpl in Hf. rewrite Hx in Hf. simpl in Hf. rewrite Hy in Hf. simpl in Hf.
  by injection Hf as <-.
Qed.

Lemma series_map_length f s u : series_map f s = Ok u → length u = length s.
Proof. apply traverse_length. Qed.

Lemma series_zip_length f s t u :
  series_zip f s t = Ok u → length u = length s `min` length t.
Proof.
  intros H%traverse_length. rewrite H. apply length_zip_with.
Qed.

Lemma numeric_CFloat x : numeric (CFloat x).
Proof. by exists x. Qed.

Lemma series_map_total f s :
  Forall numeric s → ∃ u, series_map f s = Ok u ∧ Forall numeric u.
Proof.
  induction 1 as [|c s [x Hx] _ (u & Hu & Hn)].
  - exists []. split; [reflexivity | constructor].
  - exists (CFloat (f x) :: u). split.
    + unfold series_map in *. simpl. rewrite Hx. simpl. by rewrite Hu.
    + constructor; [apply numeric_CFloat | assumption].
Qed.

Lemma series_zip_total f s t :
  Forall numeric s → Forall numeric t →
  ∃ u, series_zip f s t = Ok u ∧ Forall numeric u.
Proof.
  intros Hs. revert t. induction Hs as [|c s [x Hx] _ IH]; intros t Ht.
  - exists []. split; [reflexivity | constructor].
  - destruct Ht as [|d t [y Hy] Ht].
    + exists []. split; [reflexivity | constructor].
    + destruct (IH t Ht) as (u & Hu & Hn).
      exists (CFloat (f x y) :: u). split.
      * unfold series_zip in *. simpl. rewrite Hx. simpl. rewrite Hy. simpl.
        by rewrite Hu.
      * constructor; [apply numeric_CFloat | assumption].
Qed.

(** ** The mean *)

Lemma foldl_Qplus (a : Q) (xs : list Q) :
  (foldl Qplus a xs == a + Qsum xs)%Q.
Proof.
  revert a. induction xs as [|x xs IH]; intros a; simpl.
  - ring.
  - rewrite IH. ring.
Qed.

Lemma fsum_Fin (xs : list Q) : ∃ t, fsum (Fin <$> xs) = Fin t ∧ (t == Qsum xs)%Q.
Proof.
  unfold fsum. exists (foldl Qplus 0%Q xs). split.
  - generalize 0%Q. induction xs as [|x xs IH]; intros a; simpl; [reflexivity|].
    apply IH.
  - rewrite foldl_Qplus. ring.
Qed.

Lemma filter_Fin (xs : list Q) :
  filter (λ x, is_nan x = false) (Fin <$> xs) = Fin <$> xs.
Proof.
  induction xs as [|x xs IH]; [reflexivity|].
  rewrite fmap_cons, filter_cons_True by reflexivity. by rewrite IH.
Qed.

Lemma Qeq_bool_inject_Z_pos (n : nat) :
  (0 < n)%nat → Qeq_bool (inject_Z (Z.of_nat n)) 0 = false.
Proof.
  intros Hn. destruct (Qeq_bool _ _) eqn:E; [|reflexivity].
  apply Qeq_bool_eq in E. unfold Qeq in E. simpl in E. lia.
Qed.

(** The mean of a column of finite numbers is their arithmetic mean. *)
Lemma series_mean_finite (scores : list cell) (raws : list Q) :
  Forall2 (λ c r, num_of c = Ok (Fin r)) scores raws → raws ≠ [] →
  ∃ c, series_mean scores = Ok (Fin c) ∧ (c == arithmetic_mean raws)%Q.
Proof.
  intros H Hne.
  assert (Ht : traverse num_of scores = Ok (Fin <$> raws)).
  { apply traverse_Ok. by apply Forall2_fmap_r. }
  unfold series_mean. rewrite Ht. simpl. rewrite filter_Fin.
  destruct raws as [|r raws]; [done|].
  destruct (fsum_Fin (r :: raws)) as (t & Ht' & Heq).
  change (Fin r :: (Fin <$> raws)) with (Fin <$> r :: raws).
  rewrite Ht', length_fmap. unfold fdiv, fl_of_Z.
  rewrite Qeq_bool_inject_Z_pos by (simpl; lia).
  eexists. split; [reflexivity|].
  unfold arithmetic_mean. by rewrite Heq.
Qed.

(** The mean of an empty column is NaN, not an exception. *)
Lemma series_mean_empty : series_mean [] = Ok NaN.
Proof. reflexivity. Qed.

(** ** The Bayesian average *)

Lemma getitem_Ok df c s : getitem df c = Ok s ↔ cols df !! c = Some s.
Proof.
  unfold getitem. destruct (cols df !! c); split; intros H;
    try discriminate; by injection H as ->.
Qed.

Lemma shrink_fl_finite (r v c m : Q) :
  Qeq_bool (v + m) 0 = false →
  shrink_fl (Fin r) (Fin v) (Fin c) (Fin m)
  = Fin (v / (v + m) * r + m / (v + m) * c)%Q.
Proof. intros H. unfold shrink_fl. simpl. rewrite H. reflexivity. Qed.

Lemma Qeq_bool_plus_inject_Z (v m : Z) :
  (v + m ≠ 0)%Z → Qeq_bool (inject_Z v + inject_Z m) 0 = false.
Proof.
  intros H. destruct (Qeq_bool _ _) eqn:E; [|reflexivity].
  apply Qeq_bool_eq in E. unfold Qeq in E. simpl in E. lia.
Qed.

Lemma wrap64_int64 (z : Z) : int64 z → wrap64 z = z.
Proof.
  unfold int64, wrap64. intros H.
  rewrite Z.mod_small by lia. lia.
Qed.

Lemma fl_of_Z_plus (a b : Z) : fl_of_Z (a + b) = fadd (fl_of_Z a) (fl_of_Z b).
Proof.
  unfold fl_of_Z, fadd, inject_Z, Qplus. simpl. f_equal. f_equal. lia.
Qed.

Lemma series_add_int_length s m vm :
  series_add_int s m = Ok vm → length vm = length s.
Proof.
  unfold series_add_int. destruct (forallb is_int s).
  - intros [= <-]. by rewrite length_fmap.
  - apply series_map_length.
Qed.

(** The sum of a row: the float sum, when the integer sum does not
    wrap around. *)
Lemma series_add_int_lookup s m vm i c x :
  series_add_int s m = Ok vm → s !! i = Some c → num_of c = Ok x →
  (∀ z, c = CInt z → int64 (z + m)) →
  ∃ d, vm !! i = Some d ∧ num_of d = Ok (fadd x (fl_of_Z m)).
Proof.
  unfold series_add_int. intros H Hc Hx Hz.
  destruct (forallb is_int s) eqn:E.
  - injection H as <-. rewrite list_lookup_fmap, Hc. simpl.
    rewrite forallb_forall in E.
    assert (Hint : is_int c = true).
    { apply E, list_elem_of_In. by eapply list_elem_of_lookup_2. }
    destruct c as [z| | | |]; try discriminate.
    eexists. split; [reflexivity|]. simpl in *. injection Hx as <-.
    rewrite wrap64_int64 by by apply Hz. by rewrite fl_of_Z_plus.
  - exists (CFloat (fadd x (fl_of_Z m))). split; [|done].
    exact (series_map_lookup _ _ _ _ _ _ H Hc Hx).
Qed.

Lemma series_add_int_total s m :
  Forall numeric s → ∃ vm, series_add_int s m = Ok vm ∧ Forall numeric vm.
Proof.
  intros H. unfold series_add_int. destruct (forallb is_int s).
  - eexists. split; [reflexivity|]. apply Forall_fmap.
    eapply Forall_impl; [exact H|]. intros [z| | | |] Hc; simpl; try done.
    by eexists.
  - by apply series_map_total.
Qed.

(** Row by row, the result is the formula evaluated in float
    arithmetic with the column mean, for a row whose integer sum does
    not wrap around. *)
Lemma calculate_bayesian_average_rows df sc cc m adj :
  calculate_bayesian_average df sc cc m = Ok adj →
  ∃ scores counts C,
    cols df !! sc = Some scores ∧ cols df !! cc = Some counts ∧
    series_mean scores = Ok C ∧
    length adj = length counts `min` length scores ∧
    ∀ i cr cv R v,
      scores !! i = Some cr → counts !! i = Some cv →
      num_of cr = Ok R → num_of cv = Ok v →
      (∀ z, cv = CInt z → int64 (z + m)) →
      adj !! i = Some (CFloat (shrink_fl R v C (fl_of_Z m))).
Proof.
  unfold calculate_bayesian_average. intros H.
  apply bind_Ok in H as (C & HC & H).
  apply bind_Ok in HC as (scores & Hs%getitem_Ok & HC).
  apply bind_Ok in H as (counts & Hc%getitem_Ok & H).
  apply bind_Ok in H as (scores' & Hs'%getitem_Ok & H).
  assert (scores' = scores) as -> by congruence.
  apply bind_Ok in H as (vm & Hvm & H).
  apply bind_Ok in H as (w & Hw & H).
  apply bind_Ok in H as (wR & HwR & H).
  apply bind_Ok in H as (mw & Hmw & H).
  apply bind_Ok in H as (mC & HmC & H).
  exists scores, counts, C. repeat split; try assumption.
  - rewrite (series_zip_length _ _ _ _ H), (series_zip_length _ _ _ _ HwR),
      (series_zip_length _ _ _ _ Hw), (series_map_length _ _ _ HmC),
      (series_map_length _ _ _ Hmw), (series_add_int_length _ _ _ Hvm).
    lia.
  - intros i cr cv R v Hcr Hcv HR Hv Hint.
    destruct (series_add_int_lookup _ _ _ _ _ _ Hvm Hcv Hv Hint) as (d & E1 & Hd).
    pose proof (series_zip_lookup _ _ _ _ _ _ _ _ _ Hw Hcv E1 Hv Hd) as E2.
    pose proof (series_zip_lookup _ _ _ _ _ _ _ _ _ HwR E2 Hcr eq_refl HR) as E3.
    pose proof (series_map_lookup _ _ _ _ _ _ Hmw E1 Hd) as E4.
    pose proof (series_map_lookup _ _ _ _ _ _ HmC E4 eq_refl) as E5.
    exact (series_zip_lookup _ _ _ _ _ _ _ _ _ H E3 E5 eq_refl eq_refl).
Qed.

(** On finite scores the result is the formula of the specification
    with the arithmetic mean of the column. *)
Lemma calculate_bayesian_average_shrink df sc m adj :
  calculate_bayesian_average df sc "num_reviews" m = Ok adj →
  bayesian_column df sc m adj.
Proof.
  intros H scores counts raws Hs Hc Hfin.
  destruct (calculate_bayesian_average_rows _ _ _ _ _ H)
    as (scores' & counts' & C & Hs' & Hc' & HC & Hlen & Hrow).
  assert (scores' = scores) as -> by congruence.
  assert (counts' = counts) as -> by congruence.
  split; [exact Hlen|].
  intros i r v Hr Hv Hne Hint.
  destruct (Forall2_lookup_r _ _ _ _ _ Hfin Hr) as (cr & Hcr & Hnum).
  assert (raws ≠ []) as Hraws by (intros ->; discriminate).
  destruct (series_mean_finite _ _ Hfin Hraws) as (c & Hmean & Hc_eq).
  assert (C = Fin c) as -> by congruence.
  specialize (Hrow i cr (CInt v) (Fin r) (fl_of_Z v) Hcr Hv Hnum eq_refl).
  specialize (Hrow ltac:(by intros z [= <-])).
  unfold fl_of_Z in Hrow.
  rewrite shrink_fl_finite in Hrow by by apply Qeq_bool_plus_inject_Z.
  eexists. split; [exact Hrow|].
  unfold shrink. by rewrite Hc_eq.
Qed.

Lemma traverse_num_of_total s : Forall numeric s → ∃ xs, traverse num_of s = Ok xs.
Proof.
  induction 1 as [|c s [x Hx] _ [xs Hxs]]; [by exists []|].
  exists (x :: xs). simpl. rewrite Hx. simpl. by rewrite Hxs.
Qed.

(** The function returns on every table whose two columns are numeric. *)
Lemma calculate_bayesian_average_total df sc cc m scores counts :
  cols df !! sc = Some scores → cols df !! cc = Some counts →
  Forall numeric scores → Forall numeric counts →
  ∃ adj, calculate_bayesian_average df sc cc m = Ok adj.
Proof.
  intros Hs%getitem_Ok Hc%getitem_Ok Hns Hnc.
  unfold calculate_bayesian_average. rewrite Hs, Hc. simpl.
  unfold series_mean. destruct (traverse_num_of_total _ Hns) as [xs ->].
  simpl. destruct (series_add_int_total counts m Hnc) as (? & -> & ?).
  repeat (simpl;
    match goal with
    | H : Forall numeric ?s |- context [series_map ?f ?s] =>
        destruct (series_map_total f s H) as (? & -> & ?)
    | H1 : Forall numeric ?s, H2 : Forall numeric ?t
      |- context [series_zip ?f ?s ?t] =>
        destruct (series_zip_total f s t H1 H2) as (? & -> & ?)
    end).
  simpl. eauto.
Qed.

(** C5, as the code has it. On an empty table the Bayesian scorer
    returns normally, with an empty column of adjusted scores; no
    exception is raised, and the column holds no NaN since it holds no
    score. *)
Theorem bayesian_average_of_empty_table df sc cc m :
  cols df !! sc = Some [] → cols df !! cc = Some [] →
  calculate_bayesian_average df sc cc m = Ok [] ∧
  ∀ adj, calculate_bayesian_average df sc cc m = Ok adj → CFloat NaN ∉ adj.
Proof.
  intros Hs%getitem_Ok Hc%getitem_Ok.
  assert (E : calculate_bayesian_average df sc cc m = Ok []).
  { unfold calculate_bayesian_average. rewrite Hs, Hc. reflexivity. }
  split; [exact E|].
  intros adj H. rewrite E in H. injection H as <-. apply not_elem_of_nil.
Qed.

Lemma bayesian_average_of_empty_table_witness :
  calculate_bayesian_average empty_table "popularity_score" "num_reviews" 10 = Ok [] ∧
  ∀ adj, calculate_bayesian_average empty_table "popularity_score" "num_reviews" 10
         = Ok adj → CFloat NaN ∉ adj.
Proof.
  apply (bayesian_average_of_empty_table empty_table "popularity_score"
           "num_reviews" 10); reflexivity.
Defined.

(** C5, refuted as stated. The table [empty_table] has no row, and the
    scorer does not fail on it: it returns the empty column. *)
Lemma bayesian_average_empty_does_not_fail :
  nrows empty_table = 0 ∧ frame_wf empty_table ∧
  calculate_bayesian_average empty_table "popularity_score" "num_reviews" 10 = Ok [] ∧
  ¬ ∃ e, calculate_bayesian_average empty_table "popularity_score" "num_reviews" 10
         = Raise e.
Proof.
  split; [reflexivity|]. split; [compute_done|]. split; [reflexivity|].
  intros [e He]. discriminate He.
Qed.

(** ** The store *)

Lemma bindM_run {A B} (c : M A) (k : A → M B) (σ : store) :
  (c ≫= k) σ = match c σ with
               | (Ok a, σ') => k a σ'
               | (Raise e, σ') => (Raise e, σ')
               end.
Proof. reflexivity. Qed.

Lemma insert_last (σ : store) (g g' : frame) :
  <[length σ := g']> (σ ++ [g]) = σ ++ [g'].
Proof. rewrite insert_app_r_alt by lia. by rewrite Nat.sub_diag. Qed.

Lemma load_last (σ : store) (g : frame) :
  load (length σ) (σ ++ [g]) = (Ok g, σ ++ [g]).
Proof. unfold load. by rewrite list_lookup_middle. Qed.

Lemma setitem_last (σ : store) (g : frame) c s :
  setitem (length σ) c s (σ ++ [g]) = (Ok (), σ ++ [setcol c s g]).
Proof. unfold setitem. rewrite list_lookup_middle by done. by rewrite insert_last. Qed.

(** An assignment to a column of the last frame of the store touches
    that frame only. *)
Lemma assign_last (σ : store) (g : frame) c e :
  assign (length σ) c e (σ ++ [g]) =
  match e g with
  | Ok s => (Ok (), σ ++ [setcol c s g])
  | Raise x => (Raise x, σ ++ [g])
  end.
Proof.
  unfold assign. rewrite bindM_run, load_last, bindM_run. unfold lift.
  destruct (e g); [apply setitem_last | reflexivity].
Qed.

(** What a successful run of [enhance_dataframe] did: it allocated one
    frame, the copy, and assigned the five derived columns to it in
    turn. *)
Lemma enhance_dataframe_inv (df df' : loc) (σ σ' : store) :
  enhance_dataframe df σ = (Ok df', σ') →
  ∃ f bp g1 cl eps sus,
    σ !! df = Some f ∧ df' = length σ ∧
    calculate_bayesian_average f "popularity_score" "num_reviews" 10 = Ok bp ∧
    quality_step (setcol "bayesian_popularity" bp f) g1 ∧
    (r ← getitem g1 "num_reviews"; traverse calculate_confidence_level r) = Ok cl ∧
    apply_rows (setcol "confidence_level" cl g1) engagement = Ok eps ∧
    suspicious_flags
      (setcol "engagement_per_subscriber" eps (setcol "confidence_level" cl g1))
      = Ok sus ∧
    σ' = σ ++ [setcol "is_suspicious" sus
                (setcol "engagement_per_subscriber" eps
                  (setcol "confidence_level" cl g1))].
Proof.
  unfold enhance_dataframe. rewrite bindM_run. unfold copy at 1.
  destruct (σ !! df) as [f|] eqn:Hf; [|discriminate].
  rewrite bindM_run, assign_last.
  destruct (calculate_bayesian_average f _ _ _) as [bp|] eqn:Hbp; [|discriminate].
  rewrite bindM_run, load_last, bindM_run.
  set (f1 := setcol "bayesian_popularity" bp f).
  assert (Hstep : ∀ k : unit → M loc,
      match (if decide (is_Some (cols f1 !! "quality_score"))
             then assign (length σ) "bayesian_quality"
                    (λ f, calculate_bayesian_average f "quality_score" "num_reviews" 10)
             else mret ()) (σ ++ [f1]) with
      | (Ok a, σ0) => k a σ0
      | (Raise e, σ0) => (Raise e, σ0)
      end = (Ok df', σ') →
      ∃ g1, quality_step f1 g1 ∧ k () (σ ++ [g1]) = (Ok df', σ')).
  { intros k. destruct (decide (is_Some (cols f1 !! "quality_score"))) as [Hs|Hn].
    - rewrite assign_last.
      destruct (calculate_bayesian_average f1 _ _ _) as [bq|] eqn:Hbq;
        [|discriminate].
      intros H. exists (setcol "bayesian_quality" bq f1).
      split; [right; eauto | exact H].
    - intros H. exists f1. split; [|exact H].
      left. split; [by apply eq_None_not_Some | done]. }
  intros H. apply Hstep in H as (g1 & Hq & H). clear Hstep.
  rewrite bindM_run, assign_last in H.
  destruct (getitem g1 "num_reviews" ≫= _) as [cl|] eqn:Hcl; [|discriminate].
  rewrite bindM_run, assign_last in H.
  destruct (apply_rows _ _) as [eps|] eqn:Heps; [|discriminate].
  rewrite bindM_run, assign_last in H.
  destruct (suspicious_flags _) as [sus|] eqn:Hsus; [|discriminate].
  injection H as <- <-.
  exists f, bp, g1, cl, eps, sus. done.
Qed.

(** ** Columns of an updated frame *)

Lemma cols_setcol c s f k :
  cols (setcol c s f) !! k = if decide (c = k) then Some s else cols f !! k.
Proof. unfold setcol. simpl. apply lookup_insert. Qed.

Lemma cols_setcol_ne c s f k : c ≠ k → cols (setcol c s f) !! k = cols f !! k.
Proof. intros. rewrite cols_setcol. by rewrite decide_False. Qed.

Lemma cols_setcol_eq c s f : cols (setcol c s f) !! c = Some s.
Proof. rewrite cols_setcol. by rewrite decide_True. Qed.

Lemma calculate_bayesian_average_setcol c s f sc cc m :
  c ≠ sc → c ≠ cc →
  calculate_bayesian_average (setcol c s f) sc cc m
  = calculate_bayesian_average f sc cc m.
Proof.
  intros. unfold calculate_bayesian_average, getitem.
  by rewrite !cols_setcol_ne.
Qed.

Lemma suspicious_flags_setcol c s f :
  c ≠ "review_rate" → c ≠ "num_subscribers" →
  suspicious_flags (setcol c s f) = suspicious_flags f.
Proof.
  intros. unfold suspicious_flags, getitem. by rewrite !cols_setcol_ne.
Qed.

Lemma not_derived c :
  c ∉ derived_columns →
  "bayesian_popularity" ≠ c ∧ "bayesian_quality" ≠ c ∧ "confidence_level" ≠ c ∧
  "engagement_per_subscriber" ≠ c ∧ "is_suspicious" ≠ c.
Proof.
  unfold derived_columns. rewrite !not_elem_of_cons.
  intros (? & ? & ? & ? & ? & _). by repeat split.
Qed.

Lemma quality_step_cols f1 g1 c :
  quality_step f1 g1 → "bayesian_quality" ≠ c → cols g1 !! c = cols f1 !! c.
Proof.
  intros [[_ ->]|[_ (bq & _ & ->)]] Hc; [done|]. by rewrite cols_setcol_ne.
Qed.

Lemma quality_step_nrows f1 g1 : quality_step f1 g1 → nrows g1 = nrows f1.
Proof. by intros [[_ ->]|[_ (bq & _ & ->)]]. Qed.

(** ** The store after enrichment *)

(** Whatever happens, also on an exception, [enhance_dataframe] only
    appends to the store. *)
Lemma enhance_dataframe_appends (df : loc) (σ : store) :
  ∃ ext, (enhance_dataframe df σ).2 = σ ++ ext.
Proof.
  unfold enhance_dataframe. rewrite bindM_run. unfold copy at 1.
  destruct (σ !! df) as [f|]; [|by exists []; rewrite app_nil_r].
  rewrite bindM_run, assign_last.
  destruct (calculate_bayesian_average f _ _ _) as [bp|]; [|by eexists].
  rewrite bindM_run, load_last, bindM_run.
  set (f1 := setcol "bayesian_popularity" bp f).
  assert (Hstep : ∃ r g1,
      (if decide (is_Some (cols f1 !! "quality_score"))
       then assign (length σ) "bayesian_quality"
              (λ f, calculate_bayesian_average f "quality_score" "num_reviews" 10)
       else mret ()) (σ ++ [f1]) = (r, σ ++ [g1])).
  { destruct (decide _).
    - rewrite assign_last. destruct (calculate_bayesian_average f1 _ _ _); eauto.
    - by exists (Ok ()), f1. }
  destruct Hstep as (r & g1 & ->). destruct r as [[]|e]; [|by eexists].
  rewrite bindM_run, assign_last.
  destruct (getitem g1 "num_reviews" ≫= _) as [cl|]; [|by eexists].
  rewrite bindM_run, assign_last.
  destruct (apply_rows _ _) as [eps|]; [|by eexists].
  rewrite bindM_run, assign_last.
  destruct (suspicious_flags _) as [sus|]; by eexists.
Qed.

(** C10. [enhance_dataframe] leaves the frame it is given, and every
    other frame of the store, as they were, whether it returns or raises.
    When it returns, the result is a frame that did not exist before; it
    has the rows and the other columns of the input, and the derived
    columns are in it. *)
Theorem enhance_dataframe_leaves_input (df : loc) (σ : store) :
  (∀ l f, σ !! l = Some f → (enhance_dataframe df σ).2 !! l = Some f) ∧
  (∀ df', (enhance_dataframe df σ).1 = Ok df' →
     σ !! df' = None ∧
     ∃ f g, σ !! df = Some f ∧ (enhance_dataframe df σ).2 !! df' = Some g ∧
       nrows g = nrows f ∧
       (∀ c, c ∉ derived_columns → cols g !! c = cols f !! c) ∧
       (∀ c, c ∈ derived_columns → c ≠ "bayesian_quality" →
             is_Some (cols g !! c))).
Proof.
  split.
  - intros l f Hl. destruct (enhance_dataframe_appends df σ) as [ext ->].
    by apply lookup_app_l_Some.
  - intros df' Hdf'. destruct (enhance_dataframe df σ) as [r σ'] eqn:E.
    simpl in Hdf'. subst r. simpl.
    destruct (enhance_dataframe_inv _ _ _ _ E)
      as (f & bp & g1 & cl & eps & sus & Hf & -> & _ & Hq & _ & _ & _ & ->).
    split; [by apply lookup_ge_None_2|].
    exists f. eexists. split; [exact Hf|].
    split; [by apply list_lookup_middle|].
    split; [simpl; by rewrite (quality_step_nrows _ _ Hq)|].
    split.
    + intros c (H1 & H2 & H3 & H4 & H5)%not_derived.
      rewrite !cols_setcol_ne by done.
      rewrite (quality_step_cols _ _ _ Hq) by done.
      by rewrite cols_setcol_ne.
    + intros c Hc Hne. unfold derived_columns in Hc.
      rewrite !cols_setcol.
      repeat (case_decide; [by eexists|]).
      rewrite (quality_step_cols _ _ _ Hq) by done.
      rewrite cols_setcol. case_decide; [by eexists|].
      rewrite !elem_of_cons, elem_of_nil in Hc. intuition congruence.
Qed.

(** ** The shrunk columns of the enriched table *)

(** C3. In the table [enhance_dataframe] returns, the column
    [bayesian_popularity] holds for every row the popularity score shrunk
    by [(v / (v + 10)) * score + (10 / (v + 10)) * mean], with [v] the
    review count of the row and [mean] the arithmetic mean of
    [popularity_score] over all rows of the input; when the input has a
    [quality_score] column, [bayesian_quality] holds the same formula over
    that column with that column's own mean; when it has none, no
    [bayesian_quality] is assigned.  The rows are those with a finite
    score and an integer review count [v] for which [v + 10] is not zero
    and is an [int64]: the code computes the sum in [int64], and beyond
    that range it wraps around. *)
Theorem enhance_dataframe_bayesian (df df' : loc) (σ σ' : store) :
  enhance_dataframe df σ = (Ok df', σ') →
  ∃ f g, σ !! df = Some f ∧ σ' !! df' = Some g ∧
    (∃ adj, cols g !! "bayesian_popularity" = Some adj ∧
            calculate_bayesian_average f "popularity_score" "num_reviews" 10 = Ok adj ∧
            bayesian_column f "popularity_score" 10 adj) ∧
    (is_Some (cols f !! "quality_score") →
     ∃ adj, cols g !! "bayesian_quality" = Some adj ∧
            calculate_bayesian_average f "quality_score" "num_reviews" 10 = Ok adj ∧
            bayesian_column f "quality_score" 10 adj) ∧
    (cols f !! "quality_score" = None →
     cols g !! "bayesian_quality" = cols f !! "bayesian_quality").
Proof.
  intros E.
  destruct (enhance_dataframe_inv _ _ _ _ E)
    as (f & bp & g1 & cl & eps & sus & Hf & -> & Hbp & Hq & _ & _ & _ & ->).
  exists f. eexists. split; [exact Hf|].
  split; [by apply list_lookup_middle|].
  rewrite !cols_setcol_ne by done.
  split; [|split].
  - exists bp. split; [|split].
    + rewrite (quality_step_cols _ _ _ Hq) by done. apply cols_setcol_eq.
    + exact Hbp.
    + by apply calculate_bayesian_average_shrink.
  - intros Hs. destruct Hq as [[Hn _]|[_ (bq & Hbq & ->)]].
    + rewrite cols_setcol_ne in Hn by done. rewrite Hn in Hs.
      by destruct Hs.
    + rewrite calculate_bayesian_average_setcol in Hbq by done.
      exists bq. split; [apply cols_setcol_eq|]. split; [exact Hbq|].
      by apply calculate_bayesian_average_shrink.
  - intros Hn. destruct Hq as [[_ ->]|[Hs _]].
    + by rewrite cols_setcol_ne.
    + rewrite cols_setcol_ne in Hs by done. rewrite Hn in Hs. by destruct Hs.
Qed.

Lemma enhance_dataframe_bayesian_witness :
  ∃ f g, [courses_ABC] !! 0 = Some f ∧
    (enhance_dataframe 0 [courses_ABC]).2 !! 1 = Some g ∧
    (∃ adj, cols g !! "bayesian_popularity" = Some adj ∧
            calculate_bayesian_average f "popularity_score" "num_reviews" 10 = Ok adj ∧
            bayesian_column f "popularity_score" 10 adj) ∧
    (is_Some (cols f !! "quality_score") →
     ∃ adj, cols g !! "bayesian_quality" = Some adj ∧
            calculate_bayesian_average f "quality_score" "num_reviews" 10 = Ok adj ∧
            bayesian_column f "quality_score" 10 adj) ∧
    (cols f !! "quality_score" = None →
     cols g !! "bayesian_quality" = cols f !! "bayesian_quality").
Proof.
  apply (enhance_dataframe_bayesian 0 1 [courses_ABC]). vm_compute. reflexivity.
Defined.

(** The example of the specification: with mean popularity 1/2 and 2
    reviews, the raw score 1/10 of course B is shrunk to 13/30. *)
Example bayesian_popularity_of_B :
  ∃ adj q, calculate_bayesian_average courses_ABC "popularity_score" "num_reviews" 10
           = Ok adj ∧
           adj !! 1 = Some (CFloat (Fin q)) ∧ (q == 13 # 30)%Q.
Proof. do 2 eexists. split; [vm_compute; reflexivity|]. split; reflexivity. Qed.

(** Beyond the [int64] range the sum [v + 10] wraps around: for the
    course of [largest_count], with the score 1/2 and the mean 1/2, the
    quotient [v / (v + 10)] is negative, and so is the adjusted score. *)
Example bayesian_average_wraps_around :
  ∃ q, calculate_bayesian_average largest_count "popularity_score" "num_reviews" 10
       = Ok [CFloat (Fin q)] ∧ (q < 0)%Q.
Proof. eexists. split; [vm_compute; reflexivity | reflexivity]. Qed.

(** ** The suspicion flag *)

Lemma fle_fl_ge (q : Q) (x : fl) : fle (Fin q) x = true ↔ fl_ge x q.
Proof.
  destruct x as [a| | |]; simpl; try (split; [discriminate|contradiction]).
  - apply Qle_bool_iff.
  - done.
Qed.

Lemma flt_fl_lt (y : fl) (q : Q) : flt y (Fin q) = true ↔ fl_lt y q.
Proof.
  unfold flt. destruct y as [a| | |]; simpl;
    try (split; [discriminate|contradiction]); [|done].
  rewrite andb_true_iff, negb_true_iff, Qle_bool_iff.
  split.
  - intros [H1 H2]. apply Qnot_le_lt. intros H%Qle_bool_iff. congruence.
  - intros H. split; [by apply Qlt_le_weak|].
    destruct (Qle_bool q a) eqn:E; [|done].
    apply Qle_bool_iff in E. by apply Qle_not_lt in E.
Qed.

Lemma series_cmp_lookup cmp s d u i c :
  series_cmp cmp s d = Ok u → s !! i = Some c →
  ∃ b, cmp c d = Ok b ∧ u !! i = Some (CBool b).
Proof.
  intros Hu Hi. destruct (traverse_lookup _ _ _ _ _ Hu Hi) as (r & Hr & Hf).
  apply bind_Ok in Hf as (b & Hb & [= <-]). eauto.
Qed.

Lemma cell_cmp_Ok cmp c d b :
  cell_cmp cmp c d = Ok b ↔ ∃ x y, num_of c = Ok x ∧ num_of d = Ok y ∧ b = cmp x y.
Proof.
  unfold cell_cmp. split.
  - intros H. apply bind_Ok in H as (x & Hx & H).
    apply bind_Ok in H as (y & Hy & [= <-]). eauto.
  - intros (x & y & -> & -> & ->). reflexivity.
Qed.

(** Row by row, the flag is the conjunction of the two comparisons, on
    the columns [review_rate] and [num_subscribers]. *)
Lemma suspicious_flags_rows f sus :
  suspicious_flags f = Ok sus →
  ∃ rate subs,
    cols f !! "review_rate" = Some rate ∧
    cols f !! "num_subscribers" = Some subs ∧
    length sus = length rate `min` length subs ∧
    ∀ i cr cs, rate !! i = Some cr → subs !! i = Some cs →
      ∃ x y, num_of cr = Ok x ∧ num_of cs = Ok y ∧
        sus !! i = Some (CBool (fle (Fin (99 # 100)) x && flt y (fl_of_Z 50))).
Proof.
  unfold suspicious_flags. intros H.
  apply bind_Ok in H as (rate & Hrate%getitem_Ok & H).
  apply bind_Ok in H as (high & Hhigh & H).
  apply bind_Ok in H as (subs & Hsubs%getitem_Ok & H).
  apply bind_Ok in H as (few & Hfew & [= <-]).
  exists rate, subs. repeat split; try assumption.
  - unfold series_and. rewrite length_zip_with.
    by rewrite (traverse_length _ _ _ Hhigh), (traverse_length _ _ _ Hfew).
  - intros i cr cs Hcr Hcs.
    destruct (series_cmp_lookup _ _ _ _ _ _ Hhigh Hcr) as (b1 & Hb1 & Hh).
    destruct (series_cmp_lookup _ _ _ _ _ _ Hfew Hcs) as (b2 & Hb2 & Hf).
    apply cell_cmp_Ok in Hb1 as (x & x' & Hx & [= <-] & ->).
    apply cell_cmp_Ok in Hb2 as (y & y' & Hy & [= <-] & ->).
    exists x, y. repeat split; try assumption.
    unfold series_and. rewrite lookup_zip_with, Hh. simpl. by rewrite Hf.
Qed.

Lemma suspicious_flags_ext f f' :
  cols f !! "review_rate" = cols f' !! "review_rate" →
  cols f !! "num_subscribers" = cols f' !! "num_subscribers" →
  suspicious_flags f = suspicious_flags f'.
Proof. intros H1 H2. unfold suspicious_flags, getitem. by rewrite H1, H2. Qed.

(** The flags of the enriched table are computed from the columns
    [review_rate] and [num_subscribers] of the input. *)
Lemma enhance_dataframe_flags (df df' : loc) (σ σ' : store) :
  enhance_dataframe df σ = (Ok df', σ') →
  ∃ f g sus, σ !! df = Some f ∧ σ' !! df' = Some g ∧
    cols g !! "is_suspicious" = Some sus ∧ suspicious_flags f = Ok sus ∧
    cols g !! "review_rate" = cols f !! "review_rate" ∧
    cols g !! "num_subscribers" = cols f !! "num_subscribers".
Proof.
  intros E.
  destruct (enhance_dataframe_inv _ _ _ _ E)
    as (f & bp & g1 & cl & eps & sus & Hf & -> & _ & Hq & _ & _ & Hsus & ->).
  assert (Hcol : ∀ c, c ∉ derived_columns →
    cols (setcol "engagement_per_subscriber" eps (setcol "confidence_level" cl g1)) !! c
    = cols f !! c).
  { intros c (H1 & H2 & H3 & H4 & H5)%not_derived.
    rewrite !cols_setcol_ne by done.
    rewrite (quality_step_cols _ _ _ Hq) by done.
    by rewrite cols_setcol_ne. }
  assert (Hr : "review_rate" ∉ derived_columns) by compute_done.
  assert (Hn : "num_subscribers" ∉ derived_columns) by compute_done.
  exists f. eexists. exists sus. split; [exact Hf|].
  split; [by apply list_lookup_middle|].
  split; [apply cols_setcol_eq|].
  split; [|split].
  - rewrite <- Hsus. symmetry. apply suspicious_flags_ext; by apply Hcol.
  - rewrite cols_setcol_ne by done. by apply Hcol.
  - rewrite cols_setcol_ne by done. by apply Hcol.
Qed.

(** C8. In the enriched table, the flag of a row is true exactly when
    its [review_rate] is at least 0.99 and its subscriber count is below
    50; it is false for a row with 50 subscribers whatever the rate.  The
    engagement rate of the claim is the column [review_rate] of the
    table. *)
Theorem is_suspicious_iff (df df' : loc) (σ σ' : store) :
  enhance_dataframe df σ = (Ok df', σ') →
  ∃ g rate subs flags,
    σ' !! df' = Some g ∧
    cols g !! "review_rate" = Some rate ∧
    cols g !! "num_subscribers" = Some subs ∧
    cols g !! "is_suspicious" = Some flags ∧
    length flags = length rate `min` length subs ∧
    ∀ i cr cs, rate !! i = Some cr → subs !! i = Some cs →
      ∃ x y b, num_of cr = Ok x ∧ num_of cs = Ok y ∧
        flags !! i = Some (CBool b) ∧
        (b = true ↔ fl_ge x (99 # 100) ∧ fl_lt y 50) ∧
        (cs = CInt 50 → b = false).
Proof.
  intros E.
  destruct (enhance_dataframe_flags _ _ _ _ E)
    as (f & g & sus & _ & Hg & Hsus & Hflags & Hr & Hn).
  destruct (suspicious_flags_rows _ _ Hflags)
    as (rate & subs & Hrate & Hsubs & Hlen & Hrow).
  exists g, rate, subs, sus. rewrite Hr, Hn. repeat split; try assumption.
  intros i cr cs Hcr Hcs.
  destruct (Hrow i cr cs Hcr Hcs) as (x & y & Hx & Hy & Hi).
  exists x, y. eexists.
  split; [exact Hx|]. split; [exact Hy|]. split; [exact Hi|]. split.
  - rewrite andb_true_iff, fle_fl_ge. unfold fl_of_Z.
    by rewrite (flt_fl_lt y (inject_Z 50)).
  - intros ->. injection Hy as <-. apply andb_false_r.
Qed.

Lemma is_suspicious_iff_witness :
  ∃ g rate subs flags,
    (enhance_dataframe 0 [small_course 1]).2 !! 1 = Some g ∧
    cols g !! "review_rate" = Some rate ∧
    cols g !! "num_subscribers" = Some subs ∧
    cols g !! "is_suspicious" = Some flags ∧
    length flags = length rate `min` length subs ∧
    ∀ i cr cs, rate !! i = Some cr → subs !! i = Some cs →
      ∃ x y b, num_of cr = Ok x ∧ num_of cs = Ok y ∧
        flags !! i = Some (CBool b) ∧
        (b = true ↔ fl_ge x (99 # 100) ∧ fl_lt y 50) ∧
        (cs = CInt 50 → b = false).
Proof.
  apply (is_suspicious_iff 0 1 [small_course 1]). vm_compute. reflexivity.
Defined.

(** C4, as the code has it. The flags depend only on the stored columns
    [review_rate] and [num_subscribers]: two tables that agree on these
    two columns get the same flags, whatever their review counts, and so
    whatever the recomputed [engagement_per_subscriber]. *)
Theorem is_suspicious_from_stored_rate (df1 df2 d1 d2 : loc) (σ1 σ2 σ1' σ2' : store)
    (f1 f2 : frame) :
  enhance_dataframe df1 σ1 = (Ok d1, σ1') →
  enhance_dataframe df2 σ2 = (Ok d2, σ2') →
  σ1 !! df1 = Some f1 → σ2 !! df2 = Some f2 →
  cols f1 !! "review_rate" = cols f2 !! "review_rate" →
  cols f1 !! "num_subscribers" = cols f2 !! "num_subscribers" →
  ∃ g1 g2 flags,
    σ1' !! d1 = Some g1 ∧ σ2' !! d2 = Some g2 ∧
    cols g1 !! "is_suspicious" = Some flags ∧
    cols g2 !! "is_suspicious" = Some flags.
Proof.
  intros E1 E2 Hf1 Hf2 Hr Hn.
  destruct (enhance_dataframe_flags _ _ _ _ E1)
    as (f1' & g1 & sus1 & Hf1' & Hg1 & Hs1 & Hfl1 & _).
  destruct (enhance_dataframe_flags _ _ _ _ E2)
    as (f2' & g2 & sus2 & Hf2' & Hg2 & Hs2 & Hfl2 & _).
  assert (f1' = f1) as -> by congruence.
  assert (f2' = f2) as -> by congruence.
  rewrite (suspicious_flags_ext f1 f2 Hr Hn) in Hfl1.
  assert (sus1 = sus2) as -> by congruence.
  by exists g1, g2, sus2.
Qed.

Lemma is_suspicious_from_stored_rate_witness :
  ∃ g1 g2 flags,
    (enhance_dataframe 0 [small_course 1]).2 !! 1 = Some g1 ∧
    (enhance_dataframe 0 [few_reviews]).2 !! 1 = Some g2 ∧
    cols g1 !! "is_suspicious" = Some flags ∧
    cols g2 !! "is_suspicious" = Some flags.
Proof.
  apply (is_suspicious_from_stored_rate 0 0 1 1 [small_course 1] [few_reviews]
           _ _ (small_course 1) few_reviews); vm_compute; reflexivity.
Defined.

(** C4, refuted as stated. The tables [small_course 1] and
    [small_course 0] agree on review counts and subscriber counts (10 and
    10, so the recomputed engagement is 1 in both) and differ in the
    stored [review_rate] only; the first is flagged and the second is
    not. *)
Lemma is_suspicious_follows_stored_rate :
  cols (small_course 1) !! "num_reviews" = cols (small_course 0) !! "num_reviews" ∧
  cols (small_course 1) !! "num_subscribers"
    = cols (small_course 0) !! "num_subscribers" ∧
  (enhance_dataframe 0 [small_course 1]).1 = Ok 1 ∧
  (enhance_dataframe 0 [small_course 0]).1 = Ok 1 ∧
  column_at (enhance_dataframe 0 [small_course 1]).2 1 "engagement_per_subscriber"
    = Some [CFloat (Fin (10 # 10))] ∧
  column_at (enhance_dataframe 0 [small_course 0]).2 1 "engagement_per_subscriber"
    = Some [CFloat (Fin (10 # 10))] ∧
  column_at (enhance_dataframe 0 [small_course 1]).2 1 "is_suspicious"
    = Some [CBool true] ∧
  column_at (enhance_dataframe 0 [small_course 0]).2 1 "is_suspicious"
    = Some [CBool false].
Proof. repeat split; vm_compute; reflexivity. Qed.

(** ** Sorting the candidates *)

Lemma insert_desc_perm x l : insert_desc x l ≡ₚ x :: l.
Proof.
  induction l as [|y l IH]; simpl; [done|].
  destruct (Qle_bool y.2 x.2); [done|].
  rewrite IH. apply Permutation_swap.
Qed.

Lemma sorted_desc_perm l : sorted_desc l ≡ₚ l.
Proof.
  induction l as [|x l IH]; simpl; [done|].
  by rewrite insert_desc_perm, IH.
Qed.

Lemma before_le (a b : nat * Q) : before a b → (b.2 <= a.2)%Q.
Proof.
  intros [H|[H _]]; [by apply Qlt_le_weak|].
  rewrite H. apply Qle_refl.
Qed.

(** Inserting a candidate of an earlier row keeps the list in order:
    it goes before the entries of equal similarity. *)
Lemma insert_desc_sorted x l :
  Forall (λ y, x.1 < y.1) l → StronglySorted before l →
  StronglySorted before (insert_desc x l).
Proof.
  induction l as [|y l IH]; intros Hidx Hs; simpl.
  - repeat constructor.
  - apply StronglySorted_cons in Hs as [Hy Hs].
    apply Forall_cons in Hidx as [Hxy Hidx].
    destruct (Qle_bool y.2 x.2) eqn:E.
    + apply Qle_bool_iff in E.
      assert (Hx : ∀ z, (z.2 <= x.2)%Q → x.1 < z.1 → before x z).
      { intros z Hz Hlt.
        destruct (Qlt_le_dec z.2 x.2) as [Hl|Hl]; [by left|].
        right. split; [by apply Qle_antisym | done]. }
      apply StronglySorted_cons. split.
      * apply Forall_cons. split; [by apply Hx|].
        rewrite Forall_forall in Hy, Hidx |- *. intros z Hz. apply Hx.
        -- eapply Qle_trans; [apply before_le, Hy, Hz | done].
        -- by apply Hidx.
      * by apply StronglySorted_cons.
    + assert (Hlt : (x.2 < y.2)%Q).
      { apply Qnot_le_lt. intros H%Qle_bool_iff. congruence. }
      apply StronglySorted_cons. split.
      * rewrite insert_desc_perm. apply Forall_cons. split; [by left | done].
      * by apply IH.
Qed.

Lemma sorted_desc_enumerate_from k row :
  StronglySorted before (sorted_desc (enumerate_from k row)) ∧
  Forall (λ y, k ≤ y.1) (sorted_desc (enumerate_from k row)).
Proof.
  revert k. induction row as [|x row IH]; intros k; simpl.
  - split; constructor.
  - destruct (IH (S k)) as [Hs Hk]. split.
    + apply insert_desc_sorted; [|done].
      eapply Forall_impl; [exact Hk|]. simpl. lia.
    + rewrite insert_desc_perm. apply Forall_cons. split; [simpl; lia|].
      eapply Forall_impl; [exact Hk|]. simpl. lia.
Qed.

Lemma elem_of_enumerate_from k row i x :
  (i, x) ∈ enumerate_from k row ↔ k ≤ i ∧ row !! (i - k) = Some x.
Proof.
  revert k. induction row as [|y row IH]; intros k; simpl.
  - rewrite elem_of_nil. split; [done | by intros [_ ?]].
  - rewrite elem_of_cons, IH. split.
    + intros [[= -> ->]|[Hk Hr]].
      * split; [lia|]. by rewrite Nat.sub_diag.
      * split; [lia|]. by replace (i - k) with (S (i - S k)) by lia.
    + intros [Hk Hr]. destruct (decide (i = k)) as [->|Hne].
      * left. rewrite Nat.sub_diag in Hr. simpl in Hr. congruence.
      * right. split; [lia|].
        by replace (i - k) with (S (i - S k)) in Hr by lia.
Qed.

Lemma StronglySorted_sublist {A} (R : A → A → Prop) (k l : list A) :
  k `sublist_of` l → StronglySorted R l → StronglySorted R k.
Proof.
  induction 1 as [|x k l Hkl IH|x k l Hkl IH]; intros Hs.
  - constructor.
  - apply StronglySorted_cons in Hs as [Hx Hs].
    apply StronglySorted_cons. split; [|by apply IH].
    rewrite Forall_forall in Hx |- *. intros z Hz. apply Hx.
    by eapply elem_of_sublist.
  - apply StronglySorted_cons in Hs as [_ Hs]. by apply IH.
Qed.

Lemma sublist_tail {A} (l : list A) : tail l `sublist_of` l.
Proof. destruct l; [done|]. by apply sublist_cons. Qed.

(** The candidates the loop walks: in order, each a cell of the row of
    the matrix. *)
Lemma candidates_sorted (row : list Q) :
  StronglySorted before (tail (sorted_desc (enumerate row))) ∧
  Forall (λ p, row !! p.1 = Some p.2) (tail (sorted_desc (enumerate row))).
Proof.
  split.
  - eapply StronglySorted_sublist; [apply sublist_tail|].
    apply sorted_desc_enumerate_from.
  - rewrite Forall_forall. intros [i x] Hp.
    pose proof (elem_of_sublist _ _ _ Hp (sublist_tail _)) as H.
    rewrite sorted_desc_perm in H. apply elem_of_enumerate_from in H as [_ H].
    by rewrite Nat.sub_0_r in H.
Qed.

(** ** The loop *)

Lemma collect_admitted df n m l acc out :
  collect df n m l acc = Ok out →
  ∃ picked recs, picked `sublist_of` l ∧ Forall2 (admitted df m) picked recs ∧
                 out = acc ++ recs.
Proof.
  revert acc. induction l as [|[i x] l IH]; intros acc; simpl.
  - intros [= <-]. exists [], []. by rewrite app_nil_r.
  - intros H. apply bind_Ok in H as (course & Hcourse & H).
    apply bind_Ok in H as (ok & Hok & H).
    apply bind_Ok in H as (recs' & Hrecs' & H).
    destruct ok.
    + apply bind_Ok in Hrecs' as (r & Hr & [= <-]).
      assert (Hadm : admitted df m (i, x) r) by by exists course.
      destruct (decide _).
      * injection H as <-. exists [(i, x)], [r].
        split; [apply sublist_skip, sublist_nil_l|]. split; [|done].
        by constructor.
      * apply IH in H as (picked & recs & Hsub & Hall & ->).
        exists ((i, x) :: picked), (r :: recs).
        split; [by apply sublist_skip|]. split; [by constructor|].
        by rewrite <- app_assoc.
    + injection Hrecs' as <-. destruct (decide _).
      * injection H as <-. exists [], [].
        split; [apply sublist_nil_l|]. split; [constructor|].
        by rewrite app_nil_r.
      * apply IH in H as (picked & recs & Hsub & Hall & ->).
        exists picked, recs. split; [by apply sublist_cons | done].
Qed.

(** With [n] at least one more than the records already collected, the
    loop stops at [n] records. *)
Lemma collect_bound df n m l acc out :
  (Z.of_nat (length acc) < n)%Z →
  collect df n m l acc = Ok out → (Z.of_nat (length out) ≤ n)%Z.
Proof.
  revert acc. induction l as [|[i x] l IH]; intros acc Hacc; simpl.
  - intros [= <-]. lia.
  - intros H. apply bind_Ok in H as (course & Hcourse & H).
    apply bind_Ok in H as (ok & Hok & H).
    apply bind_Ok in H as (recs' & Hrecs' & H).
    assert (Hlen : (Z.of_nat (length recs') ≤ n)%Z).
    { destruct ok.
      - apply bind_Ok in Hrecs' as (r & Hr & [= <-]).
        rewrite length_app. simpl. lia.
      - injection Hrecs' as <-. lia. }
    destruct (decide _) as [Hn|Hn].
    + injection H as <-. done.
    + apply IH in H; [done | lia].
Qed.

(** When no candidate passes the filter the loop collects nothing. *)
Lemma collect_none df n m l :
  Forall (λ p, ∃ course, iloc df p.1 = Ok course ∧ passes course m = Ok false) l →
  collect df n m l [] = Ok [].
Proof.
  induction 1 as [|[i x] l (course & Hc & Hp) _ IH]; simpl; [done|].
  simpl in Hc. rewrite Hc. simpl. rewrite Hp. simpl.
  by destruct (decide _).
Qed.

(** The loop raises nothing when every candidate is a row of the table
    that the filter and the dictionary can read. *)
Lemma collect_total df n m l acc :
  Forall (λ p, ∃ course, iloc df p.1 = Ok course ∧
                 (∃ b, passes course m = Ok b) ∧
                 (∃ r, recommendation course p.2 = Ok r)) l →
  ∃ out, collect df n m l acc = Ok out.
Proof.
  intros H. revert acc.
  induction H as [|[i x] l (course & Hc & [b Hb] & [r Hr]) _ IH]; intros acc; simpl.
  - by exists acc.
  - simpl in Hc, Hr. rewrite Hc. simpl. rewrite Hb. simpl.
    destruct b; simpl.
    + rewrite Hr. simpl. destruct (decide _); [by eexists | apply IH].
    + destruct (decide _); [by eexists | apply IH].
Qed.

(** ** The frame of the result *)

Lemma cols_pd_DataFrame recs k col :
  cols (pd_DataFrame recs) !! k = Some col ↔
  (∃ r, r ∈ recs ∧ is_Some (r !! k)) ∧ col = column_of recs k.
Proof.
  unfold pd_DataFrame. simpl. rewrite lookup_set_to_map by (by intros ?? _ _ [=]).
  split.
  - intros (k' & Hk' & [= -> <-]). split; [|done].
    apply elem_of_union_list in Hk' as (X & HX & Hk).
    apply list_elem_of_fmap in HX as (r & -> & Hr).
    exists r. split; [done|]. by apply elem_of_dom.
  - intros [(r & Hr & Hk) ->]. exists k. split; [|done].
    apply elem_of_union_list. exists (dom r). split.
    + apply list_elem_of_fmap. by exists r.
    + by apply elem_of_dom.
Qed.

Lemma iloc_lookup df i course c :
  iloc df i = Ok course → course !! c = cols df !! c ≫= (λ s, s !! i).
Proof.
  unfold iloc. destruct (decide _); [|discriminate].
  intros [= <-]. apply lookup_omap.
Qed.

Lemma row_getitem_Ok row c x : row_getitem row c = Ok x ↔ row !! c = Some x.
Proof.
  unfold row_getitem. destruct (row !! c); split; intros H;
    try discriminate; by injection H as ->.
Qed.

Lemma recommendation_fields course similarity r :
  recommendation course similarity = Ok r →
  r !! "similarity_score" = Some (CFloat (Fin similarity)) ∧
  ∃ id, r !! "course_id" = Some id ∧ course !! "course_id" = Some id.
Proof.
  unfold recommendation. intros H.
  apply bind_Ok in H as (id & Hid%row_getitem_Ok & H).
  apply bind_Ok in H as (title & _ & H).
  apply bind_Ok in H as (subject & _ & H).
  apply bind_Ok in H as (price & _ & H).
  apply bind_Ok in H as (subs & _ & H).
  apply bind_Ok in H as (reviews & _ & [= <-]).
  split; [reflexivity|]. exists id. split; [reflexivity | exact Hid].
Qed.

Lemma admitted_similarity_column df m picked recs :
  Forall2 (admitted df m) picked recs →
  column_of recs "similarity_score" = (λ p, CFloat (Fin p.2)) <$> picked.
Proof.
  induction 1 as [|p r picked recs (course & _ & _ & Hr) _ IH]; [done|].
  unfold column_of in *. rewrite !fmap_cons, IH.
  apply recommendation_fields in Hr as [-> _]. done.
Qed.

Lemma admitted_course_id_column df m picked recs ids :
  cols df !! "course_id" = Some ids →
  Forall2 (admitted df m) picked recs →
  Forall2 (λ p c, ids !! p.1 = Some c) picked (column_of recs "course_id").
Proof.
  intros Hids. induction 1 as [|p r picked recs (course & Hc & _ & Hr) _ IH].
  - constructor.
  - unfold column_of in *. rewrite fmap_cons. constructor; [|exact IH].
    apply recommendation_fields in Hr as [_ (id & -> & Hid)]. simpl.
    rewrite (iloc_lookup _ _ _ "course_id" Hc), Hids in Hid. exact Hid.
Qed.

Lemma admitted_has_fields df m p r :
  admitted df m p r →
  is_Some (r !! "similarity_score") ∧ is_Some (r !! "course_id").
Proof.
  intros (course & _ & _ & Hr).
  apply recommendation_fields in Hr as [-> (id & -> & _)]. by split; eexists.
Qed.

(** ** The query *)

(** What a run of the [try] block that raised nothing did. *)
Lemma try_recommendations_Ok course_id df cosine_sim n m g :
  try_recommendations course_id df cosine_sim n m = Ok g →
  ∃ idx row picked recs,
    index_of course_id df = Ok idx ∧ cosine_sim !! idx = Some row ∧
    collect df n m (tail (sorted_desc (enumerate row))) [] = Ok recs ∧
    picked `sublist_of` tail (sorted_desc (enumerate row)) ∧
    Forall2 (admitted df m) picked recs ∧
    g = pd_DataFrame recs.
Proof.
  unfold try_recommendations. intros H.
  apply bind_Ok in H as (idx & Hidx & H).
  apply bind_Ok in H as (row & Hrow & H).
  apply bind_Ok in H as (recs & Hrecs & [= <-]).
  destruct (cosine_sim !! idx) as [row'|] eqn:E; [|discriminate].
  injection Hrow as ->.
  destruct (collect_admitted _ _ _ _ _ _ Hrecs) as (picked & recs' & Hsub & Hall & ->).
  exists idx, row, picked, recs'. done.
Qed.

(** C6, for [n >= 1]. The result has at most [n] rows.  Its rows are
    the records of a list [picked] of (row, similarity) candidates of the
    query's row of the matrix, ordered by [before]: similarities do not
    increase, and two candidates of equal similarity appear in the order
    of their rows in the table. *)
Theorem get_recommendations_ordered course_id df cosine_sim (n min_reviews : Z) :
  (1 ≤ n)%Z →
  ∃ picked : list (nat * Q),
    let g := (get_recommendations course_id df cosine_sim n min_reviews).1 in
    nrows g = length picked ∧
    (Z.of_nat (nrows g) ≤ n)%Z ∧
    StronglySorted before picked ∧
    (∀ idx row, index_of course_id df = Ok idx → cosine_sim !! idx = Some row →
                Forall (λ p, row !! p.1 = Some p.2) picked) ∧
    (picked ≠ [] →
     cols g !! "similarity_score" = Some ((λ p, CFloat (Fin p.2)) <$> picked) ∧
     ∃ ids col, cols df !! "course_id" = Some ids ∧
                cols g !! "course_id" = Some col ∧
                Forall2 (λ p c, ids !! p.1 = Some c) picked col).
Proof.
  intros Hn. unfold get_recommendations.
  destruct (try_recommendations _ _ _ _ _) as [g|e] eqn:E.
  - destruct (try_recommendations_Ok _ _ _ _ _ _ E)
      as (idx & row & picked & recs & Hidx & Hrow & Hc & Hsub & Hall & ->).
    destruct (candidates_sorted row) as [Hsorted Hcells].
    exists picked. simpl.
    split; [symmetry; by eapply Forall2_length|].
    split; [eapply collect_bound; [|exact Hc]; simpl; lia|].
    split; [by eapply StronglySorted_sublist|].
    split.
    { intros idx' row' Hidx' Hrow'.
      assert (idx' = idx) as -> by congruence.
      assert (row' = row) as -> by congruence.
      rewrite Forall_forall in Hcells |- *. intros p Hp. apply Hcells.
      by eapply elem_of_sublist. }
    intros Hne. destruct Hall as [|p r picked recs Hp Hall]; [done|].
    destruct (admitted_has_fields _ _ _ _ Hp) as [Hs Hi].
    assert (Hall' : Forall2 (admitted df min_reviews) (p :: picked) (r :: recs))
      by by constructor.
    split.
    + apply cols_pd_DataFrame. split.
      * exists r. split; [apply elem_of_cons; by left | done].
      * symmetry. by eapply admitted_similarity_column.
    + assert (∃ ids, cols df !! "course_id" = Some ids) as [ids Hids].
      { unfold index_of in Hidx. apply bind_Ok in Hidx as (ids & Hids%getitem_Ok & _).
        by exists ids. }
      exists ids, (column_of (r :: recs) "course_id").
      split; [done|]. split.
      * apply cols_pd_DataFrame. split; [|done].
        exists r. split; [apply elem_of_cons; by left | done].
      * by eapply admitted_course_id_column.
  - exists []. simpl. split; [done|]. split; [lia|]. split; [constructor|].
    split; [by intros|done].
Qed.

Lemma get_recommendations_ordered_witness :
  ∃ picked : list (nat * Q),
    let g := (get_recommendations (CInt 1) three_courses
                (ones 3) 2 5).1 in
    nrows g = length picked ∧
    (Z.of_nat (nrows g) ≤ 2)%Z ∧
    StronglySorted before picked ∧
    (∀ idx row, index_of (CInt 1) three_courses = Ok idx →
                ones 3 !! idx = Some row →
                Forall (λ p, row !! p.1 = Some p.2) picked) ∧
    (picked ≠ [] →
     cols g !! "similarity_score" = Some ((λ p, CFloat (Fin p.2)) <$> picked) ∧
     ∃ ids col, cols three_courses !! "course_id" = Some ids ∧
                cols g !! "course_id" = Some col ∧
                Forall2 (λ p c, ids !! p.1 = Some c) picked col).
Proof.
  apply (get_recommendations_ordered (CInt 1) three_courses
           (ones 3) 2 5).
  lia.
Defined.

(** Ties keep the order of the rows: course 1 is as similar to course 3
    as to itself and half as similar to courses 2 and 4. *)
Example recommendations_with_ties :
  let g := (get_recommendations (CInt 1)
              four_courses
              [[1; 1 # 2; 1; 1 # 2]; [1 # 2; 1; 1 # 2; 1];
               [1; 1 # 2; 1; 1 # 2]; [1 # 2; 1; 1 # 2; 1]]%Q 3 5).1 in
  cols g !! "course_id" = Some [CInt 3; CInt 2; CInt 4] ∧
  cols g !! "similarity_score"
    = Some [CFloat (Fin 1); CFloat (Fin (1 # 2)); CFloat (Fin (1 # 2))].
Proof. split; vm_compute; reflexivity. Qed.

(** C6, refuted as stated. With [n = 0] the loop appends the first
    admissible candidate before it tests the length: the result has one
    row. *)
Lemma get_recommendations_one_row_for_zero :
  nrows (get_recommendations (CInt 1) three_courses
           (ones 3) 0 5).1 = 1 ∧
  ¬ (Z.of_nat (nrows (get_recommendations (CInt 1)
                        three_courses (ones 3) 0 5).1)
     ≤ 0)%Z.
Proof.
  assert (E : nrows (get_recommendations (CInt 1)
                three_courses (ones 3) 0 5).1 = 1)
    by (vm_compute; reflexivity).
  split; [exact E|]. rewrite E. lia.
Qed.

(** C1, on the code. Two courses with the same title and subject have
    similarity 1 to each other and to themselves.  Queried for the second
    one, the stable sort puts the first course ahead of it, the slice
    [sim_scores[1:]] drops the first course, and the query course is
    recommended for itself. *)
Theorem get_recommendations_returns_query_course :
  index_of (CInt 2) twin_courses = Ok 1 ∧
  get_recommendations (CInt 2) twin_courses (ones 2) 5 5
  = (pd_DataFrame
       [list_to_map
          [("course_id", CInt 2); ("course_title", CStr "Python");
           ("subject", CStr "Web Development"); ("price", CInt 20);
           ("num_subscribers", CInt 1000); ("num_reviews", CInt 10);
           ("bayesian_popularity", CInt 0); ("confidence_level", CStr "Unknown");
           ("similarity_score", CFloat (Fin 1))]], []) ∧
  cols (get_recommendations (CInt 2) twin_courses (ones 2) 5 5).1
    !! "course_id" = Some [CInt 2].
Proof. repeat split; vm_compute; reflexivity. Qed.

(** ** Absent and present courses *)

Lemma index_of_Ok course_id df idx :
  index_of course_id df = Ok idx →
  ∃ ids c, cols df !! "course_id" = Some ids ∧ ids !! idx = Some c ∧
           cell_eqb c course_id = true.
Proof.
  unfold index_of. intros H.
  apply bind_Ok in H as (ids & Hids%getitem_Ok & H).
  destruct (list_find _ ids) as [[i c]|] eqn:E; [|discriminate].
  injection H as ->. apply list_find_Some in E as (Hi & Hc & _).
  exists ids, c. split; [done|]. split; [done|]. by apply Is_true_true.
Qed.

Lemma index_of_present course_id df :
  present course_id df → ∃ idx, index_of course_id df = Ok idx.
Proof.
  intros (ids & i & c & Hids%getitem_Ok & Hi & Hc).
  unfold index_of. rewrite Hids. simpl.
  destruct (list_find _ ids) as [[j d]|] eqn:E; [by exists j|].
  apply list_find_None in E. rewrite Forall_forall in E.
  destruct (E c); [by eapply list_elem_of_lookup_2 | by apply Is_true_true].
Qed.

Lemma index_of_absent course_id df :
  is_Some (cols df !! "course_id") → ¬ present course_id df →
  index_of course_id df = Raise IndexError.
Proof.
  intros [ids Hids] Hno. unfold index_of, getitem. rewrite Hids. simpl.
  destruct (list_find _ ids) as [[j d]|] eqn:E; [|done].
  apply list_find_Some in E as (Hj & Hd & _). destruct Hno.
  exists ids, j, d. split; [done|]. split; [done|]. by apply Is_true_true.
Qed.

(** Every row of a ready table can be read, filtered and turned into a
    record. *)
Lemma ready_row df cosine_sim m i similarity :
  query_ready df cosine_sim → i < nrows df →
  ∃ course, iloc df i = Ok course ∧
            (∃ b, passes course m = Ok b) ∧
            (∃ r, recommendation course similarity = Ok r).
Proof.
  intros (Hwf & Hreq & Hnum & _ & _) Hi.
  unfold iloc. rewrite decide_True by done. eexists. split; [reflexivity|].
  assert (Hcell : ∀ c, c ∈ required_columns →
    ∃ s x, cols df !! c = Some s ∧ s !! i = Some x ∧
           row_getitem (omap (λ s : list cell, s !! i) (cols df)) c = Ok x).
  { intros c Hc. rewrite Forall_forall in Hreq.
    destruct (Hreq c Hc) as [s Hs].
    destruct (lookup_lt_is_Some_2 s i) as [x Hx].
    { rewrite (Hwf c s Hs). done. }
    exists s, x. split; [done|]. split; [done|].
    apply row_getitem_Ok. rewrite lookup_omap, Hs. exact Hx. }
  unfold required_columns in Hcell.
  destruct (Hcell "course_id") as (? & ? & _ & _ & E1);
    [rewrite !elem_of_cons; tauto|].
  destruct (Hcell "course_title") as (? & ? & _ & _ & E2);
    [rewrite !elem_of_cons; tauto|].
  destruct (Hcell "subject") as (? & ? & _ & _ & E3);
    [rewrite !elem_of_cons; tauto|].
  destruct (Hcell "price") as (? & ? & _ & _ & E4);
    [rewrite !elem_of_cons; tauto|].
  destruct (Hcell "num_subscribers") as (? & ? & _ & _ & E5);
    [rewrite !elem_of_cons; tauto|].
  destruct (Hcell "num_reviews") as (revs & rev & Hs & Hx & E6);
    [rewrite !elem_of_cons; tauto|].
  split.
  - unfold passes. rewrite E6. simpl.
    assert (numeric rev) as [v Hv].
    { specialize (Hnum revs Hs). rewrite Forall_forall in Hnum. apply Hnum.
      by eapply list_elem_of_lookup_2. }
    unfold cell_ge, cell_cmp. rewrite Hv. simpl. by eexists.
  - unfold recommendation. rewrite E1. simpl. rewrite E2. simpl.
    rewrite E3. simpl. rewrite E4. simpl. rewrite E5. simpl.
    rewrite E6. simpl. by eexists.
Qed.

Lemma ready_candidates df cosine_sim idx row :
  query_ready df cosine_sim → cosine_sim !! idx = Some row →
  Forall (λ p, p.1 < nrows df) (tail (sorted_desc (enumerate row))).
Proof.
  intros (_ & _ & _ & _ & Hrows) Hrow.
  assert (Hlen : length row = nrows df).
  { rewrite Forall_forall in Hrows. apply Hrows.
    by eapply list_elem_of_lookup_2. }
  destruct (candidates_sorted row) as [_ Hcells].
  eapply Forall_impl; [exact Hcells|]. intros p Hp. simpl in Hp.
  apply lookup_lt_Some in Hp. lia.
Qed.

(** The [try] block raises nothing when the course is in a ready
    table. *)
Lemma try_recommendations_present course_id df cosine_sim n m :
  query_ready df cosine_sim → present course_id df →
  ∃ idx row recs,
    index_of course_id df = Ok idx ∧ cosine_sim !! idx = Some row ∧
    collect df n m (tail (sorted_desc (enumerate row))) [] = Ok recs ∧
    try_recommendations course_id df cosine_sim n m = Ok (pd_DataFrame recs).
Proof.
  intros Hready Hpresent.
  destruct (index_of_present _ _ Hpresent) as [idx Hidx].
  destruct (index_of_Ok _ _ _ Hidx) as (ids & c & Hids & Hc & _).
  destruct Hready as (Hwf & Hrest) eqn:Hr. clear Hr.
  destruct Hrest as (_ & _ & Hlen & _).
  destruct (lookup_lt_is_Some_2 cosine_sim idx) as [row Hrow].
  { rewrite Hlen, <- (Hwf _ _ Hids). by eapply lookup_lt_Some. }
  destruct (collect_total df n m (tail (sorted_desc (enumerate row))) [])
    as [recs Hrecs].
  { eapply Forall_impl; [by eapply ready_candidates|].
    intros p Hp. simpl in Hp. by eapply ready_row. }
  exists idx, row, recs. split; [done|]. split; [done|]. split; [done|].
  unfold try_recommendations. rewrite Hidx.
  change (Ok idx ≫= ?f) with (f idx). cbv beta. rewrite Hrow.
  change (Ok row ≫= ?f) with (f row). cbv beta zeta. by rewrite Hrecs.
Qed.

(** C2, as the code has it. On a ready table, an error is reported
    (through [st.error]) exactly when the course is absent, and then the
    query returns the empty frame.  When the course is present and no row
    passes the filter, the query reports nothing and returns the empty
    frame too: the value returned is the same, and the two outcomes differ
    in the reported error only. *)
Theorem get_recommendations_error_iff_absent course_id df cosine_sim (n m : Z) :
  query_ready df cosine_sim →
  ((get_recommendations course_id df cosine_sim n m).2 ≠ [] ↔
   ¬ present course_id df) ∧
  (¬ present course_id df →
   get_recommendations course_id df cosine_sim n m
   = (pd_DataFrame [], [IndexError])) ∧
  (present course_id df →
   (∀ i course, iloc df i = Ok course → passes course m = Ok false) →
   get_recommendations course_id df cosine_sim n m = (pd_DataFrame [], [])).
Proof.
  intros Hready.
  assert (Habsent : ¬ present course_id df →
    get_recommendations course_id df cosine_sim n m
    = (pd_DataFrame [], [IndexError])).
  { intros Hno. unfold get_recommendations, try_recommendations.
    rewrite index_of_absent; [done| |done].
    destruct Hready as (_ & Hreq & _). rewrite Forall_forall in Hreq.
    apply Hreq. unfold required_columns. rewrite !elem_of_cons. tauto. }
  assert (Hpresent : present course_id df →
    (get_recommendations course_id df cosine_sim n m).2 = []).
  { intros Hp.
    destruct (try_recommendations_present _ _ _ n m Hready Hp)
      as (idx & row & recs & _ & _ & _ & E).
    unfold get_recommendations. by rewrite E. }
  split; [split|split].
  - intros Herr Hp. by apply Herr, Hpresent.
  - intros Hno. by rewrite Habsent.
  - exact Habsent.
  - intros Hp Hnone.
    destruct (try_recommendations_present _ _ _ n m Hready Hp)
      as (idx & row & recs & _ & Hrow & Hrecs & E).
    unfold get_recommendations. rewrite E.
    rewrite collect_none in Hrecs.
    + by injection Hrecs as <-.
    + eapply Forall_impl; [by eapply ready_candidates|].
      intros p Hp'. simpl in Hp'.
      destruct (ready_row df cosine_sim m p.1 p.2 Hready Hp')
        as (course & Hc & _). exists course. split; [done|]. by eapply Hnone.
Qed.

Lemma three_courses_ready : query_ready three_courses (ones 3).
Proof.
  split; [compute_done|]. split.
  { unfold required_columns. repeat constructor; by eexists. }
  split.
  { intros s Hs. vm_compute in Hs. injection Hs as <-.
    repeat constructor; by eexists. }
  split; [reflexivity|]. repeat constructor.
Qed.

Lemma three_courses_present : present (CInt 1) three_courses.
Proof. exists (CInt <$> [1; 2; 3]%Z), 0, (CInt 1). repeat split. Qed.

Lemma three_courses_absent : ¬ present (CInt 9) three_courses.
Proof.
  intros (ids & i & c & Hids & Hi & Hc). vm_compute in Hids.
  injection Hids as <-.
  destruct i as [|[|[|i]]]; simpl in Hi; try discriminate;
    injection Hi as <-; discriminate Hc.
Qed.

Lemma get_recommendations_error_iff_absent_witness :
  ((get_recommendations (CInt 1) three_courses (ones 3) 5 5).2 ≠ [] ↔
   ¬ present (CInt 1) three_courses) ∧
  (¬ present (CInt 1) three_courses →
   get_recommendations (CInt 1) three_courses (ones 3) 5 5
   = (pd_DataFrame [], [IndexError])) ∧
  (present (CInt 1) three_courses →
   (∀ i course, iloc three_courses i = Ok course → passes course 5 = Ok false) →
   get_recommendations (CInt 1) three_courses (ones 3) 5 5 = (pd_DataFrame [], [])).
Proof.
  apply (get_recommendations_error_iff_absent (CInt 1) three_courses (ones 3) 5 5).
  exact three_courses_ready.
Defined.

(** C2, refuted as stated. Course 9 is not in [three_courses] and
    course 1 is; with a minimum of 1000 reviews no course passes the
    filter.  The two queries return the same value, the empty frame: what
    is returned does not tell an absent course from an empty result. *)
Lemma get_recommendations_absent_returns_empty :
  ¬ present (CInt 9) three_courses ∧ present (CInt 1) three_courses ∧
  get_recommendations (CInt 9) three_courses (ones 3) 5 5
    = (pd_DataFrame [], [IndexError]) ∧
  get_recommendations (CInt 1) three_courses (ones 3) 5 1000
    = (pd_DataFrame [], []) ∧
  (get_recommendations (CInt 9) three_courses (ones 3) 5 5).1
    = (get_recommendations (CInt 1) three_courses (ones 3) 5 1000).1.
Proof.
  split; [exact three_courses_absent|]. split; [exact three_courses_present|].
  repeat split; vm_compute; reflexivity.
Qed.

(** ** The similarity matrix *)










(** What a run of [build_recommender] that found the cache empty and
    raised nothing did. *)
Lemma build_recommender_inv fit_transform (_df df : loc) (σ σ' : store) cosine_sim
    cached' :
  build_recommender fit_transform _df None σ = (Ok (cosine_sim, df, cached'), σ') →
  ∃ f content docs tfidf_matrix,
    σ !! _df = Some f ∧ df = length σ ∧
    content_column f = Ok content ∧
    traverse as_str content = Ok docs ∧
    fit_transform docs = Ok tfidf_matrix ∧
    cosine_sim = cosine_similarity tfidf_matrix tfidf_matrix ∧
    cached' = Some (cosine_sim, df) ∧
    σ' = σ ++ [setcol "content" content f].
Proof.
  unfold build_recommender. rewrite bindM_run. unfold copy at 1.
  destruct (σ !! _df) as [f|] eqn:Hf; [|discriminate].
  rewrite bindM_run, assign_last.
  destruct (content_column f) as [content|] eqn:Hc; [|discriminate].
  rewrite bindM_run, load_last, bindM_run. unfold lift at 1.
  unfold getitem. rewrite cols_setcol_eq.
  rewrite bindM_run. unfold lift at 1.
  destruct (traverse as_str content) as [docs|] eqn:Hd; [|discriminate].
  rewrite bindM_run. unfold lift at 1.
  destruct (fit_transform docs) as [tfidf|] eqn:Ht; [|discriminate].
  intros [= <- <- <- <-].
  by exists f, content, docs, tfidf.
Qed.

(** A run that finds the cache filled returns the entry and runs
    nothing. *)
Lemma build_recommender_hit fit_transform (_df : loc) (σ : store) hit :
  build_recommender fit_transform _df (Some hit) σ = (Ok (hit, Some hit), σ).
Proof. reflexivity. Qed.

(** The reachable states of the cache are closed under the calls. *)
Lemma build_recommender_cached_by fit_transform (_df : loc) (σ σ' : store)
    cached cached' r :
  cached_by fit_transform cached →
  build_recommender fit_transform _df cached σ = (Ok (r, cached'), σ') →
  cached' = Some r ∧ cached_by fit_transform cached'.
Proof.
  intros Hc E. destruct cached as [hit|].
  - rewrite build_recommender_hit in E. injection E as <- <- <-. by split.
  - destruct r as [cosine_sim df].
    destruct (build_recommender_inv _ _ _ _ _ _ _ E)
      as (_ & _ & _ & _ & _ & _ & _ & _ & _ & _ & -> & _).
    split; [done|]. by exists _df, σ, σ'.
Qed.


(** Conversely, the builder returns when the texts can be built and
    the vectorizer returns. *)
Lemma build_recommender_run fit_transform (_df : loc) (σ : store)
    f content docs tfidf_matrix :
  σ !! _df = Some f →
  content_column f = Ok content →
  traverse as_str content = Ok docs →
  fit_transform docs = Ok tfidf_matrix →
  build_recommender fit_transform _df None σ
  = (Ok (cosine_similarity tfidf_matrix tfidf_matrix, length σ,
         Some (cosine_similarity tfidf_matrix tfidf_matrix, length σ)),
     σ ++ [setcol "content" content f]).
Proof.
  intros Hf Hc Hd Ht.
  unfold build_recommender. rewrite bindM_run. unfold copy at 1. rewrite Hf.
  rewrite bindM_run, assign_last, Hc.
  rewrite bindM_run, load_last, bindM_run. unfold lift at 1.
  unfold getitem. rewrite cols_setcol_eq.
  rewrite bindM_run. unfold lift at 1. rewrite Hd.
  rewrite bindM_run. unfold lift at 1. rewrite Ht.
  reflexivity.
Qed.

Lemma build_python_and_the :
  build_recommender one_term_vectorizer 0 None [python_and_the]
  = (Ok (cosine_similarity [[1%R]; [0%R]] [[1%R]; [0%R]], 1,
         Some (cosine_similarity [[1%R]; [0%R]] [[1%R]; [0%R]], 1)),
     [python_and_the;
      setcol "content" [CStr "Python "; CStr "the "] python_and_the]).
Proof.
  apply (build_recommender_run one_term_vectorizer 0 [python_and_the]
           python_and_the [CStr "Python "; CStr "the "] ["Python "; "the "]);
    reflexivity.
Qed.



(** ** Enrichment returns *)

Lemma traverse_is_Ok {A B} (f : A → result B) l :
  Forall (λ a, ∃ b, f a = Ok b) l → ∃ l', traverse f l = Ok l'.
Proof.
  induction 1 as [|a l [b Hb] _ [l' Hl']]; [by exists []|].
  exists (b :: l'). simpl. rewrite Hb. simpl. by rewrite Hl'.
Qed.

Lemma cell_cmp_total cmp c d : numeric c → numeric d → ∃ b, cell_cmp cmp c d = Ok b.
Proof. intros [x Hx] [y Hy]. unfold cell_cmp. rewrite Hx, Hy. by eexists. Qed.

Lemma numeric_CInt z : numeric (CInt z).
Proof. by eexists. Qed.

Lemma calculate_confidence_level_total c :
  numeric c → ∃ level, calculate_confidence_level c = Ok level.
Proof.
  intros Hc. unfold calculate_confidence_level, cell_ge.
  destruct (cell_cmp_total (λ x y, fle y x) c (CInt 100) Hc (numeric_CInt _))
    as [[] ->]; simpl; [by eexists|].
  destruct (cell_cmp_total (λ x y, fle y x) c (CInt 20) Hc (numeric_CInt _))
    as [[] ->]; simpl; [by eexists|].
  destruct (cell_cmp_total (λ x y, fle y x) c (CInt 5) Hc (numeric_CInt _))
    as [[] ->]; simpl; by eexists.
Qed.

Lemma engagement_total (row : gmap string cell) subs reviews :
  row !! "num_subscribers" = Some subs → numeric subs →
  row !! "num_reviews" = Some reviews → numeric reviews →
  ∃ e, engagement row = Ok e.
Proof.
  intros Hs Hns Hr [x Hx]. unfold engagement, row_getitem, cell_gt.
  rewrite Hs. simpl.
  destruct (cell_cmp_total (λ x y, flt y x) subs (CInt 0) Hns (numeric_CInt _))
    as [[] ->]; simpl; [|by eexists].
  rewrite Hr. simpl. rewrite Hx. simpl. destruct Hns as [y ->]. by eexists.
Qed.

Lemma series_cmp_total cmp s d :
  Forall numeric s → numeric d → ∃ u, series_cmp (cell_cmp cmp) s d = Ok u.
Proof.
  intros Hs Hd. apply traverse_is_Ok.
  eapply Forall_impl; [exact Hs|]. intros c Hc. simpl.
  destruct (cell_cmp_total cmp c d Hc Hd) as [b ->]. by eexists.
Qed.

Lemma suspicious_flags_total f rate subs :
  cols f !! "review_rate" = Some rate → Forall numeric rate →
  cols f !! "num_subscribers" = Some subs → Forall numeric subs →
  ∃ sus, suspicious_flags f = Ok sus.
Proof.
  intros Hr%getitem_Ok Hnr Hs%getitem_Ok Hns. unfold suspicious_flags.
  rewrite Hr. simpl.
  destruct (series_cmp_total (λ x y, fle y x) rate (CFloat (Fin (99 # 100))) Hnr
              (numeric_CFloat _)) as [high Hhigh].
  unfold cell_ge. rewrite Hhigh. simpl. rewrite Hs. simpl.
  destruct (series_cmp_total flt subs (CInt 50) Hns (numeric_CInt _)) as [few Hfew].
  unfold cell_lt. rewrite Hfew. by eexists.
Qed.

Lemma apply_rows_engagement_total g subs reviews :
  cols g !! "num_subscribers" = Some subs → Forall numeric subs →
  length subs = nrows g →
  cols g !! "num_reviews" = Some reviews → Forall numeric reviews →
  length reviews = nrows g →
  ∃ eps, apply_rows g engagement = Ok eps.
Proof.
  intros Hs Hns Hls Hr Hnr Hlr. apply traverse_is_Ok.
  apply Forall_forall. intros i Hi. apply elem_of_seq in Hi as [_ Hi].
  simpl in Hi. unfold iloc. rewrite decide_True by done. simpl.
  destruct (lookup_lt_is_Some_2 subs i) as [x Hx]; [lia|].
  destruct (lookup_lt_is_Some_2 reviews i) as [y Hy]; [lia|].
  eapply engagement_total.
  - rewrite lookup_omap, Hs. exact Hx.
  - rewrite Forall_forall in Hns. apply Hns. by eapply list_elem_of_lookup_2.
  - rewrite lookup_omap, Hr. exact Hy.
  - rewrite Forall_forall in Hnr. apply Hnr. by eapply list_elem_of_lookup_2.
Qed.

(** X1. [enhance_dataframe] returns on every enrichable table, with the
    copy as the one new frame of the store. *)
Theorem enhance_dataframe_total (df : loc) (σ : store) (f : frame) :
  σ !! df = Some f → enrichable f →
  ∃ g, enhance_dataframe df σ = (Ok (length σ), σ ++ [g]).
Proof.
  intros Hf (Hwf & Hcols & Hq).
  rewrite !Forall_cons in Hcols.
  destruct Hcols as ((pops & Hpops & Hnp) & (revs & Hrevs & Hnr) &
                     (subs & Hsubs & Hns) & (rate & Hrate & Hnrate) & _).
  unfold enhance_dataframe. rewrite bindM_run. unfold copy at 1. rewrite Hf.
  rewrite bindM_run, assign_last.
  destruct (calculate_bayesian_average_total f "popularity_score" "num_reviews" 10
              pops revs Hpops Hrevs Hnp Hnr) as [bp ->].
  rewrite bindM_run, load_last, bindM_run.
  set (f1 := setcol "bayesian_popularity" bp f).
  assert (Hstep : ∃ g1,
      (if decide (is_Some (cols f1 !! "quality_score"))
       then assign (length σ) "bayesian_quality"
              (λ f, calculate_bayesian_average f "quality_score" "num_reviews" 10)
       else mret ()) (σ ++ [f1]) = (Ok (), σ ++ [g1]) ∧ quality_step f1 g1).
  { destruct (decide _) as [Hs|Hn].
    - rewrite assign_last. unfold f1 in *.
      rewrite calculate_bayesian_average_setcol by done.
      rewrite cols_setcol_ne in Hs by done. destruct Hs as [qs Hqs].
      destruct (calculate_bayesian_average_total f "quality_score" "num_reviews" 10
                  qs revs Hqs Hrevs (Hq _ Hqs) Hnr) as [bq Hbq].
      rewrite Hbq. eexists. split; [reflexivity|]. right.
      split; [rewrite cols_setcol_ne by done; by eexists|].
      exists bq. split; [|done]. by rewrite calculate_bayesian_average_setcol.
    - exists f1. split; [done|]. left. split; [by apply eq_None_not_Some | done]. }
  destruct Hstep as (g1 & -> & Hg1).
  assert (Hbase : ∀ c, "bayesian_popularity" ≠ c → "bayesian_quality" ≠ c →
                       cols g1 !! c = cols f !! c).
  { intros c H1 H2. rewrite (quality_step_cols _ _ _ Hg1) by done.
    unfold f1. by rewrite cols_setcol_ne. }
  assert (Hrows : nrows g1 = nrows f) by by rewrite (quality_step_nrows _ _ Hg1).
  rewrite bindM_run, assign_last.
  unfold getitem at 1. rewrite Hbase, Hrevs by done.
  destruct (traverse_is_Ok calculate_confidence_level revs) as [cl Hcl].
  { eapply Forall_impl; [exact Hnr|]. apply calculate_confidence_level_total. }
  change (Ok revs ≫= ?k) with (k revs). cbv beta. rewrite Hcl.
  rewrite bindM_run, assign_last.
  destruct (apply_rows_engagement_total (setcol "confidence_level" cl g1) subs revs)
    as [eps ->].
  { by rewrite cols_setcol_ne, Hbase. }
  { done. }
  { simpl. rewrite Hrows. by apply (Hwf _ _ Hsubs). }
  { by rewrite cols_setcol_ne, Hbase. }
  { done. }
  { simpl. rewrite Hrows. by apply (Hwf _ _ Hrevs). }
  rewrite bindM_run, assign_last.
  destruct (suspicious_flags_total
              (setcol "engagement_per_subscriber" eps
                 (setcol "confidence_level" cl g1)) rate subs) as [sus ->].
  { by rewrite !cols_setcol_ne, Hbase. }
  { done. }
  { by rewrite !cols_setcol_ne, Hbase. }
  { done. }
  by eexists.
Qed.

Lemma courses_ABC_enrichable : enrichable courses_ABC.
Proof.
  split; [compute_done|]. split.
  - repeat constructor; eexists; (split; [reflexivity|]);
      repeat constructor; by eexists.
  - intros s Hs. vm_compute in Hs. injection Hs as <-.
    repeat constructor; by eexists.
Qed.

Lemma enhance_dataframe_total_witness :
  ∃ g, enhance_dataframe 0 [courses_ABC] = (Ok 1, [courses_ABC] ++ [g]).
Proof.
  apply (enhance_dataframe_total 0 [courses_ABC] courses_ABC).
  - reflexivity.
  - exact courses_ABC_enrichable.
Defined.

(** ** When the query course is excluded *)

Lemma before_asym a b : before a b → before b a → False.
Proof.
  intros [H1|[H1 H1']] [H2|[H2 H2']].
  - by apply (Qlt_irrefl a.2), (Qlt_trans _ b.2).
  - rewrite H2 in H1. by apply (Qlt_irrefl a.2).
  - rewrite H1 in H2. by apply (Qlt_irrefl b.2).
  - lia.
Qed.

Lemma fst_enumerate_from k row : (enumerate_from k row).*1 = seq k (length row).
Proof.
  revert k. induction row as [|x row IH]; intros k; simpl; [done|].
  by rewrite IH.
Qed.

(** In a sorted list of candidates of distinct rows, a candidate that
    goes before all others is the first. *)
Lemma sorted_head l x :
  StronglySorted before l → NoDup l.*1 → x ∈ l →
  (∀ y, y ∈ l → y.1 ≠ x.1 → before x y) →
  ∃ t, l = x :: t.
Proof.
  intros Hs Hnd Hx Hfirst. destruct l as [|h t].
  { by apply elem_of_nil in Hx. }
  apply StronglySorted_cons in Hs as [Hh _].
  rewrite fmap_cons in Hnd. apply NoDup_cons in Hnd as [Hnot _].
  apply elem_of_cons in Hx as [->|Hx]; [by exists t|].
  destruct (decide (h.1 = x.1)) as [E|E].
  - destruct Hnot. rewrite E. apply list_elem_of_fmap. by exists x.
  - exfalso. apply (before_asym x h).
    + apply Hfirst; [apply elem_of_cons; by left | done].
    + rewrite Forall_forall in Hh. by apply Hh.
Qed.

(** The slice [sim_scores[1:]] drops the query course when its own
    similarity is above that of every earlier row and not below that of
    any later row. *)
Lemma candidates_without_query (row : list Q) idx s :
  row !! idx = Some s →
  (∀ j x, row !! j = Some x → j < idx → (x < s)%Q) →
  (∀ j x, row !! j = Some x → idx < j → (x <= s)%Q) →
  Forall (λ p, p.1 ≠ idx) (tail (sorted_desc (enumerate row))).
Proof.
  intros Hs Hlt Hle.
  assert (Hnd : NoDup (sorted_desc (enumerate row)).*1).
  { rewrite sorted_desc_perm. unfold enumerate. rewrite fst_enumerate_from.
    apply NoDup_seq. }
  assert (Hin : ∀ j x, (j, x) ∈ sorted_desc (enumerate row) ↔ row !! j = Some x).
  { intros j x. rewrite sorted_desc_perm. unfold enumerate.
    rewrite elem_of_enumerate_from, Nat.sub_0_r. split; [by intros [_ ?]|].
    intros ?. split; [lia | done]. }
  destruct (sorted_head (sorted_desc (enumerate row)) (idx, s)) as [t Ht].
  - apply sorted_desc_enumerate_from.
  - exact Hnd.
  - by apply Hin.
  - intros [j x] Hy Hne. simpl in Hne. apply Hin in Hy.
    destruct (decide (j < idx)) as [Hj|Hj].
    + left. simpl. by eapply Hlt.
    + assert (Hx : (x <= s)%Q) by (eapply Hle; [done | lia]).
      destruct (Qlt_le_dec x s) as [Hl|Hl]; [by left|].
      right. simpl. split; [by apply Qle_antisym | lia].
  - rewrite Ht in Hnd |- *. simpl. rewrite fmap_cons in Hnd.
    apply NoDup_cons in Hnd as [Hnot _]. simpl in Hnot.
    apply Forall_forall. intros p Hp Hidx. apply Hnot.
    apply list_elem_of_fmap. by exists p.
Qed.

(** X2. The exclusion of the query course, where the code achieves it: the
    row of the matrix puts the query course strictly above the rows before
    it and not below the rows after it, and no other row has its
    identity.  Then no row of the result has the identity of the query
    course. *)
Theorem get_recommendations_excludes_query course_id df cosine_sim (n m : Z)
    idx row s :
  index_of course_id df = Ok idx →
  cosine_sim !! idx = Some row →
  row !! idx = Some s →
  (∀ j x, row !! j = Some x → j < idx → (x < s)%Q) →
  (∀ j x, row !! j = Some x → idx < j → (x <= s)%Q) →
  (∀ ids j c, cols df !! "course_id" = Some ids → ids !! j = Some c →
              cell_eqb c course_id = true → j = idx) →
  Forall (λ c, cell_eqb c course_id = false)
    (default [] (cols (get_recommendations course_id df cosine_sim n m).1
                   !! "course_id")).
Proof.
  intros Hidx Hrow Hs Hlt Hle Huniq.
  destruct (cols (get_recommendations course_id df cosine_sim n m).1
              !! "course_id") as [col|] eqn:Hcol0; [|constructor].
  simpl. revert Hcol0.
  unfold get_recommendations.
  destruct (try_recommendations _ _ _ _ _) as [g|e] eqn:E; cbn [fst].
  - destruct (try_recommendations_Ok _ _ _ _ _ _ E)
      as (idx' & row' & picked & recs & Hidx' & Hrow' & _ & Hsub & Hall & ->).
    assert (idx' = idx) as -> by congruence.
    assert (row' = row) as -> by congruence.
    intros [_ ->]%cols_pd_DataFrame.
    destruct (index_of_Ok _ _ _ Hidx) as (ids & _ & Hids & _ & _).
    pose proof (admitted_course_id_column _ _ _ _ _ Hids Hall) as Hcol.
    pose proof (candidates_without_query row idx s Hs Hlt Hle) as Hne.
    apply Forall_forall. intros c Hc.
    apply list_elem_of_lookup_1 in Hc as [k Hk].
    destruct (Forall2_lookup_r _ _ _ _ _ Hcol Hk) as (p & Hp & Hpc).
    rewrite Forall_forall in Hne.
    assert (Hpidx : p.1 ≠ idx).
    { apply Hne. eapply elem_of_sublist; [|exact Hsub].
      by eapply list_elem_of_lookup_2. }
    destruct (cell_eqb c course_id) eqn:Heq; [|done].
    destruct Hpidx. by eapply Huniq.
  - intros [(r & Hr & _) _]%cols_pd_DataFrame. by apply elem_of_nil in Hr.
Qed.

Lemma get_recommendations_excludes_query_witness :
  Forall (λ c, cell_eqb c (CInt 1) = false)
    (default [] (cols (get_recommendations (CInt 1) four_courses
                         [[1; 1 # 2; 1; 1 # 2]; [1 # 2; 1; 1 # 2; 1];
                          [1; 1 # 2; 1; 1 # 2]; [1 # 2; 1; 1 # 2; 1]]%Q 3 5).1
                   !! "course_id")).
Proof.
  apply (get_recommendations_excludes_query (CInt 1) four_courses
           [[1; 1 # 2; 1; 1 # 2]; [1 # 2; 1; 1 # 2; 1];
            [1; 1 # 2; 1; 1 # 2]; [1 # 2; 1; 1 # 2; 1]]%Q 3 5
           0 [1; 1 # 2; 1; 1 # 2]%Q 1%Q).
  - reflexivity.
  - reflexivity.
  - reflexivity.
  - intros j x _ Hj. lia.
  - intros j x Hx _.
    destruct j as [|[|[|[|j]]]]; simpl in Hx; try discriminate;
      injection Hx as <-; unfold Qle; simpl; lia.
  - intros ids j c Hids Hj Hc. vm_compute in Hids. injection Hids as <-.
    destruct j as [|[|[|[|j]]]]; simpl in Hj; try discriminate;
      injection Hj as <-; first [reflexivity | discriminate Hc].
Defined.

(** ** Bounds of the Bayesian average *)

Lemma shrink_weights (v m : Q) :
  (0 <= v)%Q → (0 < m)%Q →
  (0 <= v / (v + m))%Q ∧ (0 < m / (v + m))%Q ∧
  (v / (v + m) + m / (v + m) == 1)%Q.
Proof.
  intros Hv Hm.
  assert (Hd : (0 < v + m)%Q) by lra.
  assert (Hi : (0 < / (v + m))%Q) by by apply Qinv_lt_0_compat.
  unfold Qdiv. split; [|split].
  - apply Qmult_le_0_compat; lra.
  - apply Qmult_lt_0_compat; lra.
  - field. lra.
Qed.

Lemma shrink_between (r c v m : Q) :
  (0 <= v)%Q → (0 < m)%Q →
  (r <= shrink r v c m <= c)%Q ∨ (c <= shrink r v c m <= r)%Q.
Proof.
  intros Hv Hm. destruct (shrink_weights v m Hv Hm) as (Ha & Hb & Hab).
  unfold shrink. set (a := (v / (v + m))%Q) in *. set (b := (m / (v + m))%Q) in *.
  assert (Ea : (a == 1 - b)%Q) by lra.
  destruct (Qlt_le_dec c r) as [Hc|Hc]; [right | left]; rewrite Ea; nra.
Qed.

Lemma shrink_no_evidence (r c m : Q) : (0 < m)%Q → (shrink r 0 c m == c)%Q.
Proof. intros Hm. unfold shrink. field. lra. Qed.

(** The distance to the raw score is the prior's weight times the
    distance of the mean to the raw score. *)
Lemma shrink_distance (r c v m : Q) :
  (0 <= v)%Q → (0 < m)%Q →
  (shrink r v c m - r == m / (v + m) * (c - r))%Q.
Proof. intros Hv Hm. unfold shrink. field. lra. Qed.

Lemma prior_weight_antitone (v1 v2 m : Q) :
  (0 <= v1)%Q → (v1 <= v2)%Q → (0 < m)%Q →
  (0 <= m / (v2 + m) <= m / (v1 + m))%Q.
Proof.
  intros H1 H12 Hm.
  assert (Hd1 : (0 < v1 + m)%Q) by lra.
  assert (Hd2 : (0 < v2 + m)%Q) by lra.
  split.
  - apply Qle_shift_div_l; [done | lra].
  - apply Qle_shift_div_l; [done|].
    assert (E : (m / (v2 + m) * (v1 + m) == m * (v1 + m) / (v2 + m))%Q)
      by (field; lra).
    rewrite E. apply Qle_shift_div_r; [done|]. nra.
Qed.

Lemma shrink_closer (r c v1 v2 m : Q) :
  (0 <= v1)%Q → (v1 <= v2)%Q → (0 < m)%Q →
  (Qabs (shrink r v2 c m - r) <= Qabs (shrink r v1 c m - r))%Q.
Proof.
  intros H1 H12 Hm.
  rewrite !shrink_distance by lra. rewrite !Qabs_Qmult.
  destruct (prior_weight_antitone v1 v2 m H1 H12 Hm) as [Hw2 Hw12].
  rewrite (Qabs_pos (m / (v2 + m))) by done.
  rewrite (Qabs_pos (m / (v1 + m))) by lra.
  apply Qmult_le_compat_r; [done | apply Qabs_nonneg].
Qed.

(** X3. In exact arithmetic (the floats of the embedding are exact
    rationals; the rounding of a double can move a score by an ulp), the
    adjusted score of a row with a non-negative review count [v], with
    [v + m] an [int64], lies between its raw score and the mean of the
    column; with no review it is the mean. *)
Theorem bayesian_average_between df sc (m : Z) adj scores counts raws i r v :
  calculate_bayesian_average df sc "num_reviews" m = Ok adj →
  cols df !! sc = Some scores →
  cols df !! "num_reviews" = Some counts →
  Forall2 (λ c r, num_of c = Ok (Fin r)) scores raws →
  raws !! i = Some r → counts !! i = Some (CInt v) →
  (0 ≤ v)%Z → (0 < m)%Z → int64 (v + m) →
  ∃ q, adj !! i = Some (CFloat (Fin q)) ∧
       ((r <= q <= arithmetic_mean raws)%Q ∨ (arithmetic_mean raws <= q <= r)%Q) ∧
       (v = 0%Z → (q == arithmetic_mean raws)%Q).
Proof.
  intros Hadj Hs Hc Hfin Hr Hv Hv0 Hm Hint.
  destruct (calculate_bayesian_average_shrink _ _ _ _ Hadj _ _ _ Hs Hc Hfin)
    as [_ Hrow].
  destruct (Hrow i r v Hr Hv ltac:(lia) Hint) as (q & Hq & Heq).
  assert (Hv' : (0 <= inject_Z v)%Q).
  { change 0%Q with (inject_Z 0). by rewrite <- Zle_Qle. }
  assert (Hm' : (0 < inject_Z m)%Q).
  { change 0%Q with (inject_Z 0). by rewrite <- Zlt_Qlt. }
  exists q. split; [done|]. rewrite Heq. split.
  - by apply shrink_between.
  - intros ->. by apply shrink_no_evidence.
Qed.

(** X4. In exact arithmetic (the floats of the embedding are exact
    rationals; the rounding of a double can move a score by an ulp), of
    two rows with the same raw score and review counts [v1 <= v2], with
    [v2 + m] an [int64], the one with more reviews has its adjusted score
    at least as close to the raw score. *)
Theorem bayesian_average_closer_with_reviews df sc (m : Z) adj scores counts raws
    i j r v1 v2 :
  calculate_bayesian_average df sc "num_reviews" m = Ok adj →
  cols df !! sc = Some scores →
  cols df !! "num_reviews" = Some counts →
  Forall2 (λ c r, num_of c = Ok (Fin r)) scores raws →
  raws !! i = Some r → raws !! j = Some r →
  counts !! i = Some (CInt v1) → counts !! j = Some (CInt v2) →
  (0 ≤ v1 ≤ v2)%Z → (0 < m)%Z → int64 (v2 + m) →
  ∃ q1 q2, adj !! i = Some (CFloat (Fin q1)) ∧ adj !! j = Some (CFloat (Fin q2)) ∧
           (Qabs (q2 - r) <= Qabs (q1 - r))%Q.
Proof.
  intros Hadj Hs Hc Hfin Hri Hrj Hvi Hvj Hv Hm Hint.
  destruct (calculate_bayesian_average_shrink _ _ _ _ Hadj _ _ _ Hs Hc Hfin)
    as [_ Hrow].
  destruct (Hrow i r v1 Hri Hvi ltac:(lia) ltac:(unfold int64 in *; lia))
    as (q1 & Hq1 & E1).
  destruct (Hrow j r v2 Hrj Hvj ltac:(lia) Hint) as (q2 & Hq2 & E2).
  exists q1, q2. split; [done|]. split; [done|]. rewrite E1, E2.
  apply shrink_closer.
  - change 0%Q with (inject_Z 0). rewrite <- Zle_Qle. lia.
  - rewrite <- Zle_Qle. lia.
  - change 0%Q with (inject_Z 0). by rewrite <- Zlt_Qlt.
Qed.

Lemma bayesian_average_between_witness :
  ∃ adj, calculate_bayesian_average courses_ABC "popularity_score" "num_reviews" 10
         = Ok adj ∧
    ∃ q, adj !! 1 = Some (CFloat (Fin q)) ∧
         (((1 # 10) <= q <= arithmetic_mean [(9 # 10)%Q; (1 # 10)%Q; (1 # 2)%Q])%Q ∨
          (arithmetic_mean [(9 # 10)%Q; (1 # 10)%Q; (1 # 2)%Q] <= q <= (1 # 10))%Q) ∧
         (2%Z = 0%Z → (q == arithmetic_mean [(9 # 10)%Q; (1 # 10)%Q; (1 # 2)%Q])%Q).
Proof.
  eexists. split; [vm_compute; reflexivity|].
  eapply (bayesian_average_between courses_ABC "popularity_score" 10 _ _ _
            [(9 # 10)%Q; (1 # 10)%Q; (1 # 2)%Q] 1 (1 # 10)%Q 2).
  - vm_compute. reflexivity.
  - reflexivity.
  - reflexivity.
  - repeat constructor.
  - reflexivity.
  - reflexivity.
  - lia.
  - lia.
  - unfold int64. lia.
Defined.

Lemma bayesian_average_closer_with_reviews_witness :
  ∃ adj, calculate_bayesian_average equal_scores "popularity_score" "num_reviews" 10
         = Ok adj ∧
    ∃ q1 q2, adj !! 0 = Some (CFloat (Fin q1)) ∧ adj !! 1 = Some (CFloat (Fin q2)) ∧
             (Qabs (q2 - (1 # 5)) <= Qabs (q1 - (1 # 5)))%Q.
Proof.
  eexists. split; [vm_compute; reflexivity|].
  eapply (bayesian_average_closer_with_reviews equal_scores "popularity_score" 10
            _ _ _ [(1 # 5)%Q; (1 # 5)%Q; (4 # 5)%Q] 0 1 (1 # 5)%Q 2 50).
  - vm_compute. reflexivity.
  - reflexivity.
  - reflexivity.
  - repeat constructor.
  - reflexivity.
  - reflexivity.
  - reflexivity.
  - reflexivity.
  - lia.
  - lia.
  - unfold int64. lia.
Defined.

(** ** Enriching an enriched table *)

Lemma setcol_id c s h : cols h !! c = Some s → setcol c s h = h.
Proof.
  intros H. destruct h as [n m]. unfold setcol. simpl in *.
  by rewrite insert_id.
Qed.

Lemma calculate_bayesian_average_ext f g sc cc m :
  cols f !! sc = cols g !! sc → cols f !! cc = cols g !! cc →
  calculate_bayesian_average f sc cc m = calculate_bayesian_average g sc cc m.
Proof.
  intros H1 H2. unfold calculate_bayesian_average, getitem. by rewrite H1, H2.
Qed.

Lemma apply_rows_engagement_ext f g :
  nrows f = nrows g →
  cols f !! "num_subscribers" = cols g !! "num_subscribers" →
  cols f !! "num_reviews" = cols g !! "num_reviews" →
  apply_rows f engagement = apply_rows g engagement.
Proof.
  intros Hn Hs Hr. unfold apply_rows. rewrite Hn. apply traverse_ext.
  apply Forall_forall. intros i _. unfold iloc. rewrite Hn.
  destruct (decide (i < nrows g)); [|done]. simpl.
  unfold engagement, row_getitem. by rewrite !lookup_omap, Hs, Hr.
Qed.

(** The run of [enhance_dataframe], forwards: when the five right-hand
    sides evaluate, it returns the frame with the five columns. *)
Lemma enhance_dataframe_run (df : loc) (σ : store) f bp g1 cl eps sus :
  σ !! df = Some f →
  calculate_bayesian_average f "popularity_score" "num_reviews" 10 = Ok bp →
  quality_step (setcol "bayesian_popularity" bp f) g1 →
  (r ← getitem g1 "num_reviews"; traverse calculate_confidence_level r) = Ok cl →
  apply_rows (setcol "confidence_level" cl g1) engagement = Ok eps →
  suspicious_flags
    (setcol "engagement_per_subscriber" eps (setcol "confidence_level" cl g1))
    = Ok sus →
  enhance_dataframe df σ
  = (Ok (length σ),
     σ ++ [setcol "is_suspicious" sus
             (setcol "engagement_per_subscriber" eps
                (setcol "confidence_level" cl g1))]).
Proof.
  intros Hf Hbp Hq Hcl Heps Hsus.
  unfold enhance_dataframe. rewrite bindM_run. unfold copy at 1. rewrite Hf.
  rewrite bindM_run, assign_last, Hbp.
  rewrite bindM_run, load_last, bindM_run.
  set (f1 := setcol "bayesian_popularity" bp f) in *.
  assert (Hstep :
      (if decide (is_Some (cols f1 !! "quality_score"))
       then assign (length σ) "bayesian_quality"
              (λ f, calculate_bayesian_average f "quality_score" "num_reviews" 10)
       else mret ()) (σ ++ [f1]) = (Ok (), σ ++ [g1])).
  { destruct Hq as [[Hn ->]|[Hs (bq & Hbq & ->)]].
    - rewrite decide_False; [done|]. rewrite Hn. by intros [? ?].
    - rewrite decide_True by done. by rewrite assign_last, Hbq. }
  rewrite Hstep.
  rewrite bindM_run, assign_last, Hcl.
  rewrite bindM_run, assign_last, Heps.
  rewrite bindM_run, assign_last, Hsus.
  reflexivity.
Qed.

(** A frame that agrees with an enriched table on the columns the
    enrichment reads and assigns is enriched to a copy of itself. *)
Lemma enhance_dataframe_again (df d1 : loc) (σ σ1 : store) g
    (l : loc) (σ' : store) h :
  enhance_dataframe df σ = (Ok d1, σ1) → σ1 !! d1 = Some g →
  σ' !! l = Some h → nrows h = nrows g →
  (∀ c, c ∈ enrichment_columns → cols h !! c = cols g !! c) →
  enhance_dataframe l σ' = (Ok (length σ'), σ' ++ [h]).
Proof.
  intros E Hg Hh Hn Hcols.
  destruct (enhance_dataframe_inv _ _ _ _ E)
    as (f & bp & g1 & cl & eps & sus & Hf & -> & Hbp & Hq & Hcl & Heps & Hsus & ->).
  rewrite list_lookup_middle in Hg by done. injection Hg as <-.
  set (g := setcol "is_suspicious" sus
              (setcol "engagement_per_subscriber" eps
                 (setcol "confidence_level" cl g1))) in *.
  assert (Hin : ∀ c, c ∈ enrichment_columns ↔
    c = "popularity_score" ∨ c = "quality_score" ∨ c = "num_reviews" ∨
    c = "num_subscribers" ∨ c = "review_rate" ∨ c = "bayesian_popularity" ∨
    c = "bayesian_quality" ∨ c = "confidence_level" ∨
    c = "engagement_per_subscriber" ∨ c = "is_suspicious").
  { intros c. unfold enrichment_columns, derived_columns. simpl.
    rewrite !elem_of_cons, elem_of_nil. tauto. }
  (* the columns of the enriched table *)
  assert (Gbase : ∀ c, c ∉ derived_columns → cols g !! c = cols f !! c).
  { intros c (H1 & H2 & H3 & H4 & H5)%not_derived. unfold g.
    rewrite !cols_setcol_ne by done.
    rewrite (quality_step_cols _ _ _ Hq) by done. by rewrite cols_setcol_ne. }
  assert (G1base : ∀ c, "bayesian_popularity" ≠ c → "bayesian_quality" ≠ c →
                        cols g1 !! c = cols f !! c).
  { intros c H1 H2. rewrite (quality_step_cols _ _ _ Hq) by done.
    by rewrite cols_setcol_ne. }
  assert (Gsus : cols g !! "is_suspicious" = Some sus) by apply cols_setcol_eq.
  assert (Geps : cols g !! "engagement_per_subscriber" = Some eps).
  { unfold g. rewrite cols_setcol_ne by done. apply cols_setcol_eq. }
  assert (Gcl : cols g !! "confidence_level" = Some cl).
  { unfold g. rewrite !cols_setcol_ne by done. apply cols_setcol_eq. }
  assert (Gbp : cols g !! "bayesian_popularity" = Some bp).
  { unfold g. rewrite !cols_setcol_ne by done.
    rewrite (quality_step_cols _ _ _ Hq) by done. apply cols_setcol_eq. }
  assert (Gn : nrows g = nrows f).
  { unfold g. simpl. by rewrite (quality_step_nrows _ _ Hq). }
  assert (Hnd : ∀ c, c ∈ ["popularity_score"; "quality_score"; "num_reviews";
                          "num_subscribers"; "review_rate"] →
                     c ∉ derived_columns).
  { intros c Hc. unfold derived_columns. rewrite !elem_of_cons, elem_of_nil in Hc.
    rewrite !not_elem_of_cons.
    destruct Hc as [->|[->|[->|[->|[->|[]]]]]]; repeat split;
      first [done | apply not_elem_of_nil]. }
  assert (Hbase : ∀ c, c ∈ ["popularity_score"; "quality_score"; "num_reviews";
                            "num_subscribers"; "review_rate"] →
                       cols h !! c = cols f !! c).
  { intros c Hc. rewrite Hcols, Gbase; [done | by apply Hnd |].
    apply Hin. rewrite !elem_of_cons, elem_of_nil in Hc. tauto. }
  assert (Hpop : cols h !! "popularity_score" = cols f !! "popularity_score")
    by (apply Hbase; rewrite !elem_of_cons; tauto).
  assert (Hqual : cols h !! "quality_score" = cols f !! "quality_score")
    by (apply Hbase; rewrite !elem_of_cons; tauto).
  assert (Hrev : cols h !! "num_reviews" = cols f !! "num_reviews")
    by (apply Hbase; rewrite !elem_of_cons; tauto).
  assert (Hsub : cols h !! "num_subscribers" = cols f !! "num_subscribers")
    by (apply Hbase; rewrite !elem_of_cons; tauto).
  assert (Hrate : cols h !! "review_rate" = cols f !! "review_rate")
    by (apply Hbase; rewrite !elem_of_cons; tauto).
  assert (Hder : ∀ c, c ∈ derived_columns → cols h !! c = cols g !! c).
  { intros c Hc. apply Hcols, Hin. unfold derived_columns in Hc.
    rewrite !elem_of_cons, elem_of_nil in Hc. tauto. }
  (* the second run recomputes the columns the frame has *)
  assert (S1 : setcol "bayesian_popularity" bp h = h).
  { apply setcol_id. rewrite Hder, Gbp; [done|].
    unfold derived_columns. rewrite !elem_of_cons. tauto. }
  assert (Hquality : quality_step h h).
  { destruct Hq as [[Hnone Hg1]|[Hsome (bq & Hbq & Hg1)]].
    - left. split; [|done]. rewrite cols_setcol_ne in Hnone by done.
      by rewrite Hqual.
    - right. rewrite cols_setcol_ne in Hsome by done.
      split; [by rewrite Hqual|]. exists bq. split.
      + rewrite <- Hbq. rewrite calculate_bayesian_average_setcol by done.
        by apply calculate_bayesian_average_ext.
      + symmetry. apply setcol_id. rewrite Hder.
        * unfold g. rewrite !cols_setcol_ne by done. rewrite Hg1.
          apply cols_setcol_eq.
        * unfold derived_columns. rewrite !elem_of_cons. tauto. }
  assert (S3 : setcol "confidence_level" cl h = h).
  { apply setcol_id. rewrite Hder, Gcl; [done|].
    unfold derived_columns. rewrite !elem_of_cons. tauto. }
  assert (S4 : setcol "engagement_per_subscriber" eps h = h).
  { apply setcol_id. rewrite Hder, Geps; [done|].
    unfold derived_columns. rewrite !elem_of_cons. tauto. }
  assert (S5 : setcol "is_suspicious" sus h = h).
  { apply setcol_id. rewrite Hder, Gsus; [done|].
    unfold derived_columns. rewrite !elem_of_cons. tauto. }
  rewrite (enhance_dataframe_run l σ' h bp h cl eps sus).
  - by rewrite S3, S4, S5.
  - done.
  - rewrite <- Hbp. by apply calculate_bayesian_average_ext.
  - by rewrite S1.
  - rewrite <- Hcl. unfold getitem. by rewrite Hrev, G1base.
  - rewrite S3, <- Heps. apply apply_rows_engagement_ext.
    + simpl. rewrite Hn, Gn. symmetry. by apply quality_step_nrows in Hq.
    + by rewrite cols_setcol_ne, Hsub, G1base.
    + by rewrite cols_setcol_ne, Hrev, G1base.
  - rewrite S3, S4, <- Hsus. apply suspicious_flags_ext.
    + by rewrite !cols_setcol_ne, Hrate, G1base.
    + by rewrite !cols_setcol_ne, Hsub, G1base.
Qed.

(** X5. Enriching an enriched table returns, and returns an equal
    table: the second run recomputes the five columns from the same
    inputs. *)
Theorem enhance_dataframe_idempotent (df d1 : loc) (σ σ1 : store) :
  enhance_dataframe df σ = (Ok d1, σ1) →
  ∃ g, σ1 !! d1 = Some g ∧
       enhance_dataframe d1 σ1 = (Ok (length σ1), σ1 ++ [g]).
Proof.
  intros E.
  destruct (enhance_dataframe_inv _ _ _ _ E)
    as (f & bp & g1 & cl & eps & sus & Hf & Hd1 & _ & _ & _ & _ & _ & Hσ1).
  eexists. split.
  { rewrite Hσ1, Hd1. by apply list_lookup_middle. }
  eapply enhance_dataframe_again; [exact E | | | done | done].
  - rewrite Hσ1, Hd1. by apply list_lookup_middle.
  - rewrite Hσ1, Hd1. by apply list_lookup_middle.
Qed.

Lemma enhance_dataframe_idempotent_witness :
  ∃ g, (enhance_dataframe 0 [courses_ABC]).2 !! 1 = Some g ∧
       enhance_dataframe 1 (enhance_dataframe 0 [courses_ABC]).2
       = (Ok (length (enhance_dataframe 0 [courses_ABC]).2),
          (enhance_dataframe 0 [courses_ABC]).2 ++ [g]).
Proof.
  apply (enhance_dataframe_idempotent 0 1 [courses_ABC]).
  vm_compute. reflexivity.
Defined.

(** ** The per-row columns of the enriched table *)

Lemma flt_inject_Z (a b : Z) : flt (fl_of_Z a) (fl_of_Z b) = (a <? b)%Z.
Proof.
  unfold flt, fl_of_Z. simpl. rewrite !Qle_bool_inject_Z.
  destruct (Z.ltb_spec a b), (Z.leb_spec a b), (Z.leb_spec b a); simpl; lia.
Qed.

Lemma engagement_int (row : gmap string cell) (r s : Z) :
  row !! "num_reviews" = Some (CInt r) →
  row !! "num_subscribers" = Some (CInt s) →
  engagement row
  = Ok (if (0 <? s)%Z then CFloat (Fin (inject_Z r / inject_Z s)) else CInt 0).
Proof.
  intros Hr Hs. unfold engagement, row_getitem, cell_gt, cell_cmp.
  rewrite Hs. simpl. rewrite flt_inject_Z.
  destruct (Z.ltb_spec 0 s) as [Hpos|Hneg]; simpl; [|done].
  rewrite Hr. simpl. unfold fl_of_Z.
  assert (E : Qeq_bool (inject_Z s) 0 = false).
  { destruct (Qeq_bool _ _) eqn:E; [|done].
    apply Qeq_bool_eq in E. unfold Qeq in E. simpl in E. lia. }
  by rewrite E.
Qed.

(** X6. In the enriched table, the confidence level of a row is the
    level of its review count, and the engagement of a row with integer
    counts is the quotient of reviews by subscribers when it has a
    subscriber and the integer 0 when it has none: it is never infinite
    and never NaN. *)
Theorem enhance_dataframe_rows (df d1 : loc) (σ σ1 : store) :
  enhance_dataframe df σ = (Ok d1, σ1) →
  ∃ f g reviews cl eps,
    σ !! df = Some f ∧ σ1 !! d1 = Some g ∧
    cols f !! "num_reviews" = Some reviews ∧
    cols g !! "confidence_level" = Some cl ∧
    cols g !! "engagement_per_subscriber" = Some eps ∧
    length cl = length reviews ∧ length eps = nrows f ∧
    (∀ i c, reviews !! i = Some c →
       ∃ level, cl !! i = Some level ∧ calculate_confidence_level c = Ok level) ∧
    (∀ i r s, i < nrows f → reviews !! i = Some (CInt r) →
       cols f !! "num_subscribers" ≫= (λ subs, subs !! i) = Some (CInt s) →
       eps !! i = Some (if (0 <? s)%Z
                        then CFloat (Fin (inject_Z r / inject_Z s))
                        else CInt 0)).
Proof.
  intros E.
  destruct (enhance_dataframe_inv _ _ _ _ E)
    as (f & bp & g1 & cl & eps & sus & Hf & -> & _ & Hq & Hcl & Heps & _ & ->).
  assert (G1base : ∀ c, "bayesian_popularity" ≠ c → "bayesian_quality" ≠ c →
                        cols g1 !! c = cols f !! c).
  { intros c H1 H2. rewrite (quality_step_cols _ _ _ Hq) by done.
    by rewrite cols_setcol_ne. }
  assert (Hn : nrows g1 = nrows f) by by rewrite (quality_step_nrows _ _ Hq).
  apply bind_Ok in Hcl as (reviews & Hrev%getitem_Ok & Hcl).
  rewrite G1base in Hrev by done.
  exists f. eexists. exists reviews, cl, eps.
  split; [done|]. split; [by apply list_lookup_middle|]. split; [done|].
  split; [rewrite !cols_setcol_ne by done; apply cols_setcol_eq|].
  split; [rewrite cols_setcol_ne by done; apply cols_setcol_eq|].
  split; [by apply traverse_length in Hcl|].
  split.
  { apply traverse_length in Heps. rewrite Heps, length_seq. simpl. exact Hn. }
  split.
  - intros i c Hc. destruct (traverse_lookup _ _ _ _ _ Hcl Hc) as (level & ? & ?).
    by exists level.
  - intros i r s Hi Hr Hs.
    assert (Hseq : seq 0 (nrows (setcol "confidence_level" cl g1)) !! i = Some i).
    { simpl. rewrite Hn. by apply lookup_seq_lt. }
    destruct (traverse_lookup _ _ _ _ _ Heps Hseq) as (e & He & Hrow).
    rewrite He. f_equal.
    apply bind_Ok in Hrow as (row & Hrow & Heng).
    assert (Hkey : ∀ c, "bayesian_popularity" ≠ c → "bayesian_quality" ≠ c →
                        "confidence_level" ≠ c →
                        row !! c = cols f !! c ≫= (λ col, col !! i)).
    { intros c H1 H2 H3. rewrite (iloc_lookup _ _ _ c Hrow).
      by rewrite cols_setcol_ne, G1base. }
    rewrite (engagement_int row r s) in Heng.
    + by injection Heng.
    + rewrite Hkey by done. rewrite Hrev. exact Hr.
    + by rewrite Hkey.
Qed.

Lemma enhance_dataframe_rows_witness :
  ∃ f g reviews cl eps,
    [courses_ABC] !! 0 = Some f ∧
    (enhance_dataframe 0 [courses_ABC]).2 !! 1 = Some g ∧
    cols f !! "num_reviews" = Some reviews ∧
    cols g !! "confidence_level" = Some cl ∧
    cols g !! "engagement_per_subscriber" = Some eps ∧
    length cl = length reviews ∧ length eps = nrows f ∧
    (∀ i c, reviews !! i = Some c →
       ∃ level, cl !! i = Some level ∧ calculate_confidence_level c = Ok level) ∧
    (∀ i r s, i < nrows f → reviews !! i = Some (CInt r) →
       cols f !! "num_subscribers" ≫= (λ subs, subs !! i) = Some (CInt s) →
       eps !! i = Some (if (0 <? s)%Z
                        then CFloat (Fin (inject_Z r / inject_Z s))
                        else CInt 0)).
Proof.
  apply (enhance_dataframe_rows 0 1 [courses_ABC]). vm_compute. reflexivity.
Defined.

(** ** The rows of the result *)

Lemma passes_true course m :
  passes course m = Ok true →
  ∃ reviews, course !! "num_reviews" = Some reviews ∧
             cell_ge reviews (CInt m) = Ok true ∧
             truthy (row_get course "is_suspicious" (CBool false)) = false.
Proof.
  unfold passes. intros H.
  apply bind_Ok in H as (reviews & Hr%row_getitem_Ok & H).
  apply bind_Ok in H as (b & Hb & [= H]).
  apply andb_true_iff in H as [-> H%negb_true_iff]. by exists reviews.
Qed.

Lemma recommendation_lookup course similarity r :
  recommendation course similarity = Ok r →
  (∀ c, c ∈ required_columns → is_Some (r !! c) ∧ r !! c = course !! c) ∧
  r !! "bayesian_popularity"
    = Some (row_get course "bayesian_popularity"
              (row_get course "popularity_score" (CInt 0))) ∧
  r !! "confidence_level"
    = Some (row_get course "confidence_level" (CStr "Unknown")) ∧
  r !! "similarity_score" = Some (CFloat (Fin similarity)).
Proof.
  unfold recommendation. intros H.
  apply bind_Ok in H as (id & Hid%row_getitem_Ok & H).
  apply bind_Ok in H as (title & Htitle%row_getitem_Ok & H).
  apply bind_Ok in H as (subject & Hsubject%row_getitem_Ok & H).
  apply bind_Ok in H as (price & Hprice%row_getitem_Ok & H).
  apply bind_Ok in H as (subs & Hsubs%row_getitem_Ok & H).
  apply bind_Ok in H as (reviews & Hreviews%row_getitem_Ok & [= <-]).
  split; [|by repeat split].
  intros c Hc. unfold required_columns in Hc.
  rewrite !elem_of_cons, elem_of_nil in Hc.
  destruct Hc as [->|[->|[->|[->|[->|[->|[]]]]]]];
    (split; [by eexists|]); symmetry; assumption.
Qed.

Lemma pd_DataFrame_cell recs k r c :
  recs !! k = Some r → is_Some (r !! c) →
  cols (pd_DataFrame recs) !! c ≫= (λ col, col !! k) = r !! c.
Proof.
  intros Hk [x Hx].
  assert (E : cols (pd_DataFrame recs) !! c = Some (column_of recs c)).
  { apply cols_pd_DataFrame. split; [|done]. exists r.
    split; [by eapply list_elem_of_lookup_2 | by exists x]. }
  rewrite E. simpl. unfold column_of. rewrite list_lookup_fmap, Hk. simpl.
  by rewrite Hx.
Qed.

(** X7. Every row of the result is the record of a row of the table
    that has at least [min_reviews] reviews and whose [is_suspicious]
    cell, when the table has the column, is not true; the six fields of
    the record are the cells of that row; its Bayesian popularity falls
    back on the raw popularity and then on 0, its confidence level on
    "Unknown". *)
Theorem get_recommendations_rows course_id df cosine_sim (n m : Z) :
  ∃ picked : list nat,
    let g := (get_recommendations course_id df cosine_sim n m).1 in
    nrows g = length picked ∧
    ∀ k i, picked !! k = Some i →
      ∃ course reviews,
        iloc df i = Ok course ∧
        course !! "num_reviews" = Some reviews ∧
        cell_ge reviews (CInt m) = Ok true ∧
        truthy (row_get course "is_suspicious" (CBool false)) = false ∧
        (∀ c, c ∈ required_columns →
              cols g !! c ≫= (λ col, col !! k) = course !! c) ∧
        cols g !! "bayesian_popularity" ≫= (λ col, col !! k)
          = Some (row_get course "bayesian_popularity"
                    (row_get course "popularity_score" (CInt 0))) ∧
        cols g !! "confidence_level" ≫= (λ col, col !! k)
          = Some (row_get course "confidence_level" (CStr "Unknown")).
Proof.
  unfold get_recommendations.
  destruct (try_recommendations _ _ _ _ _) as [g|e] eqn:E; cbn [fst].
  - destruct (try_recommendations_Ok _ _ _ _ _ _ E)
      as (idx & row & picked & recs & _ & _ & _ & _ & Hall & ->).
    exists picked.*1. split.
    { simpl. rewrite length_fmap. symmetry. by eapply Forall2_length. }
    intros k i Hk. rewrite list_lookup_fmap in Hk.
    destruct (picked !! k) as [p|] eqn:Hp; [|discriminate]. injection Hk as <-.
    destruct (Forall2_lookup_l _ _ _ _ _ Hall Hp)
      as (r & Hr & course & Hcourse & Hpass & Hrec).
    destruct (passes_true _ _ Hpass) as (reviews & Hrev & Hge & Hsus).
    destruct (recommendation_lookup _ _ _ Hrec) as (Hreq & Hbp & Hcl & _).
    exists course, reviews.
    split; [done|]. split; [done|]. split; [done|]. split; [done|].
    split; [|split].
    + intros c Hc. destruct (Hreq c Hc) as [Hsome <-].
      by apply pd_DataFrame_cell.
    + rewrite <- Hbp. apply pd_DataFrame_cell; [done|]. rewrite Hbp. by eexists.
    + rewrite <- Hcl. apply pd_DataFrame_cell; [done|]. rewrite Hcl. by eexists.
  - exists []. split; [done|]. intros k i Hk. done.
Qed.

(** ** The result is the first [n] admissible candidates *)

Lemma collect_take_filter df n m l acc out :
  Forall (λ p, ∃ course, iloc df p.1 = Ok course ∧
                 (∃ b, passes course m = Ok b) ∧
                 (∃ r, recommendation course p.2 = Ok r)) l →
  (Z.of_nat (length acc) < n)%Z →
  collect df n m l acc = Ok out →
  ∃ recs, out = acc ++ recs ∧
    Forall2 (admitted df m)
      (take (Z.to_nat n - length acc) (filter (λ p, admissible df m p = true) l))
      recs.
Proof.
  intros Htotal. revert acc.
  induction Htotal as [|[i x] l (course & Hc & [b Hb] & [r Hr]) _ IH];
    intros acc Hacc; simpl.
  - intros [= <-]. exists []. rewrite app_nil_r. split; [done|].
    rewrite ?filter_nil, take_nil. constructor.
  - simpl in Hc, Hr. rewrite Hc. simpl. rewrite Hb. simpl.
    assert (Hadm : admissible df m (i, x) = b).
    { unfold admissible. simpl. rewrite Hc, Hb. by destruct b. }
    destruct b; simpl.
    + rewrite Hr. simpl. rewrite filter_cons_True by done.
      assert (Ha : admitted df m (i, x) r) by by exists course.
      replace (Z.to_nat n - length acc) with (S (Z.to_nat n - S (length acc)))
        by lia.
      simpl. destruct (decide _) as [Hstop|Hgo].
      * intros [= <-]. exists [r]. split; [done|].
        rewrite length_app in Hstop. simpl in Hstop.
        replace (Z.to_nat n - S (length acc)) with 0 by lia.
        rewrite take_0. by repeat constructor.
      * intros H. rewrite length_app in Hgo. simpl in Hgo.
        apply IH in H as (recs & -> & Hall);
          [|rewrite length_app; simpl; lia].
        exists (r :: recs). split; [by rewrite <- app_assoc|].
        constructor; [done|].
        rewrite length_app in Hall. simpl in Hall.
        by replace (Z.to_nat n - (length acc + 1)) with
                   (Z.to_nat n - S (length acc)) in Hall by lia.
    + rewrite filter_cons_False by (rewrite Hadm; done).
      rewrite decide_False by lia. by apply IH.
Qed.

(** X8. On a ready table, for a course in the table and [n >= 1], the
    result holds the first [n] candidates that pass the filter, in the
    order of the sorted row, or all of them when there are fewer: the
    loop stops at [n] records or when the candidates are exhausted. *)
Theorem get_recommendations_first_admissible course_id df cosine_sim (n m : Z)
    idx row :
  query_ready df cosine_sim → (1 ≤ n)%Z →
  index_of course_id df = Ok idx → cosine_sim !! idx = Some row →
  ∃ recs,
    get_recommendations course_id df cosine_sim n m = (pd_DataFrame recs, []) ∧
    Forall2 (admitted df m)
      (take (Z.to_nat n)
         (filter (λ p, admissible df m p = true)
            (tail (sorted_desc (enumerate row)))))
      recs ∧
    length recs
    = Z.to_nat n `min`
      length (filter (λ p, admissible df m p = true)
                (tail (sorted_desc (enumerate row)))).
Proof.
  intros Hready Hn Hidx Hrow.
  assert (Hp : present course_id df).
  { destruct (index_of_Ok _ _ _ Hidx) as (ids & c & ? & ? & ?).
    by exists ids, idx, c. }
  destruct (try_recommendations_present _ _ _ n m Hready Hp)
    as (idx' & row' & recs & Hidx' & Hrow' & Hrecs & E).
  assert (idx' = idx) as -> by congruence.
  assert (row' = row) as -> by congruence.
  apply collect_take_filter in Hrecs as (recs' & -> & Hall); [| |simpl; lia].
  2:{ eapply Forall_impl; [by eapply ready_candidates|].
      intros p Hlt. by eapply ready_row. }
  simpl in Hall. rewrite Nat.sub_0_r in Hall.
  exists recs'. split; [|split].
  - unfold get_recommendations. by rewrite E.
  - exact Hall.
  - rewrite <- (Forall2_length _ _ _ Hall). apply length_take.
Qed.

Lemma get_recommendations_first_admissible_witness :
  ∃ recs,
    get_recommendations (CInt 1) three_courses (ones 3) 5 5
      = (pd_DataFrame recs, []) ∧
    Forall2 (admitted three_courses 5)
      (take (Z.to_nat 5)
         (filter (λ p, admissible three_courses 5 p = true)
            (tail (sorted_desc (enumerate (replicate 3 1%Q))))))
      recs ∧
    length recs
    = Z.to_nat 5 `min`
      length (filter (λ p, admissible three_courses 5 p = true)
                (tail (sorted_desc (enumerate (replicate 3 1%Q))))).
Proof.
  apply (get_recommendations_first_admissible (CInt 1) three_courses (ones 3) 5 5 0).
  - exact three_courses_ready.
  - lia.
  - reflexivity.
  - reflexivity.
Defined.

(** ** The content column *)

Lemma content_column_Ok f content :
  content_column f = Ok content →
  ∃ titles subjects,
    cols f !! "course_title" = Some titles ∧ cols f !! "subject" = Some subjects ∧
    length content = length titles `min` length subjects ∧
    ∀ i t s, titles !! i = Some t → subjects !! i = Some s →
      ∃ a b, fillna_str t = CStr a ∧ fillna_str s = CStr b ∧
             content !! i = Some (CStr ((a +:+ " ") +:+ b)).
Proof.
  unfold content_column. intros H.
  apply bind_Ok in H as (titles & Ht%getitem_Ok & H).
  apply bind_Ok in H as (subjects & Hs%getitem_Ok & H).
  exists titles, subjects. split; [done|]. split; [done|]. split.
  { rewrite (traverse_length _ _ _ H). apply length_zip_with. }
  intros i t s Hti Hsi.
  destruct (traverse_lookup _ _ _ i (t, s) H) as (c & Hc & Hts).
  { rewrite lookup_zip_with, Hti. simpl. by rewrite Hsi. }
  simpl in Hts. unfold str_add in Hts.
  destruct (fillna_str t) as [| |a| |]; try discriminate. simpl in Hts.
  destruct (fillna_str s) as [| |b| |]; try discriminate.
  injection Hts as <-. by exists a, b.
Qed.

Lemma content_column_total f titles subjects :
  cols f !! "course_title" = Some titles → cols f !! "subject" = Some subjects →
  Forall textual titles → Forall textual subjects →
  ∃ docs, content_column f = Ok (CStr <$> docs) ∧
          length docs = length titles `min` length subjects.
Proof.
  intros Ht Hs Htt Hss. unfold content_column, getitem. rewrite Ht, Hs. simpl.
  clear Ht Hs. revert subjects Hss.
  induction Htt as [|t titles [a Ha] _ IH]; intros subjects Hss.
  { by exists []. }
  destruct Hss as [|s subjects [b Hb] Hss]; [by exists []|].
  destruct (IH _ Hss) as (docs & Hdocs & Hlen).
  exists (((a +:+ " ") +:+ b) :: docs). split.
  - apply traverse_Ok. apply traverse_Ok in Hdocs.
    change (zip (t :: titles) (s :: subjects)) with ((t, s) :: zip titles subjects).
    rewrite fmap_cons. constructor; [|exact Hdocs].
    simpl. rewrite Ha, Hb. done.
  - simpl. by rewrite Hlen.
Qed.

Lemma traverse_as_str docs : traverse as_str (CStr <$> docs) = Ok docs.
Proof.
  induction docs as [|d docs IH]; [done|]. rewrite fmap_cons. simpl.
  by rewrite IH.
Qed.

(** X9. When the builder finds its cache empty and returns, the
    store holds one more table, at the returned place: the input table
    with the column [content], the text of which, row by row, is the
    title, a space and the subject, a missing title or subject counting
    as the empty text.  The other columns and the tables of the store are
    as they were, the similarities are those of the vectorizer's rows for
    these texts, and the cache now holds the pair returned.  When the
    builder finds its cache filled, it returns the entry of the cache,
    whatever table it is given, and the store is as it was. *)
Theorem build_recommender_content fit_transform (_df df : loc) (σ σ' : store)
    cached cached' cosine_sim :
  build_recommender fit_transform _df cached σ = (Ok (cosine_sim, df, cached'), σ') →
  cached' = Some (cosine_sim, df) ∧
  match cached with
  | Some hit => hit = (cosine_sim, df) ∧ σ' = σ
  | None =>
      ∃ f g titles subjects content,
        σ !! _df = Some f ∧ df = length σ ∧ σ' = σ ++ [g] ∧
        nrows g = nrows f ∧
        (∀ c, c ≠ "content" → cols g !! c = cols f !! c) ∧
        cols f !! "course_title" = Some titles ∧
        cols f !! "subject" = Some subjects ∧
        cols g !! "content" = Some (CStr <$> content) ∧
        length content = length titles `min` length subjects ∧
        (∀ i t s, titles !! i = Some t → subjects !! i = Some s →
           ∃ a b, fillna_str t = CStr a ∧ fillna_str s = CStr b ∧
                  content !! i = Some ((a +:+ " ") +:+ b)) ∧
        ∃ tfidf_matrix,
          fit_transform content = Ok tfidf_matrix ∧
          cosine_sim = cosine_similarity tfidf_matrix tfidf_matrix
  end.
Proof.
  intros E. destruct cached as [hit|].
  { rewrite build_recommender_hit in E. by injection E as -> <- <-. }
  destruct (build_recommender_inv _ _ _ _ _ _ _ E)
    as (f & content & docs & tfidf & Hf & -> & Hc & Hd & Ht & -> & -> & ->).
  split; [done|].
  destruct (content_column_Ok _ _ Hc) as (titles & subjects & Hti & Hsu & Hlen & Hrow).
  assert (Hcd : content = CStr <$> docs).
  { apply traverse_Ok in Hd. clear -Hd.
    induction Hd as [|c d content docs Hcd _ IH]; [done|].
    destruct c; try discriminate. injection Hcd as ->. simpl. by rewrite IH. }
  subst content.
  exists f, (setcol "content" (CStr <$> docs) f), titles, subjects, docs.
  split; [done|]. split; [done|]. split; [done|]. split; [done|].
  split; [intros c Hne; by apply cols_setcol_ne|].
  split; [done|]. split; [done|]. split; [apply cols_setcol_eq|].
  split; [by rewrite length_fmap in Hlen|]. split; [|by exists tfidf].
  intros i t s Hti' Hsi.
  destruct (Hrow i t s Hti' Hsi) as (a & b & Ha & Hb & Hi).
  exists a, b. split; [done|]. split; [done|].
  rewrite list_lookup_fmap in Hi. destruct (docs !! i); [|discriminate].
  by injection Hi as ->.
Qed.

Lemma build_recommender_content_witness :
  Some (cosine_similarity [[1%R]; [0%R]] [[1%R]; [0%R]], 1)
  = Some (cosine_similarity [[1%R]; [0%R]] [[1%R]; [0%R]], 1) ∧
  ∃ f g titles subjects content,
    [python_and_the] !! 0 = Some f ∧ 1 = length [python_and_the] ∧
    [python_and_the;
     setcol "content" [CStr "Python "; CStr "the "] python_and_the]
    = [python_and_the] ++ [g] ∧
    nrows g = nrows f ∧
    (∀ c, c ≠ "content" → cols g !! c = cols f !! c) ∧
    cols f !! "course_title" = Some titles ∧ cols f !! "subject" = Some subjects ∧
    cols g !! "content" = Some (CStr <$> content) ∧
    length content = length titles `min` length subjects ∧
    (∀ i t s, titles !! i = Some t → subjects !! i = Some s →
       ∃ a b, fillna_str t = CStr a ∧ fillna_str s = CStr b ∧
              content !! i = Some ((a +:+ " ") +:+ b)) ∧
    ∃ tfidf_matrix,
      one_term_vectorizer content = Ok tfidf_matrix ∧
      cosine_similarity [[1%R]; [0%R]] [[1%R]; [0%R]]
      = cosine_similarity tfidf_matrix tfidf_matrix.
Proof.
  apply (build_recommender_content one_term_vectorizer 0 1 [python_and_the]
           [python_and_the;
            setcol "content" [CStr "Python "; CStr "the "] python_and_the]
           None (Some (cosine_similarity [[1%R]; [0%R]] [[1%R]; [0%R]], 1))).
  exact build_python_and_the.
Defined.

(** X10. On a table whose titles and subjects are texts or missing,
    the builder that finds its cache empty returns exactly when the
    vectorizer does, with the similarities of the vectorizer's rows, and
    raises the vectorizer's exception when it raises one; the vectorizer
    is called on one text per row.  The builder that finds its cache
    filled returns the entry: it reads no table and calls no vectorizer,
    also where the vectorizer would raise on the texts of the table. *)
Theorem build_recommender_total fit_transform (_df : loc) (σ : store) f
    titles subjects :
  σ !! _df = Some f →
  cols f !! "course_title" = Some titles → cols f !! "subject" = Some subjects →
  Forall textual titles → Forall textual subjects →
  (∃ docs,
     length docs = length titles `min` length subjects ∧
     build_recommender fit_transform _df None σ
     = ((λ tfidf_matrix,
           (cosine_similarity tfidf_matrix tfidf_matrix, length σ,
            Some (cosine_similarity tfidf_matrix tfidf_matrix, length σ)))
          <$> fit_transform docs,
        σ ++ [setcol "content" (CStr <$> docs) f])) ∧
  (∀ hit, build_recommender fit_transform _df (Some hit) σ
          = (Ok (hit, Some hit), σ)).
Proof.
  intros Hf Ht Hs Htt Hss. split; [|done].
  destruct (content_column_total _ _ _ Ht Hs Htt Hss) as (docs & Hc & Hlen).
  exists docs. split; [done|].
  unfold build_recommender. rewrite bindM_run. unfold copy at 1. rewrite Hf.
  rewrite bindM_run, assign_last, Hc.
  rewrite bindM_run, load_last, bindM_run. unfold lift at 1.
  unfold getitem. rewrite cols_setcol_eq.
  rewrite bindM_run. unfold lift at 1. rewrite traverse_as_str.
  rewrite bindM_run. unfold lift at 1.
  by destruct (fit_transform docs).
Qed.

Lemma build_recommender_total_witness :
  (∃ docs,
     length docs = length [CStr "Python"; CStr "the"] `min` length [CNone; CNone] ∧
     build_recommender one_term_vectorizer 0 None [python_and_the]
     = ((λ tfidf_matrix,
           (cosine_similarity tfidf_matrix tfidf_matrix, length [python_and_the],
            Some (cosine_similarity tfidf_matrix tfidf_matrix,
                  length [python_and_the])))
          <$> one_term_vectorizer docs,
        [python_and_the] ++ [setcol "content" (CStr <$> docs) python_and_the])) ∧
  (∀ hit, build_recommender one_term_vectorizer 0 (Some hit) [python_and_the]
          = (Ok (hit, Some hit), [python_and_the])).
Proof.
  apply (build_recommender_total one_term_vectorizer 0 [python_and_the]
           python_and_the).
  - reflexivity.
  - reflexivity.
  - reflexivity.
  - repeat constructor; by eexists.
  - repeat constructor; by eexists.
Defined.

(** ** The start of the application *)

Lemma enhance_dataframe_keeps (df d1 : loc) (σ σ1 : store) :
  enhance_dataframe df σ = (Ok d1, σ1) →
  ∃ f g, σ !! df = Some f ∧ d1 = length σ ∧ σ1 = σ ++ [g] ∧ nrows g = nrows f ∧
         ∀ c, c ∉ derived_columns → cols g !! c = cols f !! c.
Proof.
  intros E.
  destruct (enhance_dataframe_inv _ _ _ _ E)
    as (f & bp & g1 & cl & eps & sus & Hf & -> & _ & Hq & _ & _ & _ & ->).
  exists f. eexists. split; [done|]. split; [done|]. split; [done|].
  split; [simpl; by rewrite (quality_step_nrows _ _ Hq)|].
  intros c (H1 & H2 & H3 & H4 & H5)%not_derived.
  rewrite !cols_setcol_ne by done.
  rewrite (quality_step_cols _ _ _ Hq) by done. by rewrite cols_setcol_ne.
Qed.

Lemma content_not_enriched c : c ∈ enrichment_columns → "content" ≠ c.
Proof.
  unfold enrichment_columns, derived_columns. simpl.
  rewrite !elem_of_cons, elem_of_nil. intros H Hc. subst c.
  repeat (destruct H as [H|H]; [discriminate|]). done.
Qed.

(** The run that finds the cache filled: the builder returns the
    entry, and the table of the entry is enriched. *)
Lemma startup_hit fit_transform (df_raw d : loc) (σ σ1 : store) cosine_sim l :
  enhance_dataframe df_raw σ = (Ok d, σ1) →
  startup fit_transform df_raw (Some (cosine_sim, l)) σ
  = match enhance_dataframe l σ1 with
    | (Ok df_rec, σ2) => (Ok (d, cosine_sim, df_rec, Some (cosine_sim, l)), σ2)
    | (Raise e, σ2) => (Raise e, σ2)
    end.
Proof.
  intros E. unfold startup. rewrite bindM_run, E.
  rewrite bindM_run, build_recommender_hit. by rewrite bindM_run.
Qed.

(** The first run of a process, forwards. *)
Lemma startup_run fit_transform (df_raw d : loc) (σ σ1 : store) g content docs
    tfidf_matrix :
  enhance_dataframe df_raw σ = (Ok d, σ1) → σ1 !! d = Some g →
  content_column g = Ok content → traverse as_str content = Ok docs →
  fit_transform docs = Ok tfidf_matrix →
  startup fit_transform df_raw None σ
  = (Ok (d, cosine_similarity tfidf_matrix tfidf_matrix, S (length σ1),
         Some (cosine_similarity tfidf_matrix tfidf_matrix, length σ1)),
     σ1 ++ [setcol "content" content g; setcol "content" content g]).
Proof.
  intros E Hg Hc Hd Ht. unfold startup. rewrite bindM_run, E.
  rewrite bindM_run.
  rewrite (build_recommender_run _ _ _ _ _ _ _ Hg Hc Hd Ht).
  rewrite bindM_run.
  erewrite (enhance_dataframe_again df_raw d σ σ1 g (length σ1)
              (σ1 ++ [setcol "content" content g]) (setcol "content" content g) E Hg).
  - rewrite length_app. simpl. rewrite Nat.add_1_r.
    by rewrite <- app_assoc.
  - by apply list_lookup_middle.
  - done.
  - intros c Hc'. apply cols_setcol_ne. by apply content_not_enriched.
Qed.

(** The first run of a process, backwards. *)
Lemma startup_first fit_transform (df_raw df df_rec : loc) (σ σ' : store)
    cached' cosine_sim :
  startup fit_transform df_raw None σ = (Ok (df, cosine_sim, df_rec, cached'), σ') →
  ∃ g content,
    enhance_dataframe df_raw σ = (Ok df, σ ++ [g]) ∧ df = length σ ∧
    build_recommender fit_transform df None (σ ++ [g])
    = (Ok (cosine_sim, S df, cached'), σ ++ [g; setcol "content" content g]) ∧
    cached' = Some (cosine_sim, S df) ∧
    σ' = σ ++ [g; setcol "content" content g; setcol "content" content g] ∧
    df_rec = 2 + length σ.
Proof.
  unfold startup. rewrite bindM_run.
  destruct (enhance_dataframe df_raw σ) as [[d|e] σ1] eqn:E1; [|discriminate].
  rewrite bindM_run.
  destruct (build_recommender fit_transform d None σ1) as [[[[sim d2] c2]|e] σ2]
    eqn:E2; [|discriminate].
  destruct (enhance_dataframe_keeps _ _ _ _ E1) as (f & g & Hf & -> & -> & _ & _).
  destruct (build_recommender_inv _ _ _ _ _ _ _ E2)
    as (g' & content & docs & tfidf & Hg & -> & Hc & Hd & Ht & -> & -> & ->).
  rewrite list_lookup_middle in Hg by done. injection Hg as <-.
  rewrite bindM_run.
  erewrite (enhance_dataframe_again df_raw (length σ) σ (σ ++ [g]) g
              (length (σ ++ [g])) ((σ ++ [g]) ++ [setcol "content" content g])
              (setcol "content" content g) E1).
  2: by apply list_lookup_middle.
  2: by apply list_lookup_middle.
  2: done.
  2: { intros c Hc'. apply cols_setcol_ne. by apply content_not_enriched. }
  intros [= <- <- <- <- <-].
  exists g, content.
  assert (Hlen : length (σ ++ [g]) = S (length σ)).
  { rewrite length_app. simpl. lia. }
  split; [done|]. split; [done|]. split.
  { rewrite E2, Hlen. by rewrite <- app_assoc. }
  split; [by rewrite Hlen|].
  split; [by rewrite <- !app_assoc|].
  rewrite !length_app. simpl. lia.
Qed.

(** X11. When the start returns on the first run of a process (the
    cache is empty), the store holds three more tables: the enriched
    table [df], and twice [df] with the [content] column, the first of
    which the cache keeps and the second of which is [df_rec].  The second
    enrichment recomputes the columns of the first to the same values, so
    [df_rec] and [df] differ in the [content] column only.  When the start
    returns on a later run (the cache is filled), the matrix is the one of
    the cache and [df_rec] is the enrichment of the table of the cache,
    not of the [df] of this run; the store holds two more tables.  In
    both cases the tables the store held, [df_raw] among them, are as
    they were. *)
Theorem startup_tables fit_transform (df_raw df df_rec : loc) (σ σ' : store)
    cached cached' cosine_sim :
  startup fit_transform df_raw cached σ
  = (Ok (df, cosine_sim, df_rec, cached'), σ') →
  ∃ g l,
    enhance_dataframe df_raw σ = (Ok df, σ ++ [g]) ∧ df = length σ ∧
    cached' = Some (cosine_sim, l) ∧
    match cached with
    | None =>
        ∃ h,
          build_recommender fit_transform df None (σ ++ [g])
          = (Ok (cosine_sim, l, cached'), σ ++ [g; h]) ∧
          l = S df ∧ σ' = σ ++ [g; h; h] ∧ df_rec = 2 + length σ ∧
          nrows h = nrows g ∧ is_Some (cols h !! "content") ∧
          ∀ c, c ≠ "content" → cols h !! c = cols g !! c
    | Some hit =>
        hit = (cosine_sim, l) ∧
        ∃ h, enhance_dataframe l (σ ++ [g]) = (Ok df_rec, σ ++ [g; h]) ∧
             σ' = σ ++ [g; h] ∧ df_rec = 1 + length σ
    end.
Proof.
  intros E. destruct cached as [[sim0 l0]|].
  - assert (∃ d σ1, enhance_dataframe df_raw σ = (Ok d, σ1)) as (d & σ1 & E1).
    { unfold startup in E. rewrite bindM_run in E.
      destruct (enhance_dataframe df_raw σ) as [[d|e] σ1]; [|discriminate].
      by exists d, σ1. }
    rewrite (startup_hit _ _ _ _ _ _ _ E1) in E.
    destruct (enhance_dataframe_keeps _ _ _ _ E1) as (f & g & Hf & -> & -> & _ & _).
    destruct (enhance_dataframe l0 (σ ++ [g])) as [[d2|e] σ2] eqn:E2;
      [|discriminate].
    injection E as <- <- <- <- <-.
    destruct (enhance_dataframe_keeps _ _ _ _ E2) as (h0 & h & _ & -> & -> & _ & _).
    exists g, l0. split; [done|]. split; [done|]. split; [done|].
    split; [done|]. exists h.
    split; [rewrite E2; by rewrite <- app_assoc|].
    split; [by rewrite <- app_assoc|].
    rewrite length_app. simpl. lia.
  - destruct (startup_first _ _ _ _ _ _ _ _ E)
      as (g & content & E1 & -> & E2 & -> & -> & ->).
    exists g, (S (length σ)). split; [done|]. split; [done|]. split; [done|].
    exists (setcol "content" content g).
    split; [done|]. split; [done|]. split; [done|]. split; [done|].
    split; [done|]. split; [rewrite cols_setcol_eq; by eexists|].
    intros c Hc'. by apply cols_setcol_ne.
Qed.

Lemma startup_tables_witness :
  ∃ d sim e c σ' g l,
    startup one_term_vectorizer 0 None [courses_ABC] = (Ok (d, sim, e, c), σ') ∧
    enhance_dataframe 0 [courses_ABC] = (Ok d, [courses_ABC] ++ [g]) ∧
    d = length [courses_ABC] ∧ c = Some (sim, l) ∧
    ∃ h,
      build_recommender one_term_vectorizer d None ([courses_ABC] ++ [g])
      = (Ok (sim, l, c), [courses_ABC] ++ [g; h]) ∧
      l = S d ∧ σ' = [courses_ABC] ++ [g; h; h] ∧
      e = 2 + length [courses_ABC] ∧
      nrows h = nrows g ∧ is_Some (cols h !! "content") ∧
      ∀ c, c ≠ "content" → cols h !! c = cols g !! c.
Proof.
  assert (∃ d sim e c σ',
    startup one_term_vectorizer 0 None [courses_ABC] = (Ok (d, sim, e, c), σ'))
    as (d & sim & e & c & σ' & E).
  { do 5 eexists. eapply startup_run.
    - vm_compute. reflexivity.
    - vm_compute. reflexivity.
    - vm_compute. reflexivity.
    - vm_compute. reflexivity.
    - reflexivity. }
  destruct (startup_tables _ _ _ _ _ _ _ _ _ E) as (g & l & H).
  exists d, sim, e, c, σ', g, l. split; [exact E | exact H].
Defined.

Lemma build_recommender_raise fit_transform (_df : loc) (σ : store)
    f content docs e :
  σ !! _df = Some f →
  content_column f = Ok content →
  traverse as_str content = Ok docs →
  fit_transform docs = Raise e →
  build_recommender fit_transform _df None σ
  = (Raise e, σ ++ [setcol "content" content f]).
Proof.
  intros Hf Hc Hd Ht.
  unfold build_recommender. rewrite bindM_run. unfold copy at 1. rewrite Hf.
  rewrite bindM_run, assign_last, Hc.
  rewrite bindM_run, load_last, bindM_run. unfold lift at 1.
  unfold getitem. rewrite cols_setcol_eq.
  rewrite bindM_run. unfold lift at 1. rewrite Hd.
  rewrite bindM_run. unfold lift at 1. rewrite Ht.
  reflexivity.
Qed.

Lemma title_subject_not_derived :
  ("course_title" ∉ derived_columns) ∧ ("subject" ∉ derived_columns).
Proof.
  unfold derived_columns. rewrite !not_elem_of_cons.
  repeat split; first [discriminate | apply not_elem_of_nil].
Qed.

(** X12. On the first run of a process (the cache is empty), once the
    first enrichment of the raw table has returned, the start fails in
    the vectorizer only, when the titles and subjects are texts or
    missing: the second enrichment raises nothing, and the outcome is the
    vectorizer's, on one text per row.  On a later run, after a first run
    that returned, the start calls no vectorizer: once the enrichment of
    its raw table has returned, it returns the matrix of the first run
    and a copy of the [df_rec] of the first run, whatever raw table and
    vectorizer it is given. *)
Theorem startup_total fit_transform (df_raw d : loc) (σ σ1 : store) f
    titles subjects :
  enhance_dataframe df_raw σ = (Ok d, σ1) → σ !! df_raw = Some f →
  cols f !! "course_title" = Some titles → cols f !! "subject" = Some subjects →
  Forall textual titles → Forall textual subjects →
  (∃ docs,
     length docs = length titles `min` length subjects ∧
     (startup fit_transform df_raw None σ).1
     = (λ tfidf_matrix,
          (d, cosine_similarity tfidf_matrix tfidf_matrix, 2 + length σ,
           Some (cosine_similarity tfidf_matrix tfidf_matrix, 1 + length σ)))
         <$> fit_transform docs) ∧
  (∀ cosine_sim df_rec cached' (σ' later σ'' : store) fit_transform' df_raw' d',
     startup fit_transform df_raw None σ
     = (Ok (d, cosine_sim, df_rec, cached'), σ') →
     enhance_dataframe df_raw' (σ' ++ later) = (Ok d', σ'') →
     ∃ h, σ' !! df_rec = Some h ∧
          startup fit_transform' df_raw' cached' (σ' ++ later)
          = (Ok (d', cosine_sim, length σ'', cached'), σ'' ++ [h])).
Proof.
  intros E Hf Ht Hs Htt Hss. split.
  - destruct (enhance_dataframe_keeps _ _ _ _ E)
      as (f' & g & Hf' & -> & -> & _ & Hkeep).
    assert (f' = f) as -> by congruence.
    destruct title_subject_not_derived as [Hnt Hns].
    destruct (content_column_total g titles subjects) as (docs & Hc & Hlen);
      [by rewrite Hkeep | by rewrite Hkeep | done | done |].
    exists docs. split; [done|].
    assert (Hg : (σ ++ [g]) !! length σ = Some g) by by apply list_lookup_middle.
    destruct (fit_transform docs) as [tfidf|e] eqn:Hft.
    + rewrite (startup_run _ _ _ _ _ _ _ _ _ E Hg Hc (traverse_as_str docs) Hft).
      simpl. rewrite length_app. simpl.
      replace (length σ + 1) with (S (length σ)) by lia. done.
    + unfold startup. rewrite bindM_run, E, bindM_run.
      by rewrite (build_recommender_raise _ _ _ _ _ _ _ Hg Hc
                    (traverse_as_str docs) Hft).
  - intros cosine_sim df_rec cached' σ' later σ'' fit_transform' df_raw' d' E0 E'.
    destruct (startup_first _ _ _ _ _ _ _ _ E0)
      as (g & content & E1 & Hd & _ & -> & -> & ->).
    subst d. pose (h := setcol "content" content g).
    destruct (enhance_dataframe_keeps _ _ _ _ E')
      as (f' & g' & _ & -> & -> & _ & _).
    assert (Hh : ∀ ext, ((σ ++ [g; h; h]) ++ ext) !! S (length σ) = Some h).
    { intros ext. rewrite <- app_assoc. rewrite lookup_app_r by lia.
      by replace (S (length σ) - length σ) with 1 by lia. }
    assert (E2 : enhance_dataframe (S (length σ))
                   (((σ ++ [g; h; h]) ++ later) ++ [g'])
                 = (Ok (length (((σ ++ [g; h; h]) ++ later) ++ [g'])),
                    (((σ ++ [g; h; h]) ++ later) ++ [g']) ++ [h])).
    { eapply (enhance_dataframe_again df_raw (length σ) σ (σ ++ [g]) g);
        [exact E1 | by apply list_lookup_middle | | done |].
      - rewrite <- app_assoc. apply Hh.
      - intros c Hc'. apply cols_setcol_ne. by apply content_not_enriched. }
    exists h. split.
    { rewrite lookup_app_r by lia.
      by replace (2 + length σ - length σ) with 2 by lia. }
    rewrite (startup_hit _ _ _ _ _ _ _ E').
    unfold h in E2. by rewrite E2.
Qed.

Lemma startup_total_witness :
  (∃ docs,
     length docs
     = length [CStr "Python basics"; CStr "Python basics"; CStr "Guitar"]
       `min` length [CStr "X"; CStr "X"; CStr "Y"] ∧
     (startup one_term_vectorizer 0 None [courses_ABC]).1
     = (λ tfidf_matrix,
          (1, cosine_similarity tfidf_matrix tfidf_matrix, 2 + length [courses_ABC],
           Some (cosine_similarity tfidf_matrix tfidf_matrix,
                 1 + length [courses_ABC])))
         <$> one_term_vectorizer docs) ∧
  (∀ cosine_sim df_rec cached' (σ' later σ'' : store) fit_transform' df_raw' d',
     startup one_term_vectorizer 0 None [courses_ABC]
     = (Ok (1, cosine_sim, df_rec, cached'), σ') →
     enhance_dataframe df_raw' (σ' ++ later) = (Ok d', σ'') →
     ∃ h, σ' !! df_rec = Some h ∧
          startup fit_transform' df_raw' cached' (σ' ++ later)
          = (Ok (d', cosine_sim, length σ'', cached'), σ'' ++ [h])).
Proof.
  eapply (startup_total one_term_vectorizer 0 1 [courses_ABC] _ courses_ABC).
  - vm_compute. reflexivity.
  - reflexivity.
  - reflexivity.
  - reflexivity.
  - repeat constructor; by eexists.
  - repeat constructor; by eexists.
Defined.

(** ** The ratio columns of the import script *)

Lemma ratio_finite (x y : fl) : ∃ q, fillna_zero (replace_inf (fdiv x y)) = Fin q.
Proof.
  destruct x as [a| | |], y as [b| | |]; simpl; try by eexists.
  - destruct (Qeq_bool b 0); [|by eexists].
    destruct (Qeq_bool a 0); [by eexists|]. destruct (Qle_bool 0 a); by eexists.
  - destruct (Qle_bool 0 b); by eexists.
  - destruct (Qle_bool 0 b); by eexists.
Qed.

Lemma ratio_of_integers (r s : Z) :
  fillna_zero (replace_inf (fdiv (fl_of_Z r) (fl_of_Z s)))
  = Fin (if (s =? 0)%Z then 0 else inject_Z r / inject_Z s).
Proof.
  unfold fl_of_Z. simpl.
  destruct (Z.eqb_spec s 0) as [->|Hs].
  - change (Qeq_bool (inject_Z 0) 0) with true. simpl.
    destruct (Qeq_bool (inject_Z r) 0); [done|].
    by destruct (Qle_bool 0 (inject_Z r)).
  - destruct (Qeq_bool (inject_Z s) 0) eqn:E; [|done].
    apply Qeq_bool_eq in E. unfold Qeq in E. simpl in E. lia.
Qed.

Lemma ratio_column_rows df a b r :
  ratio_column df a b = Ok r →
  ∃ xs ys,
    cols df !! a = Some xs ∧ cols df !! b = Some ys ∧
    length r = length xs `min` length ys ∧
    ∀ i cx cy, xs !! i = Some cx → ys !! i = Some cy →
      ∃ x y, num_of cx = Ok x ∧ num_of cy = Ok y ∧
             r !! i = Some (CFloat (fillna_zero (replace_inf (fdiv x y)))).
Proof.
  unfold ratio_column. intros H.
  apply bind_Ok in H as (xs & Hxs%getitem_Ok & H).
  apply bind_Ok in H as (ys & Hys%getitem_Ok & H).
  apply bind_Ok in H as (q & Hq & H).
  apply bind_Ok in H as (u & Hu & H).
  exists xs, ys. split; [done|]. split; [done|]. split.
  { rewrite (series_map_length _ _ _ H), (series_map_length _ _ _ Hu).
    by apply series_zip_length in Hq. }
  intros i cx cy Hcx Hcy.
  assert (Hz : zip xs ys !! i = Some (cx, cy)).
  { rewrite lookup_zip_with, Hcx. simpl. by rewrite Hcy. }
  destruct (traverse_lookup _ _ _ _ _ Hq Hz) as (c & Hc & Hf).
  simpl in Hf. apply bind_Ok in Hf as (x & Hx & Hf).
  apply bind_Ok in Hf as (y & Hy & [= <-]).
  exists x, y. split; [done|]. split; [done|].
  pose proof (series_map_lookup _ _ _ _ _ _ Hu Hc eq_refl) as Hui.
  exact (series_map_lookup _ _ _ _ _ _ H Hui eq_refl).
Qed.

(** The cell of a ratio column for a row of integers. *)
Lemma ratio_column_integers df a b r xs ys i (x y : Z) :
  ratio_column df a b = Ok r →
  cols df !! a = Some xs → cols df !! b = Some ys →
  xs !! i = Some (CInt x) → ys !! i = Some (CInt y) →
  r !! i = Some (CFloat (Fin (if (y =? 0)%Z then 0 else inject_Z x / inject_Z y))).
Proof.
  intros H Hxs Hys Hx Hy.
  destruct (ratio_column_rows _ _ _ _ H) as (xs' & ys' & Hxs' & Hys' & _ & Hrow).
  assert (xs' = xs) as -> by congruence.
  assert (ys' = ys) as -> by congruence.
  destruct (Hrow i _ _ Hx Hy) as (x' & y' & [= <-] & [= <-] & Hri).
  by rewrite ratio_of_integers in Hri.
Qed.

(** X13. A ratio column of the import script ([review_rate],
    [avg_lecture_duration], [price_per_hour]) holds a finite float in
    every row, never an infinity or a NaN; for integer cells it is the
    quotient, and 0 when the divisor is 0. *)
Theorem ratio_column_finite df a b r :
  ratio_column df a b = Ok r →
  ∃ xs ys,
    cols df !! a = Some xs ∧ cols df !! b = Some ys ∧
    length r = length xs `min` length ys ∧
    Forall (λ c, ∃ q, c = CFloat (Fin q)) r ∧
    ∀ i x y, xs !! i = Some (CInt x) → ys !! i = Some (CInt y) →
      r !! i = Some (CFloat (Fin (if (y =? 0)%Z then 0
                                  else inject_Z x / inject_Z y))).
Proof.
  intros H.
  destruct (ratio_column_rows _ _ _ _ H) as (xs & ys & Hxs & Hys & Hlen & Hrow).
  exists xs, ys. split; [done|]. split; [done|]. split; [done|]. split.
  - apply Forall_forall. intros c Hc.
    apply list_elem_of_lookup_1 in Hc as [i Hi].
    pose proof (lookup_lt_Some _ _ _ Hi) as Hlt. rewrite Hlen in Hlt.
    destruct (lookup_lt_is_Some_2 xs i) as [cx Hcx]; [lia|].
    destruct (lookup_lt_is_Some_2 ys i) as [cy Hcy]; [lia|].
    destruct (Hrow i cx cy Hcx Hcy) as (x & y & _ & _ & Hri).
    rewrite Hi in Hri. injection Hri as ->.
    destruct (ratio_finite x y) as [q ->]. by exists q.
  - intros i x y Hx Hy.
    destruct (Hrow i _ _ Hx Hy) as (x' & y' & [= <-] & [= <-] & Hri).
    by rewrite ratio_of_integers in Hri.
Qed.

Lemma ratio_column_finite_witness :
  ∃ xs ys,
    cols raw_counts !! "num_reviews" = Some xs ∧
    cols raw_counts !! "num_subscribers" = Some ys ∧
    length [CFloat (Fin (100 # 1000)); CFloat (Fin 0); CFloat (Fin (20 # 20))]
    = length xs `min` length ys ∧
    Forall (λ c, ∃ q, c = CFloat (Fin q))
      [CFloat (Fin (100 # 1000)); CFloat (Fin 0); CFloat (Fin (20 # 20))] ∧
    ∀ i x y, xs !! i = Some (CInt x) → ys !! i = Some (CInt y) →
      [CFloat (Fin (100 # 1000)); CFloat (Fin 0); CFloat (Fin (20 # 20))] !! i
      = Some (CFloat (Fin (if (y =? 0)%Z then 0 else inject_Z x / inject_Z y))).
Proof.
  apply (ratio_column_finite raw_counts "num_reviews" "num_subscribers").
  vm_compute. reflexivity.
Defined.

(** ** The review rate and the enrichment *)

Lemma apply_rows_lookup f (g : gmap string cell → result cell) out i :
  apply_rows f g = Ok out → i < nrows f →
  ∃ row e, iloc f i = Ok row ∧ g row = Ok e ∧ out !! i = Some e.
Proof.
  intros H Hi.
  destruct (traverse_lookup _ _ _ i i H) as (e & He & Hrow).
  { by apply lookup_seq_lt. }
  apply bind_Ok in Hrow as (row & Hrow & Hg). by exists row, e.
Qed.

Lemma feq_refl_Fin (q : Q) : feq (Fin q) (Fin q) = true.
Proof.
  unfold feq. simpl. assert (Qle_bool q q = true) as ->; [|done].
  apply Qle_bool_iff. apply Qle_refl.
Qed.

(** X14. On a row with integer counts and no negative number of
    subscribers, the engagement per subscriber that [enhance_dataframe]
    computes is the review rate of the import script: the quotient, and
    zero for a course without a subscriber. *)
Theorem engagement_is_review_rate f eps rate reviews subs i (r s : Z) :
  apply_rows f engagement = Ok eps → review_rate f = Ok rate →
  cols f !! "num_reviews" = Some reviews →
  cols f !! "num_subscribers" = Some subs →
  reviews !! i = Some (CInt r) → subs !! i = Some (CInt s) →
  i < nrows f → (0 ≤ s)%Z →
  ∃ x y, eps !! i = Some x ∧ rate !! i = Some y ∧ cell_eqb x y = true.
Proof.
  intros Heps Hrate Hrev Hsubs Hr Hs Hi Hs0.
  destruct (apply_rows_lookup _ _ _ _ Heps Hi) as (row & e & Hrow & He & Hei).
  rewrite (engagement_int row r s) in He.
  2: { rewrite (iloc_lookup _ _ _ _ Hrow), Hrev. exact Hr. }
  2: { rewrite (iloc_lookup _ _ _ _ Hrow), Hsubs. exact Hs. }
  injection He as <-.
  pose proof (ratio_column_integers _ _ _ _ _ _ _ _ _ Hrate Hrev Hsubs Hr Hs)
    as Hrow'.
  eexists _, _. split; [exact Hei|]. split; [exact Hrow'|].
  destruct (Z.eqb_spec s 0) as [->|Hne].
  - reflexivity.
  - assert ((0 <? s)%Z = true) as -> by lia.
    unfold cell_eqb. simpl. apply feq_refl_Fin.
Qed.

Lemma engagement_is_review_rate_witness :
  ∃ x y,
    [CFloat (Fin (100 # 1000)); CInt 0; CFloat (Fin (20 # 20))] !! 1 = Some x ∧
    [CFloat (Fin (100 # 1000)); CFloat (Fin 0); CFloat (Fin (20 # 20))] !! 1 = Some y ∧
    cell_eqb x y = true.
Proof.
  apply (engagement_is_review_rate raw_counts _ _
           [CInt 100; CInt 0; CInt 20] [CInt 1000; CInt 0; CInt 20] 1 0 0).
  - vm_compute. reflexivity.
  - vm_compute. reflexivity.
  - reflexivity.
  - reflexivity.
  - reflexivity.
  - reflexivity.
  - simpl. lia.
  - lia.
Defined.

Lemma rate_threshold (r s : Z) :
  (0 < s)%Z →
  Qle_bool (99 # 100) (inject_Z r / inject_Z s) = true ↔ (99 * s ≤ 100 * r)%Z.
Proof.
  intros Hs. rewrite Qle_bool_iff.
  assert (Hs' : (0 < inject_Z s)%Q).
  { change 0%Q with (inject_Z 0). by rewrite <- Zlt_Qlt. }
  split.
  - intros H. apply (Qmult_le_compat_r _ _ (inject_Z s)) in H; [|by apply Qlt_le_weak].
    assert (E : (inject_Z r / inject_Z s * inject_Z s == inject_Z r)%Q).
    { field. intros E. rewrite E in Hs'. by apply Qlt_irrefl in Hs'. }
    rewrite E in H. unfold Qle in H. simpl in H. lia.
  - intros H. apply Qle_shift_div_l; [done|].
    unfold Qle. simpl. lia.
Qed.

(** X15. With the review rate of the import script, the enrichment
    flags a row with integer counts and no negative number of subscribers
    exactly when it has between 1 and 49 subscribers and at least 99
    reviews per 100 subscribers: a course without a subscriber is never
    flagged. *)
Theorem is_suspicious_with_import_rate f rate sus reviews subs i (r s : Z) :
  review_rate f = Ok rate →
  suspicious_flags (setcol "review_rate" rate f) = Ok sus →
  cols f !! "num_reviews" = Some reviews →
  cols f !! "num_subscribers" = Some subs →
  reviews !! i = Some (CInt r) → subs !! i = Some (CInt s) → (0 ≤ s)%Z →
  ∃ b, sus !! i = Some (CBool b) ∧
       (b = true ↔ (0 < s < 50)%Z ∧ (99 * s ≤ 100 * r)%Z).
Proof.
  intros Hrate Hsus Hrev Hsubs Hr Hs Hs0.
  pose proof (ratio_column_integers _ _ _ _ _ _ _ _ _ Hrate Hrev Hsubs Hr Hs)
    as Hrow.
  destruct (suspicious_flags_rows _ _ Hsus)
    as (rate' & subs' & Hrate' & Hsubs' & _ & Hflag).
  rewrite cols_setcol_eq in Hrate'. injection Hrate' as <-.
  rewrite cols_setcol_ne in Hsubs' by done.
  assert (subs' = subs) as -> by congruence.
  destruct (Hflag i _ _ Hrow Hs) as (x & y & [= <-] & [= <-] & Hi).
  eexists. split; [exact Hi|].
  rewrite andb_true_iff, flt_inject_Z, Z.ltb_lt.
  destruct (Z.eqb_spec s 0) as [->|Hne].
  - simpl. split; [intros [[=] _] | lia].
  - simpl. rewrite rate_threshold by lia. lia.
Qed.

Lemma is_suspicious_with_import_rate_witness :
  ∃ b, [CBool false; CBool false; CBool true] !! 2 = Some (CBool b) ∧
       (b = true ↔ (0 < 20 < 50)%Z ∧ (99 * 20 ≤ 100 * 20)%Z).
Proof.
  apply (is_suspicious_with_import_rate raw_counts
           [CFloat (Fin (100 # 1000)); CFloat (Fin 0); CFloat (Fin (20 # 20))]
           _ [CInt 100; CInt 0; CInt 20] [CInt 1000; CInt 0; CInt 20] 2 20 20).
  - vm_compute. reflexivity.
  - vm_compute. reflexivity.
  - reflexivity.
  - reflexivity.
  - reflexivity.
  - reflexivity.
  - lia.
Defined.

(** ** The scores of the import script *)

Lemma foldl_fmax_Fin (qs : list Q) (y : Q) :
  ∃ m, foldl fmax (Fin y) (Fin <$> qs) = Fin m ∧ (y <= m)%Q ∧
       Forall (λ q, (q <= m)%Q) qs.
Proof.
  revert y. induction qs as [|q qs IH]; intros y.
  - exists y. split; [done|]. split; [apply Qle_refl | constructor].
  - rewrite fmap_cons. simpl. unfold fmax at 2. simpl.
    destruct (Qle_bool y q) eqn:E.
    + apply Qle_bool_iff in E.
      destruct (IH q) as (m & Hm & Hqm & Hall). exists m.
      split; [done|]. split; [by eapply Qle_trans|]. by constructor.
    + assert (Hlt : (q < y)%Q).
      { apply Qnot_le_lt. intros H%Qle_bool_iff. congruence. }
      destruct (IH y) as (m & Hm & Hym & Hall). exists m.
      split; [done|]. split; [done|]. constructor; [|done].
      apply Qlt_le_weak. by eapply Qlt_le_trans.
Qed.

Lemma finite_column (s : list cell) (P : Q → Prop) :
  Forall (λ c, ∃ q, num_of c = Ok (Fin q) ∧ P q) s →
  ∃ qs, Forall2 (λ c q, num_of c = Ok (Fin q)) s qs ∧ Forall P qs.
Proof.
  induction 1 as [|c s (q & Hq & HP) _ (qs & Hqs & HPs)].
  - exists []. split; constructor.
  - exists (q :: qs). split; by constructor.
Qed.

Lemma series_max_finite (s : list cell) (qs : list Q) :
  Forall2 (λ c q, num_of c = Ok (Fin q)) s qs → qs ≠ [] →
  ∃ m, series_max s = Ok (Fin m) ∧ Forall (λ q, (q <= m)%Q) qs.
Proof.
  intros H Hne.
  assert (Ht : traverse num_of s = Ok (Fin <$> qs)).
  { apply traverse_Ok. by apply Forall2_fmap_r. }
  unfold series_max. rewrite Ht. simpl. rewrite filter_Fin.
  destruct qs as [|q qs]; [done|]. rewrite fmap_cons.
  destruct (foldl_fmax_Fin qs q) as (m & Hm & Hq & Hall).
  exists m. rewrite Hm. split; [done|]. by constructor.
Qed.

Lemma series_max_positive (s : list cell) :
  positive_column s →
  ∃ qs m, Forall2 (λ c q, num_of c = Ok (Fin q)) s qs ∧
          series_max s = Ok (Fin m) ∧ (0 < m)%Q ∧
          Forall (λ q, (0 <= q <= m)%Q) qs.
Proof.
  intros [Hall Hex].
  destruct (finite_column _ _ Hall) as (qs & Hqs & Hnn).
  assert (Hne : qs ≠ []).
  { intros ->. apply Forall2_nil_inv_r in Hqs. subst s. by apply Exists_nil in Hex. }
  destruct (series_max_finite _ _ Hqs Hne) as (m & Hm & Hle).
  exists qs, m. split; [done|]. split; [done|]. split.
  - apply Exists_exists in Hex as (c & Hc & q & Hq & Hpos).
    apply list_elem_of_lookup_1 in Hc as [i Hi].
    destruct (Forall2_lookup_l _ _ _ _ _ Hqs Hi) as (q' & Hq' & Hnum).
    assert (q' = q) as -> by congruence.
    rewrite Forall_forall in Hle.
    eapply Qlt_le_trans; [exact Hpos|]. apply Hle.
    by eapply list_elem_of_lookup_2.
  - rewrite Forall_forall in *. intros q Hq. split; [by apply Hnn | by apply Hle].
Qed.

Lemma weighted_share_range df (w : Q) c s :
  cols df !! c = Some s → positive_column s → (0 <= w)%Q →
  ∃ out, weighted_share df w c = Ok out ∧ length out = length s ∧
         Forall (λ o, ∃ p, o = CFloat (Fin p) ∧ (0 <= p <= w)%Q) out.
Proof.
  intros Hs Hpos Hw.
  destruct (series_max_positive _ Hpos) as (qs & m & Hqs & Hm & Hm0 & Hrange).
  unfold weighted_share, getitem. rewrite Hs. simpl. rewrite Hm. simpl.
  assert (Hq : series_map (λ x, fdiv x (Fin m)) s
               = Ok ((λ q, CFloat (Fin (q / m))) <$> qs)).
  { apply traverse_Ok. apply Forall2_fmap_r.
    eapply Forall2_impl; [exact Hqs|]. intros c' q Hc'. simpl. rewrite Hc'. simpl.
    destruct (Qeq_bool m 0) eqn:E; [|done].
    apply Qeq_bool_eq in E. rewrite E in Hm0. by apply Qlt_irrefl in Hm0. }
  rewrite Hq. simpl.
  exists ((λ q, CFloat (Fin (w * (q / m)))) <$> qs). split; [|split].
  - apply traverse_Ok. apply Forall2_fmap_r, Forall2_fmap_l.
    apply Forall_Forall2_diag, Forall_forall. by intros q _.
  - rewrite length_fmap. symmetry. by eapply Forall2_length.
  - apply Forall_fmap, Forall_forall. intros q Hqel. simpl.
    rewrite Forall_forall in Hrange. destruct (Hrange q Hqel) as [H0 H1].
    exists (w * (q / m))%Q. split; [done|].
    assert (Hd0 : (0 <= q / m)%Q).
    { apply Qle_shift_div_l; [done|]. by rewrite Qmult_0_l. }
    assert (Hd1 : (q / m <= 1)%Q).
    { apply Qle_shift_div_r; [done|]. by rewrite Qmult_1_l. }
    split; [by apply Qmult_le_0_compat|].
    rewrite <- (Qmult_1_r w) at 2.
    rewrite !(Qmult_comm w). by apply Qmult_le_compat_r.
Qed.

Lemma series_zip_fadd_range (a b : list cell) (wa wb : Q) :
  Forall (λ o, ∃ p, o = CFloat (Fin p) ∧ (0 <= p <= wa)%Q) a →
  Forall (λ o, ∃ p, o = CFloat (Fin p) ∧ (0 <= p <= wb)%Q) b →
  ∃ out, series_zip fadd a b = Ok out ∧
         length out = length a `min` length b ∧
         Forall (λ o, ∃ p, o = CFloat (Fin p) ∧ (0 <= p <= wa + wb)%Q) out.
Proof.
  intros Ha. revert b. induction Ha as [|x a (p & -> & Hp) _ IH]; intros b Hb.
  - exists []. split; [reflexivity|]. split; [reflexivity | constructor].
  - destruct Hb as [|y b (q & -> & Hq) Hb].
    + exists []. split; [reflexivity|]. split; [reflexivity | constructor].
    + destruct (IH b Hb) as (out & Hout & Hlen & Hall).
      exists (CFloat (Fin (p + q)) :: out). split; [|split].
      * apply traverse_Ok. apply traverse_Ok in Hout.
        change (zip (CFloat (Fin p) :: a) (CFloat (Fin q) :: b))
          with ((CFloat (Fin p), CFloat (Fin q)) :: zip a b).
        by constructor.
      * simpl. by rewrite Hlen.
      * constructor; [|done]. exists (p + q)%Q. split; [done|].
        destruct Hp, Hq. split; lra.
Qed.

(** X16. When the subscriber counts, the review counts and the review
    rates are finite numbers, none negative, and each column has a
    positive entry, the import script's popularity score and quality
    score are defined for every row and lie between 0 and 1. *)
Theorem scores_between_0_and_1 df subs revs rates :
  cols df !! "num_subscribers" = Some subs →
  cols df !! "num_reviews" = Some revs →
  cols df !! "review_rate" = Some rates →
  positive_column subs → positive_column revs → positive_column rates →
  (∃ out, popularity_score df = Ok out ∧
          length out = (length subs `min` length revs) `min` length rates ∧
          Forall (λ o, ∃ p, o = CFloat (Fin p) ∧ (0 <= p <= 1)%Q) out) ∧
  (∃ out, quality_score df = Ok out ∧
          length out = length revs `min` length rates ∧
          Forall (λ o, ∃ p, o = CFloat (Fin p) ∧ (0 <= p <= 1)%Q) out).
Proof.
  intros Hsubs Hrevs Hrates Ps Pr Pt. split.
  - destruct (weighted_share_range df (2 # 5) _ _ Hsubs Ps ltac:(done))
      as (a & Ha & Hla & Hra).
    destruct (weighted_share_range df (3 # 10) _ _ Hrevs Pr ltac:(done))
      as (b & Hb & Hlb & Hrb).
    destruct (weighted_share_range df (3 # 10) _ _ Hrates Pt ltac:(done))
      as (c & Hc & Hlc & Hrc).
    destruct (series_zip_fadd_range _ _ _ _ Hra Hrb) as (ab & Hab & Hlab & Hrab).
    destruct (series_zip_fadd_range _ _ _ _ Hrab Hrc) as (out & Hout & Hlout & Hrout).
    exists out. unfold popularity_score. rewrite Ha. simpl. rewrite Hb. simpl.
    rewrite Hab. simpl. rewrite Hc. simpl.
    split; [done|]. split; [congruence|].
    eapply Forall_impl; [exact Hrout|]. intros o (p & -> & H0 & H1).
    exists p. split; [done|]. split; [done|].
    eapply Qle_trans; [exact H1|]. by vm_compute.
  - destruct (weighted_share_range df (1 # 2) _ _ Hrevs Pr ltac:(done))
      as (a & Ha & Hla & Hra).
    destruct (weighted_share_range df (1 # 2) _ _ Hrates Pt ltac:(done))
      as (b & Hb & Hlb & Hrb).
    destruct (series_zip_fadd_range _ _ _ _ Hra Hrb) as (out & Hout & Hlout & Hrout).
    exists out. unfold quality_score. rewrite Ha. simpl. rewrite Hb. simpl.
    split; [done|]. split; [congruence|].
    eapply Forall_impl; [exact Hrout|]. intros o (p & -> & H0 & H1).
    exists p. split; [done|]. split; [done|].
    eapply Qle_trans; [exact H1|]. by vm_compute.
Qed.

Lemma scores_between_0_and_1_witness :
  (∃ out, popularity_score rated_counts = Ok out ∧
          length out
          = (length [CInt 1000; CInt 0; CInt 20]
             `min` length [CInt 100; CInt 0; CInt 20])
            `min` length [CFloat (Fin (100 # 1000)); CFloat (Fin 0);
                          CFloat (Fin (20 # 20))] ∧
          Forall (λ o, ∃ p, o = CFloat (Fin p) ∧ (0 <= p <= 1)%Q) out) ∧
  (∃ out, quality_score rated_counts = Ok out ∧
          length out
          = length [CInt 100; CInt 0; CInt 20]
            `min` length [CFloat (Fin (100 # 1000)); CFloat (Fin 0);
                          CFloat (Fin (20 # 20))] ∧
          Forall (λ o, ∃ p, o = CFloat (Fin p) ∧ (0 <= p <= 1)%Q) out).
Proof.
  apply (scores_between_0_and_1 rated_counts).
  - reflexivity.
  - reflexivity.
  - reflexivity.
  - split.
    + repeat constructor; eexists; (split; [reflexivity | by vm_compute]).
    + apply Exists_cons_hd. eexists. split; [reflexivity | by vm_compute].
  - split.
    + repeat constructor; eexists; (split; [reflexivity | by vm_compute]).
    + apply Exists_cons_hd. eexists. split; [reflexivity | by vm_compute].
  - split.
    + repeat constructor; eexists; (split; [reflexivity | by vm_compute]).
    + apply Exists_cons_hd. eexists. split; [reflexivity | by vm_compute].
Defined.

(** ** Scores without a review *)

Lemma foldl_fmax_zero (qs : list Q) (y : Q) :
  (y == 0)%Q → Forall (λ q, (q == 0)%Q) qs →
  ∃ m, foldl fmax (Fin y) (Fin <$> qs) = Fin m ∧ (m == 0)%Q.
Proof.
  intros Hy Hqs. revert y Hy.
  induction Hqs as [|q qs Hq _ IH]; intros y Hy; [by exists y|].
  rewrite fmap_cons. simpl. unfold fmax at 2. simpl.
  destruct (Qle_bool y q); by apply IH.
Qed.

Lemma weighted_share_zero df (w : Q) c s :
  cols df !! c = Some s → zero_column s →
  ∃ out, weighted_share df w c = Ok out ∧ length out = length s ∧
         Forall (λ o, o = CFloat NaN) out.
Proof.
  intros Hs Hz. destruct (finite_column _ _ Hz) as (qs & Hqs & Hzero).
  assert (Ht : traverse num_of s = Ok (Fin <$> qs)).
  { apply traverse_Ok. by apply Forall2_fmap_r. }
  unfold weighted_share, getitem. rewrite Hs. simpl.
  unfold series_max. rewrite Ht. simpl. rewrite filter_Fin.
  assert (Hq : ∀ m, (m = NaN ∨ ∃ z, m = Fin z ∧ (z == 0)%Q) →
               series_map (λ x, fdiv x m) s = Ok ((λ _, CFloat NaN) <$> qs)).
  { intros m Hm. apply traverse_Ok. apply Forall2_fmap_r.
    apply Forall2_same_length_lookup. split; [by eapply Forall2_length|].
    intros i c' q Hc' Hq.
    destruct (Forall2_lookup_l _ _ _ _ _ Hqs Hc') as (q' & Hq' & Hnum).
    assert (q' = q) as -> by congruence.
    simpl. rewrite Hnum. simpl. do 2 f_equal.
    destruct Hm as [->|(z & -> & Hz0)]; [done|]. simpl.
    apply Qeq_bool_iff in Hz0. rewrite Hz0.
    rewrite Forall_forall in Hzero.
    assert (Hq0 : (q == 0)%Q) by (apply Hzero; by eapply list_elem_of_lookup_2).
    apply Qeq_bool_iff in Hq0. by rewrite Hq0. }
  assert (Hout : series_map (fmul (Fin w)) ((λ _, CFloat NaN) <$> qs)
                 = Ok ((λ _, CFloat NaN) <$> qs)).
  { apply traverse_Ok. apply Forall2_fmap_r, Forall2_fmap_l.
    apply Forall_Forall2_diag, Forall_forall. by intros q _. }
  exists ((λ _, CFloat NaN) <$> qs).
  split; [|split].
  - destruct qs as [|q qs].
    + simpl. rewrite (Hq NaN) by by left. exact Hout.
    + rewrite fmap_cons.
      destruct (foldl_fmax_zero qs q) as (m & -> & Hm0).
      { by apply Forall_cons in Hzero as [? _]. }
      { by apply Forall_cons in Hzero as [_ ?]. }
      rewrite (Hq (Fin m)) by (right; by exists m). exact Hout.
  - rewrite length_fmap. symmetry. by eapply Forall2_length.
  - apply Forall_fmap, Forall_forall. by intros q _.
Qed.

Lemma series_max_total (s : list cell) : Forall numeric s → ∃ m, series_max s = Ok m.
Proof.
  intros H. destruct (traverse_num_of_total _ H) as [xs Hxs].
  unfold series_max. rewrite Hxs. by eexists.
Qed.

Lemma weighted_share_total df (w : Q) c s :
  cols df !! c = Some s → Forall numeric s →
  ∃ out, weighted_share df w c = Ok out ∧ length out = length s ∧
         Forall (λ o, ∃ x, o = CFloat x) out.
Proof.
  intros Hs Hn. destruct (series_max_total _ Hn) as [m Hm].
  unfold weighted_share, getitem. rewrite Hs. simpl. rewrite Hm. simpl.
  destruct (series_map_total (λ x, fdiv x m) s Hn) as (q & Hq & Hnq).
  rewrite Hq. simpl.
  destruct (series_map_total (fmul (Fin w)) q Hnq) as (out & Hout & _).
  exists out. split; [done|]. split.
  - rewrite (series_map_length _ _ _ Hout). by rewrite (series_map_length _ _ _ Hq).
  - apply Forall_forall. intros o Ho.
    apply list_elem_of_lookup_1 in Ho as [i Hi].
    destruct (traverse_lookup_r _ _ _ _ _ Hout Hi) as (c' & _ & Hf).
    apply bind_Ok in Hf as (x & _ & [= <-]). by eexists.
Qed.

Lemma series_zip_fadd_nan (a b : list cell) :
  Forall (λ o, ∃ x, o = CFloat x) a → Forall (λ o, ∃ x, o = CFloat x) b →
  (Forall (λ o, o = CFloat NaN) a ∨ Forall (λ o, o = CFloat NaN) b) →
  ∃ out, series_zip fadd a b = Ok out ∧
         length out = length a `min` length b ∧
         Forall (λ o, o = CFloat NaN) out.
Proof.
  intros Ha. revert b. induction Ha as [|o a [x ->] _ IH]; intros b Hb Hnan.
  - exists []. split; [reflexivity|]. split; [reflexivity | constructor].
  - destruct Hb as [|o' b [y ->] Hb].
    + exists []. split; [reflexivity|]. split; [reflexivity | constructor].
    + destruct (IH b Hb) as (out & Hout & Hlen & Hall).
      { destruct Hnan as [H|H]; apply Forall_cons in H as [_ H]; auto. }
      exists (CFloat NaN :: out). split; [|split].
      * apply traverse_Ok. apply traverse_Ok in Hout.
        change (zip (CFloat x :: a) (CFloat y :: b))
          with ((CFloat x, CFloat y) :: zip a b).
        constructor; [|done]. simpl. do 2 f_equal.
        destruct Hnan as [H|H]; apply Forall_cons in H as [[= ->] _];
          [done | by destruct x].
      * simpl. by rewrite Hlen.
      * by constructor.
Qed.

Lemma Forall_nan_float (a : list cell) :
  Forall (λ o, o = CFloat NaN) a → Forall (λ o, ∃ x, o = CFloat x) a.
Proof. intros H. eapply Forall_impl; [exact H|]. intros o ->. by eexists. Qed.

(** X17. When no course has a review (the review counts are all
    zero), the popularity score and the quality score of every course are
    NaN: the maximum of the review counts is 0, and 0 / 0 is NaN. *)
Theorem scores_without_reviews df subs revs rates :
  cols df !! "num_subscribers" = Some subs →
  cols df !! "num_reviews" = Some revs →
  cols df !! "review_rate" = Some rates →
  Forall numeric subs → zero_column revs → Forall numeric rates →
  (∃ out, popularity_score df = Ok out ∧
          length out = (length subs `min` length revs) `min` length rates ∧
          Forall (λ o, o = CFloat NaN) out) ∧
  (∃ out, quality_score df = Ok out ∧
          length out = length revs `min` length rates ∧
          Forall (λ o, o = CFloat NaN) out).
Proof.
  intros Hsubs Hrevs Hrates Ns Zr Nt.
  destruct (weighted_share_total df (2 # 5) _ _ Hsubs Ns) as (a & Ha & Hla & Fa).
  destruct (weighted_share_zero df (3 # 10) _ _ Hrevs Zr) as (b & Hb & Hlb & Fb).
  destruct (weighted_share_total df (3 # 10) _ _ Hrates Nt) as (c & Hc & Hlc & Fc).
  destruct (weighted_share_zero df (1 # 2) _ _ Hrevs Zr) as (b' & Hb' & Hlb' & Fb').
  destruct (weighted_share_total df (1 # 2) _ _ Hrates Nt) as (c' & Hc' & Hlc' & Fc').
  split.
  - destruct (series_zip_fadd_nan a b Fa (Forall_nan_float _ Fb) (or_intror Fb))
      as (ab & Hab & Hlab & Fab).
    destruct (series_zip_fadd_nan ab c (Forall_nan_float _ Fab) Fc (or_introl Fab))
      as (out & Hout & Hlout & Fout).
    exists out. unfold popularity_score. rewrite Ha. simpl. rewrite Hb. simpl.
    rewrite Hab. simpl. rewrite Hc. simpl.
    split; [done|]. split; [congruence | done].
  - destruct (series_zip_fadd_nan b' c' (Forall_nan_float _ Fb') Fc' (or_introl Fb'))
      as (out & Hout & Hlout & Fout).
    exists out. unfold quality_score. rewrite Hb'. simpl. rewrite Hc'. simpl.
    split; [done|]. split; [congruence | done].
Qed.

Lemma scores_without_reviews_witness :
  (∃ out, popularity_score unreviewed = Ok out ∧
          length out
          = (length [CInt 10; CInt 0; CInt 20] `min` length [CInt 0; CInt 0; CInt 0])
            `min` length [CFloat (Fin 0); CFloat (Fin 0); CFloat (Fin 0)] ∧
          Forall (λ o, o = CFloat NaN) out) ∧
  (∃ out, quality_score unreviewed = Ok out ∧
          length out
          = length [CInt 0; CInt 0; CInt 0]
            `min` length [CFloat (Fin 0); CFloat (Fin 0); CFloat (Fin 0)] ∧
          Forall (λ o, o = CFloat NaN) out).
Proof.
  apply (scores_without_reviews unreviewed).
  - reflexivity.
  - reflexivity.
  - reflexivity.
  - repeat constructor; by eexists.
  - repeat constructor; eexists; (split; [reflexivity | by vm_compute]).
  - repeat constructor; by eexists.
Defined.

(** ** Categories *)

Lemma cell_lt_num c x (q : Z) :
  num_of c = Ok x → cell_lt c (CInt q) = Ok (flt x (fl_of_Z q)).
Proof. intros H. unfold cell_lt, cell_cmp. by rewrite H. Qed.

Lemma flt_fl_of_Z x (q : Z) : flt x (fl_of_Z q) = true ↔ fl_lt x (inject_Z q).
Proof. apply flt_fl_lt. Qed.

Lemma not_lt_ge x (q : Q) : flt x (Fin q) = false → fl_ge x q ∨ x = NaN.
Proof.
  destruct (flt x (Fin q)) eqn:E; [discriminate|]. intros _.
  destruct x as [a| | |]; simpl; [|by left|discriminate E|by right].
  left. unfold flt in E. simpl in E.
  destruct (Qle_bool a q) eqn:E1; simpl in E.
  - apply negb_false_iff in E. by apply Qle_bool_iff.
  - apply Qlt_le_weak, Qnot_le_lt. intros H%Qle_bool_iff. congruence.
Qed.

Lemma lt_not_ge x (q : Q) : fl_lt x q → fl_ge x q ∨ x = NaN → False.
Proof.
  destruct x as [a| | |]; simpl; try done.
  - intros H [H'|[=]]. by apply (Qlt_irrefl a), (Qlt_le_trans _ q).
  - intros _ [[]|[=]].
Qed.

Lemma fl_lt_mono x (p q : Q) : fl_lt x p → (p <= q)%Q → fl_lt x q.
Proof.
  destruct x as [a| | |]; simpl; try done. intros. by eapply Qlt_le_trans.
Qed.

(** X18. The length category of a duration: 'Short' below 2,
    'Medium' from 2 to below 10, 'Long' from 10 on; a missing duration
    (NaN) is 'Long', since every comparison with NaN is false. *)
Theorem categorize_length_table c x :
  num_of c = Ok x →
  ∃ label, categorize_length c = Ok (CStr label) ∧
    (label = "Short" ↔ fl_lt x 2) ∧
    (label = "Medium" ↔ fl_ge x 2 ∧ fl_lt x 10) ∧
    (label = "Long" ↔ fl_ge x 10 ∨ x = NaN).
Proof.
  intros Hx. unfold categorize_length.
  rewrite (cell_lt_num _ _ 2 Hx), (cell_lt_num _ _ 10 Hx). simpl.
  destruct (flt x (fl_of_Z 2)) eqn:E2; simpl.
  - apply flt_fl_of_Z in E2. exists "Short". split; [done|].
    split; [by split|]. split; (split; [discriminate|]).
    + intros [H _]. destruct (lt_not_ge _ _ E2). by left.
    + intros H. destruct (lt_not_ge x 10); [|done].
      eapply fl_lt_mono; [exact E2|]. by vm_compute.
  - assert (N2 : ¬ fl_lt x 2).
    { intros H%flt_fl_of_Z. congruence. }
    destruct (flt x (fl_of_Z 10)) eqn:E10; simpl.
    + pose proof E10 as L10. apply flt_fl_of_Z in L10.
      exists "Medium". split; [done|]. split; [split; [discriminate|done]|].
      split.
      * split; [intros _|done]. split; [|done].
        destruct (not_lt_ge _ _ E2) as [H| ->]; [done|]. by simpl in L10.
      * split; [discriminate|]. intros H. by destruct (lt_not_ge _ _ L10).
    + exists "Long". split; [done|]. split; [split; [discriminate|done]|].
      split.
      * split; [discriminate|]. intros [_ H%flt_fl_of_Z]. congruence.
      * split; [|done]. intros _. by apply not_lt_ge.
Qed.

Lemma categorize_length_table_witness :
  ∃ label, categorize_length (CFloat NaN) = Ok (CStr label) ∧
    (label = "Short" ↔ fl_lt NaN 2) ∧
    (label = "Medium" ↔ fl_ge NaN 2 ∧ fl_lt NaN 10) ∧
    (label = "Long" ↔ fl_ge NaN 10 ∨ NaN = NaN).
Proof. apply (categorize_length_table (CFloat NaN) NaN). reflexivity. Defined.

Lemma cell_eqb_zero c x : num_of c = Ok x → cell_eqb c (CInt 0) = feq x (Fin 0).
Proof. destruct c; simpl; try discriminate; by intros [= <-]. Qed.

Lemma feq_zero x : feq x (Fin 0) = true → fl_lt x 50 ∧ ¬ (x = NaN).
Proof.
  destruct x as [a| | |]; try discriminate. unfold feq. simpl.
  intros [H _]%andb_true_iff. apply Qle_bool_iff in H.
  split; [|discriminate]. eapply Qle_lt_trans; [exact H|]. by vm_compute.
Qed.

(** X19. The price category of a price: 'Free' for 0, 'Budget' for
    another price below 50 (a negative one too), 'Mid-Range' from 50 to
    below 100, 'Premium' from 100 on; a missing price (NaN) is
    'Premium'. *)
Theorem categorize_price_table c x :
  num_of c = Ok x →
  ∃ label, categorize_price c = Ok (CStr label) ∧
    (label = "Free" ↔ feq x (Fin 0) = true) ∧
    (label = "Budget" ↔ feq x (Fin 0) = false ∧ fl_lt x 50) ∧
    (label = "Mid-Range" ↔ fl_ge x 50 ∧ fl_lt x 100) ∧
    (label = "Premium" ↔ fl_ge x 100 ∨ x = NaN).
Proof.
  intros Hx. unfold categorize_price. rewrite (cell_eqb_zero _ _ Hx).
  rewrite (cell_lt_num _ _ 50 Hx), (cell_lt_num _ _ 100 Hx).
  destruct (feq x (Fin 0)) eqn:E0; simpl.
  - destruct (feq_zero _ E0) as [L50 Hnan].
    exists "Free". split; [done|]. split; [by split|].
    split; [split; [discriminate | by intros [[=] _]]|].
    split; (split; [discriminate|]).
    + intros [H _]. destruct (lt_not_ge _ _ L50). by left.
    + intros H. destruct (lt_not_ge x 100); [|done].
      eapply fl_lt_mono; [exact L50|]. by vm_compute.
  - destruct (flt x (fl_of_Z 50)) eqn:E50; simpl.
    + pose proof E50 as L50. apply flt_fl_of_Z in L50.
      exists "Budget". split; [done|]. split; [split; [discriminate|done]|].
      split; [by split|]. split; (split; [discriminate|]).
      * intros [H _]. destruct (lt_not_ge _ _ L50). by left.
      * intros H. destruct (lt_not_ge x 100); [|done].
        eapply fl_lt_mono; [exact L50|]. by vm_compute.
    + assert (N50 : ¬ fl_lt x 50).
      { intros H%flt_fl_of_Z. congruence. }
      destruct (flt x (fl_of_Z 100)) eqn:E100; simpl.
      * pose proof E100 as L100. apply flt_fl_of_Z in L100.
        exists "Mid-Range". split; [done|]. split; [split; [discriminate|done]|].
        split; [split; [discriminate | by intros [_ ?]]|].
        split.
        -- split; [intros _|done]. split; [|done].
           destruct (not_lt_ge _ _ E50) as [H| ->]; [done|]. by simpl in L100.
        -- split; [discriminate|]. intros H. by destruct (lt_not_ge _ _ L100).
      * exists "Premium". split; [done|]. split; [split; [discriminate|done]|].
        split; [split; [discriminate | by intros [_ ?]]|].
        split.
        -- split; [discriminate|]. intros [_ H%flt_fl_of_Z]. congruence.
        -- split; [|done]. intros _. by apply not_lt_ge.
Qed.

Lemma categorize_price_table_witness :
  ∃ label, categorize_price (CInt (-5)) = Ok (CStr label) ∧
    (label = "Free" ↔ feq (fl_of_Z (-5)) (Fin 0) = true) ∧
    (label = "Budget" ↔ feq (fl_of_Z (-5)) (Fin 0) = false ∧ fl_lt (fl_of_Z (-5)) 50) ∧
    (label = "Mid-Range" ↔ fl_ge (fl_of_Z (-5)) 50 ∧ fl_lt (fl_of_Z (-5)) 100) ∧
    (label = "Premium" ↔ fl_ge (fl_of_Z (-5)) 100 ∨ fl_of_Z (-5) = NaN).
Proof. apply (categorize_price_table (CInt (-5)) (fl_of_Z (-5))). reflexivity. Defined.

(** ** Column names *)

Lemma clean_column_name_length col :
  String.length (clean_column_name col) ≤ String.length col.
Proof.
  induction col as [|a col IH]; simpl; [done|].
  destruct (word_char a); simpl; lia.
Qed.

Lemma clean_column_name_fixed col : clean_column_name col = col ↔ word col = true.
Proof.
  induction col as [|a col IH]; simpl; [done|].
  destruct (word_char a); simpl.
  - rewrite <- IH. split; [by intros [= ->] | by intros ->].
  - split; [|discriminate]. intros H.
    pose proof (clean_column_name_length col) as Hlen.
    rewrite H in Hlen. simpl in Hlen. lia.
Qed.

(** X20. The cleaning of a column name keeps the letters, digits and
    underscores of the name, in their order, and nothing else: the
    result is a name of such characters only, cleaning it again changes
    nothing, and a name is left as it is exactly when it holds no other
    character. *)
Theorem clean_column_name_word col :
  word (clean_column_name col) = true ∧
  clean_column_name (clean_column_name col) = clean_column_name col ∧
  (clean_column_name col = col ↔ word col = true) ∧
  String.length (clean_column_name col) ≤ String.length col.
Proof.
  assert (Hw : word (clean_column_name col) = true).
  { induction col as [|a col IH]; simpl; [done|].
    destruct (word_char a) eqn:E; simpl; [|done]. by rewrite E, IH. }
  split; [done|]. split; [by apply clean_column_name_fixed|].
  split; [apply clean_column_name_fixed | apply clean_column_name_length].
Qed.

(** Two names the cleaning maps to one. *)
Example clean_column_name_collision :
  clean_column_name "price ($)" = clean_column_name "price".
Proof. reflexivity. Qed.

(** ** Duplicate rows *)

Lemma select_sublist {A} (mask : list bool) (s : list A) : sublist (select mask s) s.
Proof.
  revert s. induction mask as [|b mask IH]; intros [|x s]; simpl;
    try apply sublist_nil_l.
  destruct b; [by apply sublist_skip | by apply sublist_cons].
Qed.

(** The rows the mask keeps, by position. *)
Lemma select_positions {A} (mask : list bool) (full s : list A) (a : nat) :
  drop a full = s → length s = length mask →
  select mask s = omap (λ i, full !! i) (select mask (seq a (length mask))).
Proof.
  revert s a. induction mask as [|b mask IH]; intros s a Hs Hlen; [done|].
  destruct s as [|x s]; [done|]. simpl in Hlen.
  assert (Hx : full !! a = Some x).
  { pose proof (lookup_drop full a 0) as H. rewrite Hs in H. simpl in H.
    by rewrite Nat.add_0_r in H. }
  assert (Hs' : drop (S a) full = s).
  { rewrite (drop_S _ _ _ Hx) in Hs. by injection Hs. }
  cbn [length seq select]. destruct b.
  - cbn [omap list_omap]. rewrite Hx. f_equal. by apply IH; [|lia].
  - by apply IH; [|lia].
Qed.

Lemma elem_of_select_seq (mask : list bool) (a i : nat) :
  i ∈ select mask (seq a (length mask)) ↔ a ≤ i ∧ mask !! (i - a) = Some true.
Proof.
  revert a. induction mask as [|b mask IH]; intros a.
  - simpl. rewrite elem_of_nil. split; [done|]. by intros [_ ?].
  - cbn [length seq select].
    assert (Hstep : i ∈ select mask (seq (S a) (length mask))
                    ↔ S a ≤ i ∧ (b :: mask) !! (i - a) = Some true).
    { rewrite IH. split; intros [Hle H]; (split; [done|]).
      - replace (i - a) with (S (i - S a)) by lia. exact H.
      - replace (i - a) with (S (i - S a)) in H by lia. exact H. }
    destruct b.
    + rewrite elem_of_cons, Hstep. split.
      * intros [->|[Hle H]]; [|split; [lia|done]].
        split; [done|]. by rewrite Nat.sub_diag.
      * intros [Hle H]. destruct (decide (i = a)) as [->|Hne]; [by left|].
        right. split; [lia|done].
    + rewrite Hstep. split.
      * intros [Hle H]. split; [lia|done].
      * intros [Hle H]. destruct (decide (i = a)) as [->|Hne].
        -- rewrite Nat.sub_diag in H. discriminate.
        -- split; [lia|done].
Qed.

Lemma seq_sorted (a n : nat) : StronglySorted lt (seq a n).
Proof.
  revert a. induction n as [|n IH]; intros a; simpl; constructor; [apply IH|].
  apply Forall_forall. intros i Hi. apply elem_of_seq in Hi. lia.
Qed.

Section duplicates_properties.
Variable same_key : cell → cell → bool.

Lemma duplicated_after_length seen keys :
  length (duplicated_after same_key seen keys) = length keys.
Proof.
  revert seen. induction keys as [|k keys IH]; intros seen; simpl; [done|].
  by rewrite IH.
Qed.

Lemma duplicated_after_lookup seen keys i k :
  keys !! i = Some k →
  duplicated_after same_key seen keys !! i
  = Some (existsb (same_key k) (seen ++ take i keys)).
Proof.
  revert seen i. induction keys as [|k0 keys IH]; intros seen i Hi; [done|].
  destruct i as [|i]; simpl in *.
  - injection Hi as ->. by rewrite app_nil_r.
  - rewrite (IH _ _ Hi). by rewrite <- app_assoc.
Qed.

(** A row is kept when no row before it has its key. *)
Lemma kept_first keys i :
  (negb <$> duplicated same_key keys) !! i = Some true ↔
  ∃ k, keys !! i = Some k ∧
       ∀ j k', j < i → keys !! j = Some k' → same_key k k' = false.
Proof.
  rewrite list_lookup_fmap. unfold duplicated. split.
  - intros H. destruct (keys !! i) as [k|] eqn:Hk.
    + rewrite (duplicated_after_lookup _ _ _ _ Hk) in H. simpl in H.
      injection H as H. apply negb_true_iff in H.
      exists k. split; [done|]. intros j k' Hj Hk'.
      destruct (same_key k k') eqn:E; [|done].
      assert (Hex : existsb (same_key k) (take i keys) = true); [|congruence].
      apply existsb_exists. exists k'. split; [|done].
      apply list_elem_of_In. apply (list_elem_of_lookup_2 _ j).
      by rewrite lookup_take_lt.
    + apply lookup_ge_None in Hk.
      rewrite lookup_ge_None_2 in H; [done|].
      by rewrite duplicated_after_length.
  - intros (k & Hk & Hfirst).
    rewrite (duplicated_after_lookup _ _ _ _ Hk). simpl. do 2 f_equal.
    destruct (existsb _ _) eqn:E; [|done].
    apply existsb_exists in E as (k' & Hin & Hsame).
    apply list_elem_of_In, list_elem_of_lookup_1 in Hin as [j Hj].
    pose proof (lookup_lt_Some _ _ _ Hj) as Hlt.
    rewrite length_take in Hlt.
    rewrite lookup_take_lt in Hj by lia.
    rewrite (Hfirst j k') in Hsame; [done | lia | done].
Qed.
End duplicates_properties.

Lemma select_rows {A} (mask : list bool) (full s : list A) (a : nat) :
  drop a full = s → length s = length mask →
  Forall2 (λ i x, full !! i = Some x)
    (select mask (seq a (length mask))) (select mask s).
Proof.
  revert s a. induction mask as [|b mask IH]; intros s a Hs Hlen; [constructor|].
  destruct s as [|x s]; [done|]. simpl in Hlen.
  assert (Hx : full !! a = Some x).
  { pose proof (lookup_drop full a 0) as H. rewrite Hs in H. simpl in H.
    by rewrite Nat.add_0_r in H. }
  assert (Hs' : drop (S a) full = s).
  { rewrite (drop_S _ _ _ Hx) in Hs. by injection Hs. }
  cbn [length seq select]. destruct b.
  - constructor; [done|]. by apply IH; [|lia].
  - by apply IH; [|lia].
Qed.

Lemma select_length {A B} (mask : list bool) (s : list A) (t : list B) :
  length s = length mask → length t = length mask →
  length (select mask s) = length (select mask t).
Proof.
  revert s t. induction mask as [|b mask IH]; intros [|x s] [|y t] Hs Ht;
    try done.
  simpl in *. destruct b; simpl; [f_equal|]; apply IH; lia.
Qed.

Lemma select_all {A} (mask : list bool) (s : list A) :
  Forall (λ b, b = true) mask → length s = length mask → select mask s = s.
Proof.
  intros H. revert s. induction H as [|b mask -> _ IH]; intros [|x s] Hlen;
    try done.
  simpl in *. f_equal. apply IH. lia.
Qed.

Lemma select_fmap {A B} (f : A → B) (mask : list bool) (s : list A) :
  select mask (f <$> s) = f <$> select mask s.
Proof.
  revert s. induction mask as [|b mask IH]; intros [|x s]; try done.
  simpl. destruct b; simpl; by rewrite IH.
Qed.

Lemma sorted_lookup_lt (kept : list nat) (i' j' i j : nat) :
  StronglySorted lt kept → kept !! j' = Some j → kept !! i' = Some i →
  j' < i' → j < i.
Proof.
  intros Hs. revert i' j'.
  induction Hs as [|a kept Hs IH Ha]; intros i' j' Hj Hi Hlt; [done|].
  destruct i' as [|i']; [lia|]. simpl in Hi.
  destruct j' as [|j']; simpl in Hj.
  - injection Hj as <-. rewrite Forall_forall in Ha. apply Ha.
    by eapply list_elem_of_lookup_2.
  - eapply IH; [exact Hj | exact Hi | lia].
Qed.

Section drop_duplicates_properties.
Variable same_key : cell → cell → bool.

(** What [drop_duplicates] returns on a well-formed frame: the mask,
    the kept positions and the columns. *)
Lemma drop_duplicates_inv subset df g :
  frame_wf df → drop_duplicates same_key subset df = Ok g →
  ∃ keys mask,
    cols df !! subset = Some keys ∧ length keys = nrows df ∧
    mask = negb <$> duplicated same_key keys ∧ length mask = nrows df ∧
    g = Frame (length (select mask (seq 0 (nrows df)))) (select mask <$> cols df).
Proof.
  intros Hwf H. unfold drop_duplicates in H.
  apply bind_Ok in H as (keys & Hkeys%getitem_Ok & [= <-]).
  exists keys, (negb <$> duplicated same_key keys).
  pose proof (Hwf _ _ Hkeys) as Hlen. simpl in Hlen.
  split; [done|]. split; [done|]. split; [done|]. split; [|done].
  rewrite length_fmap. unfold duplicated. by rewrite duplicated_after_length.
Qed.

(** X21. On a table whose columns have one cell per row,
    [drop_duplicates] keeps exactly the rows no earlier row of which has
    the same key, in their order; every column is cut to the same rows,
    so the cells of a row stay together, and the table has the same
    columns. *)
Theorem drop_duplicates_rows subset df g :
  frame_wf df → drop_duplicates same_key subset df = Ok g →
  ∃ keys kept,
    cols df !! subset = Some keys ∧
    StronglySorted lt kept ∧ nrows g = length kept ∧ frame_wf g ∧
    (∀ i, i ∈ kept ↔
          ∃ k, keys !! i = Some k ∧
               ∀ j k', j < i → keys !! j = Some k' → same_key k k' = false) ∧
    (∀ name, cols g !! name = None ↔ cols df !! name = None) ∧
    (∀ name s s', cols df !! name = Some s → cols g !! name = Some s' →
                  Forall2 (λ i x, s !! i = Some x) kept s').
Proof.
  intros Hwf H.
  destruct (drop_duplicates_inv _ _ _ Hwf H)
    as (keys & mask & Hkeys & Hlen & Hmask & Hlm & ->).
  exists keys, (select mask (seq 0 (nrows df))).
  split; [done|]. split.
  { eapply StronglySorted_sublist; [apply select_sublist | apply seq_sorted]. }
  split; [done|]. split.
  { intros name s'. simpl. rewrite lookup_fmap.
    destruct (cols df !! name) as [s|] eqn:Hs; [|done]. intros [= <-].
    apply select_length; [|by rewrite length_seq].
    rewrite Hlm. exact (Hwf _ _ Hs). }
  split.
  { intros i. rewrite <- Hlm at 1. rewrite elem_of_select_seq.
    rewrite Nat.sub_0_r, Hmask, kept_first. split; [by intros [_ ?]|].
    intros ?. split; [lia|done]. }
  split.
  { intros name. simpl. rewrite lookup_fmap.
    by destruct (cols df !! name). }
  intros name s s' Hs. simpl. rewrite lookup_fmap, Hs. intros [= <-].
  rewrite <- Hlm at 1. apply select_rows; [done|].
  rewrite Hlm. exact (Hwf _ _ Hs).
Qed.

(** X22. Dropping the duplicates of a table without duplicates changes
    nothing: [drop_duplicates] on its own result returns that result. *)
Theorem drop_duplicates_idempotent subset df g :
  frame_wf df → drop_duplicates same_key subset df = Ok g →
  drop_duplicates same_key subset g = Ok g.
Proof.
  intros Hwf H.
  destruct (drop_duplicates_inv _ _ _ Hwf H)
    as (keys & mask & Hkeys & Hlen & Hmask & Hlm & ->).
  set (kept := select mask (seq 0 (nrows df))).
  assert (Hsorted : StronglySorted lt kept).
  { eapply StronglySorted_sublist; [apply select_sublist | apply seq_sorted]. }
  assert (Hrows : Forall2 (λ i x, keys !! i = Some x) kept (select mask keys)).
  { unfold kept. rewrite <- Hlm. apply select_rows; [done | congruence]. }
  assert (Hall : Forall (λ b, b = true)
                   (negb <$> duplicated same_key (select mask keys))).
  { apply Forall_forall. intros b Hb.
    apply list_elem_of_lookup_1 in Hb as [i' Hi'].
    destruct (select mask keys !! i') as [k|] eqn:Hk.
    2: { apply lookup_ge_None in Hk. rewrite lookup_ge_None_2 in Hi'; [done|].
         rewrite length_fmap. unfold duplicated.
         by rewrite duplicated_after_length. }
    assert (Ht : (negb <$> duplicated same_key (select mask keys)) !! i'
                 = Some true); [|congruence].
    apply kept_first. exists k. split; [done|]. intros j' k' Hj' Hk'.
    destruct (Forall2_lookup_r _ _ _ _ _ Hrows Hk) as (i & Hi & Hki).
    destruct (Forall2_lookup_r _ _ _ _ _ Hrows Hk') as (j & Hj & Hkj).
    pose proof (sorted_lookup_lt _ _ _ _ _ Hsorted Hj Hi Hj') as Hlt.
    assert (Hin : i ∈ kept) by by eapply list_elem_of_lookup_2.
    unfold kept in Hin. rewrite <- Hlm in Hin at 1.
    apply elem_of_select_seq in Hin as [_ Hin].
    rewrite Nat.sub_0_r, Hmask in Hin.
    apply kept_first in Hin as (k0 & Hk0 & Hfirst).
    assert (k0 = k) as -> by congruence. by eapply Hfirst. }
  assert (Hlk : length (select mask keys) = length kept).
  { symmetry. by eapply Forall2_length. }
  unfold drop_duplicates, getitem. simpl. rewrite lookup_fmap, Hkeys. simpl.
  fold kept. f_equal.
  assert (Hmlen : length (negb <$> duplicated same_key (select mask keys))
                  = length kept).
  { rewrite length_fmap. unfold duplicated.
    by rewrite duplicated_after_length. }
  f_equal.
  - rewrite select_all; [by rewrite length_seq | done |].
    by rewrite length_seq, Hmlen.
  - rewrite <- map_fmap_compose. apply map_eq. intros name.
    rewrite !lookup_fmap. destruct (cols df !! name) as [s|] eqn:Hs; [|done].
    simpl. f_equal. apply select_all; [done|]. rewrite Hmlen.
    apply select_length; [|by rewrite length_seq].
    rewrite Hlm. exact (Hwf _ _ Hs).
Qed.
End drop_duplicates_properties.

Lemma drop_duplicates_rows_witness :
  ∃ g, drop_duplicates cell_eqb "course_id" repeated_ids = Ok g ∧
  ∃ keys kept,
    cols repeated_ids !! "course_id" = Some keys ∧
    StronglySorted lt kept ∧ nrows g = length kept ∧ frame_wf g ∧
    (∀ i, i ∈ kept ↔
          ∃ k, keys !! i = Some k ∧
               ∀ j k', j < i → keys !! j = Some k' → cell_eqb k k' = false) ∧
    (∀ name, cols g !! name = None ↔ cols repeated_ids !! name = None) ∧
    (∀ name s s', cols repeated_ids !! name = Some s → cols g !! name = Some s' →
                  Forall2 (λ i x, s !! i = Some x) kept s').
Proof.
  eexists. split; [vm_compute; reflexivity|].
  apply (drop_duplicates_rows cell_eqb "course_id" repeated_ids).
  - compute_done.
  - vm_compute. reflexivity.
Defined.

Lemma drop_duplicates_idempotent_witness :
  ∃ g, drop_duplicates cell_eqb "course_id" repeated_ids = Ok g ∧
       drop_duplicates cell_eqb "course_id" g = Ok g.
Proof.
  eexists. split; [vm_compute; reflexivity|].
  apply (drop_duplicates_idempotent cell_eqb "course_id" repeated_ids).
  - compute_done.
  - vm_compute. reflexivity.
Defined.

Lemma cell_eqb_int (a b : Z) : cell_eqb (CInt a) (CInt b) = (a =? b)%Z.
Proof.
  unfold cell_eqb. simpl. unfold feq, fl_of_Z. simpl.
  rewrite !Qle_bool_inject_Z. lia.
Qed.

(** X23. After [drop_duplicates(subset=['course_id'], keep='first')]
    on a table with integer identities, no identity occurs twice, every
    identity of the table is still there, and the identities are in the
    order of their first occurrences. *)
Theorem drop_duplicates_unique_ids df g (ids : list Z) :
  frame_wf df → cols df !! "course_id" = Some (CInt <$> ids) →
  drop_duplicates cell_eqb "course_id" df = Ok g →
  ∃ ids', cols g !! "course_id" = Some (CInt <$> ids') ∧
          NoDup ids' ∧ (∀ z, z ∈ ids' ↔ z ∈ ids) ∧ ids' `sublist_of` ids.
Proof.
  intros Hwf Hids H.
  destruct (drop_duplicates_inv _ _ _ _ Hwf H)
    as (keys & mask & Hkeys & Hlen & Hmask & Hlm & ->).
  assert (keys = CInt <$> ids) as -> by congruence.
  rewrite length_fmap in Hlen.
  set (kept := select mask (seq 0 (nrows df))).
  assert (Hsorted : StronglySorted lt kept).
  { eapply StronglySorted_sublist; [apply select_sublist | apply seq_sorted]. }
  assert (Hrows : Forall2 (λ i z, ids !! i = Some z) kept (select mask ids)).
  { unfold kept. rewrite <- Hlm. apply select_rows; [done | congruence]. }
  assert (Hkept : ∀ i, i ∈ kept ↔
            ∃ z, ids !! i = Some z ∧ ∀ j, j < i → ids !! j ≠ Some z).
  { intros i. unfold kept. rewrite <- Hlm at 1. rewrite elem_of_select_seq.
    rewrite Nat.sub_0_r, Hmask, kept_first. split.
    - intros [_ (k & Hk & Hfirst)].
      rewrite list_lookup_fmap in Hk.
      destruct (ids !! i) as [z|] eqn:Hz; [|discriminate]. injection Hk as <-.
      exists z. split; [done|]. intros j Hj Hjz.
      specialize (Hfirst j (CInt z) Hj).
      rewrite list_lookup_fmap, Hjz in Hfirst. specialize (Hfirst eq_refl).
      rewrite cell_eqb_int in Hfirst. lia.
    - intros (z & Hz & Hfirst). split; [lia|]. exists (CInt z).
      split; [by rewrite list_lookup_fmap, Hz|]. intros j k' Hj Hk'.
      rewrite list_lookup_fmap in Hk'.
      destruct (ids !! j) as [z'|] eqn:Hz'; [|discriminate]. injection Hk' as <-.
      rewrite cell_eqb_int. apply Z.eqb_neq. intros ->. by apply (Hfirst j). }
  exists (select mask ids). split; [|split; [|split]].
  - simpl. rewrite lookup_fmap, Hids. simpl. by rewrite select_fmap.
  - apply NoDup_alt. intros i' j' z Hi' Hj'.
    destruct (Forall2_lookup_r _ _ _ _ _ Hrows Hi') as (i & Hi & Hiz).
    destruct (Forall2_lookup_r _ _ _ _ _ Hrows Hj') as (j & Hj & Hjz).
    assert (Hin_i : i ∈ kept) by by eapply list_elem_of_lookup_2.
    assert (Hin_j : j ∈ kept) by by eapply list_elem_of_lookup_2.
    apply Hkept in Hin_i as (zi & Hzi & Hfi).
    apply Hkept in Hin_j as (zj & Hzj & Hfj).
    assert (zi = z) as -> by congruence. assert (zj = z) as -> by congruence.
    destruct (Nat.lt_trichotomy i' j') as [Hlt|[->|Hlt]]; [|done|].
    + pose proof (sorted_lookup_lt _ _ _ _ _ Hsorted Hi Hj Hlt). by destruct (Hfj i).
    + pose proof (sorted_lookup_lt _ _ _ _ _ Hsorted Hj Hi Hlt). by destruct (Hfi j).
  - intros z. split.
    + intros Hz. eapply elem_of_sublist; [exact Hz | apply select_sublist].
    + intros Hz.
      destruct (list_find (λ y, y = z) ids) as [[i y]|] eqn:Hfind.
      * apply list_find_Some in Hfind as (Hi & -> & Hfirst).
        assert (Hin : i ∈ kept).
        { apply Hkept. exists z. split; [done|]. intros j Hj Hjz.
          by apply (Hfirst j z). }
        apply list_elem_of_lookup_1 in Hin as [i' Hi'].
        destruct (Forall2_lookup_l _ _ _ _ _ Hrows Hi') as (z' & Hz' & Hiz).
        assert (z' = z) as -> by congruence.
        by eapply list_elem_of_lookup_2.
      * apply list_find_None in Hfind. rewrite Forall_forall in Hfind.
        by destruct (Hfind z).
  - apply select_sublist.
Qed.

Lemma drop_duplicates_unique_ids_witness :
  ∃ g, drop_duplicates cell_eqb "course_id" repeated_ids = Ok g ∧
  ∃ ids', cols g !! "course_id" = Some (CInt <$> ids') ∧
          NoDup ids' ∧ (∀ z, z ∈ ids' ↔ z ∈ [1; 2; 1; 3; 2]%Z) ∧
          ids' `sublist_of` [1; 2; 1; 3; 2]%Z.
Proof.
  eexists. split; [vm_compute; reflexivity|].
  apply (drop_duplicates_unique_ids repeated_ids).
  - compute_done.
  - reflexivity.
  - vm_compute. reflexivity.
Defined.

(** ** The page's query *)

Lemma select_head {A} (mask : list bool) (s : list A) (i : nat) (v : A) :
  mask !! i = Some true → (∀ j, j < i → mask !! j = Some false) →
  s !! i = Some v → ∃ rest, select mask s = v :: rest.
Proof.
  revert mask s. induction i as [|i IH]; intros [|b mask] [|x s] Hi Hfirst Hv;
    try done; simpl in *.
  - injection Hi as ->. injection Hv as ->. by eexists.
  - pose proof (Hfirst 0 ltac:(lia)) as H0. simpl in H0. injection H0 as ->.
    apply IH; [done| |done]. intros j Hj. apply (Hfirst (S j)). lia.
Qed.

(** X24. The page asks for the recommendations of the course whose
    title was selected: [df[df['course_title'] == selected]['course_id']
    .values[0]], then [get_recommendations] on [df_rec] with [n=10].  For
    a title of the table, integer identities and a ready [df_rec] with
    the identities of [df], the course queried is the first with that
    title, the query reports no error, and it returns at most 10 rows. *)
Theorem selected_course_recommendations df df_rec cosine_sim titles (ids : list Z)
    (t : string) (m : Z) :
  frame_wf df →
  cols df !! "course_title" = Some titles →
  cols df !! "course_id" = Some (CInt <$> ids) →
  cols df_rec !! "course_id" = Some (CInt <$> ids) →
  CStr t ∈ titles → query_ready df_rec cosine_sim →
  ∃ i z,
    titles !! i = Some (CStr t) ∧
    (∀ j c, j < i → titles !! j = Some c → c ≠ CStr t) ∧
    ids !! i = Some z ∧
    first_where df "course_title" (CStr t) "course_id" = Ok (CInt z) ∧
    (get_recommendations (CInt z) df_rec cosine_sim 10 m).2 = [] ∧
    nrows (get_recommendations (CInt z) df_rec cosine_sim 10 m).1 ≤ 10.
Proof.
  intros Hwf Htitles Hids Hids' Hin Hready.
  assert (Heq : ∀ c, cell_eqb c (CStr t) = true ↔ c = CStr t).
  { intros c. destruct c as [z|x|s|b|]; simpl; try (split; [discriminate|done]).
    rewrite String.eqb_eq. split; [by intros -> | by intros [= ->]]. }
  destruct (list_find (λ c, Is_true (cell_eqb c (CStr t))) titles)
    as [[i c]|] eqn:Hfind.
  2: { apply list_find_None in Hfind. rewrite Forall_forall in Hfind.
       destruct (Hfind _ Hin). apply Is_true_true. by apply Heq. }
  apply list_find_Some in Hfind as (Hi & Hc & Hfirst0).
  apply Is_true_true, Heq in Hc. subst c.
  assert (Hfirst : ∀ j c, titles !! j = Some c → j < i → c ≠ CStr t).
  { intros j c Hj Hlt ->. destruct (Hfirst0 j _ Hj Hlt).
    apply Is_true_true. by apply Heq. }
  assert (Hlen : length titles = length ids).
  { pose proof (Hwf _ _ Htitles) as H1. pose proof (Hwf _ _ Hids) as H2.
    simpl in H1, H2. rewrite length_fmap in H2. congruence. }
  destruct (lookup_lt_is_Some_2 ids i) as [z Hz].
  { rewrite <- Hlen. by eapply lookup_lt_Some. }
  exists i, z. split; [done|]. split.
  { intros j c Hj Hc. by apply (Hfirst j c). }
  split; [done|]. split.
  { unfold first_where, getitem. rewrite Htitles, Hids. simpl.
    destruct (select_head ((λ k, cell_eqb k (CStr t)) <$> titles)
                (CInt <$> ids) i (CInt z)) as [rest ->]; [| | |done].
    - rewrite list_lookup_fmap, Hi. simpl. f_equal. apply String.eqb_refl.
    - intros j Hj.
      destruct (lookup_lt_is_Some_2 titles j) as [c Hc].
      { apply lookup_lt_Some in Hi. lia. }
      rewrite list_lookup_fmap, Hc. simpl. f_equal.
      destruct (cell_eqb c (CStr t)) eqn:E; [|done].
      apply Heq in E. by destruct (Hfirst j c Hc Hj).
    - by rewrite list_lookup_fmap, Hz. }
  assert (Hp : present (CInt z) df_rec).
  { exists (CInt <$> ids), i, (CInt z). split; [done|].
    split; [by rewrite list_lookup_fmap, Hz|].
    rewrite cell_eqb_int. apply Z.eqb_refl. }
  destruct (try_recommendations_present _ _ _ 10 m Hready Hp)
    as (idx & row & recs & _ & _ & Hrecs & E).
  unfold get_recommendations. rewrite E. simpl. split; [done|].
  apply collect_bound in Hrecs; simpl; lia.
Qed.

Lemma selected_course_recommendations_witness :
  ∃ i z,
    [CStr "Python"; CStr "Python"; CStr "Python"] !! i = Some (CStr "Python") ∧
    (∀ j c, j < i → [CStr "Python"; CStr "Python"; CStr "Python"] !! j = Some c →
            c ≠ CStr "Python") ∧
    [1; 2; 3]%Z !! i = Some z ∧
    first_where three_courses "course_title" (CStr "Python") "course_id"
    = Ok (CInt z) ∧
    (get_recommendations (CInt z) three_courses (ones 3) 10 5).2 = [] ∧
    nrows (get_recommendations (CInt z) three_courses (ones 3) 10 5).1 ≤ 10.
Proof.
  apply (selected_course_recommendations three_courses three_courses (ones 3)).
  - compute_done.
  - reflexivity.
  - reflexivity.
  - reflexivity.
  - apply elem_of_cons. by left.
  - exact three_courses_ready.
Defined.

(** ** Rows with a missing title or subject *)

Lemma fillna_str_notna c : isna c = false → fillna_str c = c.
Proof. destruct c as [| [| | |] | | |]; simpl; by try discriminate. Qed.

(** X25. On a table whose columns have one cell per row,
    [dropna(subset=...)] keeps exactly the rows none of whose cells in
    the columns of [subset] is missing, in their order, and cuts every
    column to the same rows.  No cell of these columns is missing in
    the result, so the [fillna('')] of [build_recommender] replaces
    nothing in titles and subjects the import script has cleaned. *)
Theorem dropna_rows subset df g :
  frame_wf df → dropna subset df = Ok g →
  ∃ kept,
    StronglySorted lt kept ∧ nrows g = length kept ∧ frame_wf g ∧
    (∀ i, i ∈ kept ↔
          i < nrows df ∧
          ∀ name s c, name ∈ subset → cols df !! name = Some s →
                      s !! i = Some c → isna c = false) ∧
    (∀ name, cols g !! name = None ↔ cols df !! name = None) ∧
    (∀ name s s', cols df !! name = Some s → cols g !! name = Some s' →
                  Forall2 (λ i x, s !! i = Some x) kept s') ∧
    (∀ name s' c, name ∈ subset → cols g !! name = Some s' → c ∈ s' →
                  isna c = false ∧ fillna_str c = c).
Proof.
  intros Hwf H. unfold dropna in H.
  apply bind_Ok in H as (columns & Hcolumns & [= <-]).
  apply traverse_Ok in Hcolumns.
  set (mask := notna_row columns <$> seq 0 (nrows df)).
  assert (Hlm : length mask = nrows df).
  { unfold mask. by rewrite length_fmap, length_seq. }
  set (kept := select mask (seq 0 (nrows df))).
  assert (Hkept : ∀ i, i ∈ kept ↔
            i < nrows df ∧
            ∀ name s c, name ∈ subset → cols df !! name = Some s →
                        s !! i = Some c → isna c = false).
  { intros i. unfold kept. rewrite <- Hlm at 1. rewrite elem_of_select_seq.
    rewrite Nat.sub_0_r. unfold mask. rewrite list_lookup_fmap. split.
    - intros [_ Hi].
      destruct (seq 0 (nrows df) !! i) as [i0|] eqn:Hseq; [|discriminate].
      pose proof (lookup_lt_Some _ _ _ Hseq) as Hlt. rewrite length_seq in Hlt.
      rewrite lookup_seq_lt in Hseq by done. injection Hseq as <-.
      simpl in Hi. injection Hi as Hi. split; [done|].
      intros name s c Hname Hs Hc.
      apply list_elem_of_lookup_1 in Hname as [k Hk].
      destruct (Forall2_lookup_l _ _ _ _ _ Hcolumns Hk) as (s0 & Hs0 & Hget).
      apply getitem_Ok in Hget. assert (s0 = s) as -> by congruence.
      unfold notna_row in Hi. rewrite forallb_forall in Hi.
      specialize (Hi s). rewrite Hc in Hi. apply negb_true_iff. apply Hi.
      apply list_elem_of_In. by eapply list_elem_of_lookup_2.
    - intros [Hlt Hall]. split; [lia|].
      rewrite lookup_seq_lt by done. simpl. f_equal.
      unfold notna_row. apply forallb_forall. intros s Hs.
      apply list_elem_of_In, list_elem_of_lookup_1 in Hs as [k Hk].
      destruct (Forall2_lookup_r _ _ _ _ _ Hcolumns Hk) as (name & Hname & Hget).
      apply getitem_Ok in Hget.
      destruct (s !! i) as [c|] eqn:Hc; [|done]. apply negb_true_iff.
      eapply Hall; [|exact Hget|exact Hc]. by eapply list_elem_of_lookup_2. }
  assert (Hrows : ∀ name s s', cols df !! name = Some s →
            cols (Frame (length kept) (select mask <$> cols df)) !! name = Some s' →
            Forall2 (λ i x, s !! i = Some x) kept s').
  { intros name s s' Hs. simpl. rewrite lookup_fmap, Hs. intros [= <-].
    unfold kept. rewrite <- Hlm at 1. apply select_rows; [done|].
    rewrite Hlm. exact (Hwf _ _ Hs). }
  exists kept. split.
  { eapply StronglySorted_sublist; [apply select_sublist | apply seq_sorted]. }
  split; [done|]. split.
  { intros name s'. simpl. rewrite lookup_fmap.
    destruct (cols df !! name) as [s|] eqn:Hs; [|done]. intros [= <-].
    apply select_length; [|by rewrite length_seq].
    rewrite Hlm. exact (Hwf _ _ Hs). }
  split; [exact Hkept|]. split.
  { intros name. simpl. rewrite lookup_fmap. by destruct (cols df !! name). }
  split; [exact Hrows|].
  intros name s' c Hname Hs' Hc.
  assert (Hna : isna c = false); [|split; [done | by apply fillna_str_notna]].
  destruct (cols df !! name) as [s|] eqn:Hs.
  2: { simpl in Hs'. by rewrite lookup_fmap, Hs in Hs'. }
  pose proof (Hrows name s s' Hs Hs') as Hall.
  apply list_elem_of_lookup_1 in Hc as [i' Hi'].
  destruct (Forall2_lookup_r _ _ _ _ _ Hall Hi') as (i & Hi & Hsi).
  assert (Hin : i ∈ kept) by by eapply list_elem_of_lookup_2.
  apply Hkept in Hin as [_ Hin]. by eapply Hin.
Qed.

Lemma dropna_rows_witness :
  ∃ g, dropna ["course_title"; "subject"] missing_texts = Ok g ∧
  ∃ kept,
    StronglySorted lt kept ∧ nrows g = length kept ∧ frame_wf g ∧
    (∀ i, i ∈ kept ↔
          i < nrows missing_texts ∧
          ∀ name s c, name ∈ ["course_title"; "subject"] →
                      cols missing_texts !! name = Some s →
                      s !! i = Some c → isna c = false) ∧
    (∀ name, cols g !! name = None ↔ cols missing_texts !! name = None) ∧
    (∀ name s s', cols missing_texts !! name = Some s → cols g !! name = Some s' →
                  Forall2 (λ i x, s !! i = Some x) kept s') ∧
    (∀ name s' c, name ∈ ["course_title"; "subject"] →
                  cols g !! name = Some s' → c ∈ s' →
                  isna c = false ∧ fillna_str c = c).
Proof.
  eexists. split; [vm_compute; reflexivity|].
  apply (dropna_rows ["course_title"; "subject"] missing_texts).
  - compute_done.
  - vm_compute. reflexivity.
Defined.
